(** * Moodle Mobile 2: web-service client, sites manager and SSO login

    A shallow embedding of

    - [www/core/lib/ws.js]: the [$mmWS] factory ([call],
      [convertValuesToString]) and the [$mmSitesManager]
      factory ([checkSite], [checkMobileLocalPlugin], [getUserToken],
      [newSite], [determineService], [isValidMoodleVersion], [addSite],
      [loadSite], [deleteSite], [hasNoSites], [hasSites], [getSites],
      [getMoodleFilePath], [login], [logout], [restoreSession],
      [getSiteURL]);
    - the [mm.core.login] run block (the [mmLoginSSO] observer, the
      [$stateChangeStart] guard and [validateBrowserSSOLogin]);
    - [www/core/lib/fs.js]: the [$mmFS] factory ([init], [create],
      [createDir], [createFile], [getSize], [removeExternalFile],
      [getBasePath]).

    Promises are modelled by their final outcome; the database, the
    configuration store, the [$mmSite] singleton and the JavaScript heap by
    explicit state passing; the network, the device and the other injected
    services by the fields of a class of collaborators.  Numbers are the
    integers that a Number holds ([JSNumber]); an object used as a map
    answers for the members it inherits ([JSObject]). *)

From Stdlib Require Import ZArith String Ascii List Lia Bool.
From Stdlib Require Import DecimalString.
From stdpp Require Import base option gmap strings list.

Local Open Scope string_scope.
Set Warnings "-register-all".

(** String concatenation unfolds on a string that starts with a character. *)
#[local] Arguments String.append !s1 s2 : simpl nomatch.

(** ** JavaScript string primitives used by the sources *)

Module JSString.

(** [s] starts with [p]. *)
Fixpoint starts_with (p s : string) : bool :=
  match p with
  | EmptyString => true
  | String a p' =>
      match s with
      | String b s' => Ascii.eqb a b && starts_with p' s'
      | EmptyString => false
      end
  end.

(** [s.indexOf(sub)] as an optional position, scanning from offset [i]. *)
Fixpoint indexOf_from (sub s : string) (i : nat) : option nat :=
  if starts_with sub s then Some i
  else match s with
       | EmptyString => None
       | String _ s' => indexOf_from sub s' (S i)
       end.

(** [s.indexOf(sub)]: the position of the first occurrence, [-1] if none. *)
Definition indexOf (s sub : string) : Z :=
  match indexOf_from sub s 0 with
  | Some i => Z.of_nat i
  | None => (-1)%Z
  end.

(** Remove the first [n] characters. *)
Fixpoint drop (n : nat) (s : string) : string :=
  match n, s with
  | S k, String _ s' => drop k s'
  | _, _ => s
  end.

(** [s.replace(pat, rep)] for a string pattern [pat] and a replacement
    without dollar patterns: only the first occurrence is replaced. *)
Fixpoint replace (pat rep s : string) : string :=
  if starts_with pat s then rep ++ drop (String.length pat) s
  else match s with
       | EmptyString => EmptyString
       | String c s' => String c (replace pat rep s')
       end.

(** [s.split(sep)] for a non-empty separator.  [skip] counts the
    characters of a matched separator that are still to be dropped and
    [cur] is the field being read. *)
Fixpoint split_go (sep s : string) (skip : nat) (cur : string) : list string :=
  match s with
  | EmptyString => [cur]
  | String c s' =>
      match skip with
      | S k => split_go sep s' k cur
      | O =>
          if starts_with sep s
          then cur :: split_go sep s' (String.length sep - 1) EmptyString
          else split_go sep s' 0 (cur ++ String c EmptyString)
      end
  end.

Definition split (sep s : string) : list string := split_go sep s 0 EmptyString.

(** ASCII lower-casing, for case-insensitive regular expressions. *)
Definition lower (c : ascii) : ascii :=
  let n := nat_of_ascii c in
  if (65 <=? n)%nat && (n <=? 90)%nat then ascii_of_nat (n + 32) else c.

Fixpoint lowercase (s : string) : string :=
  match s with
  | EmptyString => EmptyString
  | String c s' => String (lower c) (lowercase s')
  end.

(** The first [n] characters. *)
Fixpoint take (n : nat) (s : string) : string :=
  match n, s with
  | S k, String c s' => String c (take k s')
  | _, _ => EmptyString
  end.

(** [s] contains [sub]: the specification of [indexOf(sub) > -1]. *)
Definition contains (s sub : string) : Prop :=
  exists pre post : string, s = pre ++ sub ++ post.

Definition char_free (c : ascii) (s : string) : Prop :=
  forall pre post : string, s <> pre ++ String c post.

End JSString.

Import JSString.

(** ** JavaScript values and promise outcomes *)

(** Values that cross the interfaces modelled here.  Numbers are the
    integers; objects and arrays live in the heap and are named by their
    location. *)
Inductive val :=
| VUndefined
| VNull
| VBool (b : bool)
| VNum (z : Z)
| VStr (s : string)
| VRef (l : nat).

(** The reason a promise is rejected with: a translated message key
    ([$mmLang.translateErrorAndReject(deferred, key)]) or a plain value
    ([deferred.reject(v)], [$q.reject()]). *)
Inductive error :=
| ErrKey (key : string)
| ErrVal (v : val).

(** The final state of a promise.  [Pending] is a promise that is never
    settled, as when the callback that should settle it throws. *)
Inductive outcome (A : Type) :=
| Resolved (a : A)
| Rejected (e : error)
| Pending.

Arguments Resolved {A} a.
Arguments Rejected {A} e.
Arguments Pending {A}.

(** JavaScript truthiness of a string. *)
Definition truthy_string (s : string) : bool :=
  match s with EmptyString => false | _ => true end.

(** ** Plain objects used as maps

    [services = {}] of the sites manager is a plain object that maps URLs
    to the names of services.  Reading a key it does not hold finds the
    member of that name which every object inherits from
    [Object.prototype], and assigning a text to [__proto__] stores
    nothing. *)
Module JSObject.

(** The members of [Object.prototype] (ECMAScript with its Annex B). *)
Definition prototype_members : list string :=
  ["constructor"; "hasOwnProperty"; "isPrototypeOf"; "propertyIsEnumerable";
   "toLocaleString"; "toString"; "valueOf"; "__defineGetter__"; "__defineSetter__";
   "__lookupGetter__"; "__lookupSetter__"; "__proto__"].

Definition inherited (k : string) : bool := existsb (String.eqb k) prototype_members.

(** [o[k] = v] for a text [v]. *)
Definition set (k v : string) (o : gmap string string) : gmap string string :=
  if String.eqb k "__proto__" then o else <[k := v]> o.

End JSObject.

(** A string, an integer or [undefined], as course ids are passed. *)
Inductive jsarg :=
| JUndefined
| JNumber (z : Z)
| JString (s : string).

Definition truthy_arg (a : jsarg) : bool :=
  match a with
  | JUndefined => false
  | JNumber z => negb (z =? 0)%Z
  | JString s => truthy_string s
  end.

Definition string_of_Z (z : Z) : string := NilZero.string_of_int (Z.to_int z).

(** ** Data model of the sites manager *)

(** An entry of the function list of [core_webservice_get_site_info]. *)
Record WSFunction := { name : string; version : string }.

(** The site information returned by the server. *)
Record SiteInfo := {
  functions : list WSFunction;
  username : string;
  fullname : string;
  sitename : string;
  userpictureurl : string
}.

(** A row of the [sites] store (key path [id]). *)
Record SiteRecord := {
  rec_id : string;
  rec_siteurl : string;
  rec_token : string;
  rec_infos : SiteInfo
}.

(** The site held by [$mmSite]: a candidate has neither id nor infos. *)
Record Site := {
  site_id : option string;
  site_siteurl : string;
  site_token : string;
  site_infos : option SiteInfo
}.

Inductive DBWrite :=
| InsertSite (r : SiteRecord)
| InsertCurrent (key : Z) (siteid : string)
| RemoveSite (siteid : string)
| RemoveCurrent (key : Z).

(** What [determineService] resolves with and [getUserToken] posts as
    [service]: the name of a service or, for a URL that is the name of a
    member [services] inherits, that member (a function or an object). *)
Inductive Service :=
| ServiceName (name : string)
| InheritedMember (member : string).

Inductive Request :=
| Head (url : string)
| PostCheck (url service : string)
| PostToken (url user password : string) (service : Service)
| Download (url path : string).

(** What [$cordovaNetwork] answers; [NetUnavailable] is the plugin
    throwing, as it does outside a device. *)
Inductive Network := Online | Offline | NetUnavailable.

(** The body of the answer of [local/mobile/check.php] and the value of its
    [code] field. *)
Inductive CodeVal :=
| CodeInt (z : Z)
| CodeStr (s : string).

Inductive CheckBody :=
| CheckNull
| CheckText (s : string)
| CheckObj (code : option CodeVal) (error : bool).

(** The body of the answer of [login/token.php]. *)
Record TokenResponse := {
  r_token : option string;
  r_error : option string;
  r_errorcode : option string
}.

Record CheckResult := { res_siteurl : string; res_code : option Z }.

Record SSOData := { sso_siteurl : string; sso_token : option string }.

(** The mutable state the two factories and the login module work on. *)
Record World := {
  db_sites : gmap string SiteRecord;
  db_current : gmap Z string;
  db_writes : list DBWrite;
  config : gmap string string;
  services : gmap string string;
  currentSite : option Site;
  files : gmap string string;
  network : Network;
  globals : gset string;
  requests : list Request
}.

(** The collaborators injected into the factories whose code is outside
    these sources; the network answers are oracles.  A request of [$http]
    ends with an answer or with a failure; a download ([$mmWS.downloadFile]
    followed by [toInternalURL]) ends with the internal URL of the file or
    with an error, or never ends. *)
Class Env := {
  md5 : string -> string;
  fetchSiteInfo : string -> string -> outcome SiteInfo;
  isValidURL : string -> bool;
  fixPluginfileURL : string -> string -> string;
  http_head : string -> bool;
  post_check : string -> string -> option CheckBody;
  post_token : string -> string -> string -> Service -> option TokenResponse;
  download : string -> string -> outcome string
}.

(** *** State updates *)

Definition set_db_sites (f : gmap string SiteRecord -> gmap string SiteRecord) (w : World) : World :=
  {| db_sites := f (db_sites w); db_current := db_current w; db_writes := db_writes w;
     config := config w; services := services w; currentSite := currentSite w;
     files := files w; network := network w; globals := globals w; requests := requests w |}.

Definition set_db_current (f : gmap Z string -> gmap Z string) (w : World) : World :=
  {| db_sites := db_sites w; db_current := f (db_current w); db_writes := db_writes w;
     config := config w; services := services w; currentSite := currentSite w;
     files := files w; network := network w; globals := globals w; requests := requests w |}.

Definition log_write (op : DBWrite) (w : World) : World :=
  {| db_sites := db_sites w; db_current := db_current w; db_writes := db_writes w ++ [op];
     config := config w; services := services w; currentSite := currentSite w;
     files := files w; network := network w; globals := globals w; requests := requests w |}.

Definition set_config (f : gmap string string -> gmap string string) (w : World) : World :=
  {| db_sites := db_sites w; db_current := db_current w; db_writes := db_writes w;
     config := f (config w); services := services w; currentSite := currentSite w;
     files := files w; network := network w; globals := globals w; requests := requests w |}.

Definition set_services (f : gmap string string -> gmap string string) (w : World) : World :=
  {| db_sites := db_sites w; db_current := db_current w; db_writes := db_writes w;
     config := config w; services := f (services w); currentSite := currentSite w;
     files := files w; network := network w; globals := globals w; requests := requests w |}.

Definition set_currentSite (s : option Site) (w : World) : World :=
  {| db_sites := db_sites w; db_current := db_current w; db_writes := db_writes w;
     config := config w; services := services w; currentSite := s;
     files := files w; network := network w; globals := globals w; requests := requests w |}.

Definition set_files (f : gmap string string -> gmap string string) (w : World) : World :=
  {| db_sites := db_sites w; db_current := db_current w; db_writes := db_writes w;
     config := config w; services := services w; currentSite := currentSite w;
     files := f (files w); network := network w; globals := globals w; requests := requests w |}.

Definition log_request (r : Request) (w : World) : World :=
  {| db_sites := db_sites w; db_current := db_current w; db_writes := db_writes w;
     config := config w; services := services w; currentSite := currentSite w;
     files := files w; network := network w; globals := globals w; requests := requests w ++ [r] |}.

(** ** [parseInt(v, 10)] *)

Definition is_space (c : ascii) : bool :=
  let n := nat_of_ascii c in
  (n =? 32)%nat || ((9 <=? n)%nat && (n <=? 13)%nat).

Definition digit_of (c : ascii) : option Z :=
  let n := nat_of_ascii c in
  if (48 <=? n)%nat && (n <=? 57)%nat then Some (Z.of_nat (n - 48)) else None.

Fixpoint skip_spaces (s : string) : string :=
  match s with
  | String c s' => if is_space c then skip_spaces s' else s
  | EmptyString => s
  end.

(** The value of the longest prefix of decimal digits; [None] (NaN) when
    there is no digit. *)
Fixpoint digits_value (s : string) (acc : option Z) : option Z :=
  match s with
  | String c s' =>
      match digit_of c with
      | Some d => digits_value s' (Some (10 * default 0%Z acc + d)%Z)
      | None => acc
      end
  | EmptyString => acc
  end.

Definition parseInt10_string (s : string) : option Z :=
  match skip_spaces s with
  | String "-"%char s' => Z.opp <$> digits_value s' None
  | String "+"%char s' => digits_value s' None
  | s' => digits_value s' None
  end.

(** ** Numbers

    The numbers of the model are the Number values that are integers.  A
    Number is a double: it has 53 significant bits, so not every integer
    is one, and from [10^21] on a Number is printed with an exponent. *)

Module JSNumber.

(** The Number nearest to an integer (a tie goes to the even one); [None]
    is an infinity. *)
Definition nearest (z : Z) : option Z :=
  let a := Z.abs z in
  let excess := (Z.log2 a + 1 - 53)%Z in
  if (excess <=? 0)%Z then Some z
  else
    let q := Z.shiftr a excess in
    let r := (a - Z.shiftl q excess)%Z in
    let half := Z.shiftl 1 (excess - 1) in
    let q := if (half <? r)%Z || ((r =? half)%Z && Z.odd q) then (q + 1)%Z else q in
    let v := Z.shiftl q excess in
    if (v <? 2 ^ 1024)%Z then Some (Z.sgn z * v)%Z else None.

(** [a + b] on Numbers: the Number nearest to the sum. *)
Definition add (a b : Z) : option Z := nearest (a + b).

(** The number of decimal digits of a positive integer. *)
Definition digits (a : Z) : Z := Z.of_nat (String.length (string_of_Z a)).

(** The [s] and the power of ten of Number::toString: the decimal
    [s * 10^p] with the fewest digits whose nearest Number is [a], and
    among those the one closest to [a].  [k] is the number of digits
    tried and [n] the number of digits of [a]; 17 digits always do. *)
Fixpoint shortest_from (fuel : nat) (k n a : Z) : Z * Z :=
  match fuel with
  | O => (a, 0%Z)
  | S fuel =>
      let p := (n - k)%Z in
      if (p <=? 0)%Z then (a, 0%Z)
      else
        let scale := (10 ^ p)%Z in
        let lo := (a / scale)%Z in
        let down := (lo * scale)%Z in
        let up := (down + scale)%Z in
        let ok_down := (0 <? lo)%Z && bool_decide (nearest down = Some a) in
        let ok_up := bool_decide (nearest up = Some a) in
        if ok_down && ok_up then
          if (a - down <? up - a)%Z || ((a - down =? up - a)%Z && Z.even lo)
          then (lo, p) else ((lo + 1)%Z, p)
        else if ok_down then (lo, p)
        else if ok_up then ((lo + 1)%Z, p)
        else shortest_from fuel (k + 1)%Z n a
  end.

Definition shortest (a : Z) : Z * Z := shortest_from 17 1 (digits a) a.

Fixpoint zeros (n : nat) : string :=
  match n with
  | O => EmptyString
  | S n => String "0" (zeros n)
  end.

Fixpoint strip_zeros (s : string) : string :=
  match s with
  | EmptyString => EmptyString
  | String c s' =>
      match strip_zeros s' with
      | EmptyString => if Ascii.eqb c "0" then EmptyString else String c EmptyString
      | t => String c t
      end
  end.

(** Number::toString of a positive Number: plain digits below [10^21],
    else the digits of [s] with a point after the first and an exponent. *)
Definition positive_to_string (a : Z) : string :=
  let '(s, p) := shortest a in
  let ds := string_of_Z s in
  let n := (Z.of_nat (String.length ds) + p)%Z in
  if (n <=? 21)%Z then ds ++ zeros (Z.to_nat p)
  else
    match strip_zeros ds with
    | String d EmptyString => String d ("e+" ++ string_of_Z (n - 1))
    | String d rest => String d ("." ++ rest ++ "e+" ++ string_of_Z (n - 1))
    | EmptyString => EmptyString
    end.

(** Number::toString, as [n + ''] and [String(n)] compute it. *)
Definition to_string (z : Z) : string :=
  if (z <? 0)%Z then "-" ++ positive_to_string (- z)
  else if (z =? 0)%Z then "0"
  else positive_to_string z.

(** [parseInt(n)] and [parseInt(n, 10)] of a Number: the Number is printed
    and the digits before the first character that is not one are read.
    Below [10^21] the print has no exponent and denotes a decimal which
    the Number is nearest to, so the Number comes back; from [10^21] on
    only the digits before the point or the exponent are read. *)
Definition parseInt (z : Z) : option Z :=
  if (Z.abs z <? 10 ^ 21)%Z then Some z
  else parseInt10_string (to_string z) ≫= nearest.

End JSNumber.

(** [a + ''] of a course id. *)
Definition string_of_arg (a : jsarg) : string :=
  match a with
  | JUndefined => "undefined"
  | JNumber z => JSNumber.to_string z
  | JString s => s
  end.

(** [parseInt(code, 10)]; [None] is a value that is not a finite number
    (NaN, or an infinity for a text of more digits than a Number holds). *)
Definition parseInt10 (c : CodeVal) : option Z :=
  match c with
  | CodeInt z => JSNumber.parseInt z
  | CodeStr s => parseInt10_string s ≫= JSNumber.nearest
  end.

(** ** URL helpers of [checkSite] *)

(** The length of the match of [/^http(s)?\:\/\//i] at the start of [s]. *)
Definition scheme_length (s : string) : option nat :=
  if String.eqb (lowercase (take 8 s)) "https://" then Some 8
  else if String.eqb (lowercase (take 7 s)) "http://" then Some 7
  else None.

(** [siteurl.replace(/^http(s)?\:\/\//i, protocol)]. *)
Definition replaceScheme (protocol s : string) : string :=
  match scheme_length s with
  | Some n => protocol ++ drop n s
  | None => s
  end.

(** Modelled from the spec: [$mmUtil.formatURL] is not part of these
    sources; it "adds the protocol if is missing" (comment in [checkSite];
    the specification: "normalizes URL (adds scheme if absent)"), and the
    protocol it adds is https. *)
Definition formatURL (url : string) : string :=
  match scheme_length url with
  | Some _ => url
  | None => "https://" ++ url
  end.

(** ** The sites manager *)

Section SitesManager.

Context {E : Env}.

(** Modelled from the spec: [$mmConfig.get(name)] is not part of these
    sources; the configuration collaborator "exposes get/set/delete of
    named scalar settings".  A missing setting rejects the promise. *)
Definition config_get (w : World) (key : string) : outcome string :=
  match config w !! key with
  | Some v => Resolved v
  | None => Rejected (ErrVal VUndefined)
  end.

Definition config_delete (key : string) (w : World) : World :=
  set_config (delete key) w.

(** Modelled from the spec: the durable store ([$mmApp.getDB()]) is not
    part of these sources; it is "a keyed store exposing
    get/insert/remove/count/getAll per named collection", each write "a
    single atomic upsert keyed by record id".  [get] of a missing key
    rejects, which is what the rejection callbacks of its callers
    ([getSiteURL]) are written for. *)
Definition db_insert_site (r : SiteRecord) (w : World) : World :=
  log_write (InsertSite r) (set_db_sites (insert (rec_id r) r) w).

Definition db_insert_current (key : Z) (siteid : string) (w : World) : World :=
  log_write (InsertCurrent key siteid) (set_db_current (insert key siteid) w).

Definition db_get_site (w : World) (siteid : string) : outcome SiteRecord :=
  match db_sites w !! siteid with
  | Some r => Resolved r
  | None => Rejected (ErrVal VUndefined)
  end.

(** Modelled from the spec: [$mmSite] is not part of these sources; it
    holds the active site, and a candidate site is one "not yet
    persisted" that lacks id and infos. *)
Definition setCandidateSite (siteurl token : string) (w : World) : World :=
  set_currentSite
    (Some {| site_id := None; site_siteurl := siteurl; site_token := token;
             site_infos := None |}) w.

Definition deleteCandidateSite (w : World) : World := set_currentSite None w.

Definition setSite (id siteurl token : string) (infos : SiteInfo) (w : World) : World :=
  set_currentSite
    (Some {| site_id := Some id; site_siteurl := siteurl; site_token := token;
             site_infos := Some infos |}) w.

Definition getURL (w : World) : option string := site_siteurl <$> currentSite w.

Definition getId (w : World) : option string := currentSite w ≫= site_id.

(** [isValidMoodleVersion]: the loop over [sitefunctions]. *)
Fixpoint isValidMoodleVersion (sitefunctions : list WSFunction) : bool :=
  match sitefunctions with
  | [] => false
  | f :: rest =>
      if (indexOf (name f) "component_strings" >? -1)%Z then true
      else isValidMoodleVersion rest
  end.

(** [self.addSite]. *)
Definition addSite (id siteurl token : string) (infos : SiteInfo) (w : World) : World :=
  db_insert_site
    {| rec_id := id; rec_siteurl := siteurl; rec_token := token; rec_infos := infos |} w.

(** [self.login]. *)
Definition login (siteid : string) (w : World) : World :=
  db_insert_current 1 siteid w.

(** [self.newSite]. *)
Definition newSite (w : World) (siteurl token : string) : outcome unit * World :=
  let w := setCandidateSite siteurl token w in
  match fetchSiteInfo siteurl token with
  | Resolved infos =>
      if isValidMoodleVersion (functions infos) then
        let siteid := md5 (siteurl ++ username infos) in
        let w := addSite siteid siteurl token infos w in
        let w := setSite siteid siteurl token infos w in
        let w := login siteid w in
        (Resolved tt, w)
      else
        (Rejected (ErrKey "mm.login.invalidmoodleversion"), deleteCandidateSite w)
  | Rejected error => (Rejected error, deleteCandidateSite w)
  | Pending => (Pending, w)
  end.

(** [self.loadSite]. *)
Definition loadSite (w : World) (siteid : string) : outcome unit * World :=
  match db_get_site w siteid with
  | Resolved site =>
      let w := setSite siteid (rec_siteurl site) (rec_token site) (rec_infos site) w in
      let w := login siteid w in
      (Resolved tt, w)
  | Rejected e => (Rejected e, w)
  | Pending => (Pending, w)
  end.

(** [self.getSiteURL]; the argument is [None] for [undefined], and so is
    the resolved value. *)
Definition getSiteURL (w : World) (siteid : option string) : outcome (option string) :=
  match siteid with
  | None => Resolved (getURL w)
  | Some siteid =>
      match db_get_site w siteid with
      | Resolved site => Resolved (Some (rec_siteurl site))
      | _ => Resolved None
      end
  end.

(** [checkMobileLocalPlugin]. *)
Definition checkMobileLocalPlugin (w : World) (siteurl : string)
  : outcome (option Z) * World :=
  match config_get w "wsextservice" with
  | Resolved service =>
      let w := log_request (PostCheck (siteurl ++ "/local/mobile/check.php") service) w in
      match post_check (siteurl ++ "/local/mobile/check.php") service with
      | Some CheckNull => (Pending, w)
      | Some (CheckText _) => (Rejected (ErrKey "mm.core.unexpectederror"), w)
      | Some (CheckObj None _) => (Rejected (ErrKey "mm.core.unexpectederror"), w)
      | Some (CheckObj (Some c) error) =>
          let code := parseInt10 c in
          if error then
            match code with
            | Some 1%Z => (Rejected (ErrKey "mm.login.siteinmaintenance"), w)
            | Some 2%Z => (Rejected (ErrKey "mm.login.webservicesnotenabled"), w)
            | Some 3%Z => (Resolved (Some 0%Z), w)
            | Some 4%Z => (Rejected (ErrKey "mm.login.mobileservicesnotenabled"), w)
            | _ => (Rejected (ErrKey "mm.core.unexpectederror"), w)
            end
          else
            (Resolved code, set_services (JSObject.set siteurl service) w)
      | None => (Resolved (Some 0%Z), w)
      end
  | _ => (Resolved (Some 0%Z), w)
  end.

(** [self.siteExists]: the HEAD request to the token endpoint. *)
Definition siteExists (w : World) (siteurl : string) : bool * World :=
  (http_head (siteurl ++ "/login/token.php"),
   log_request (Head (siteurl ++ "/login/token.php")) w).

(** The success callback of [siteExists] in [checkSite]. *)
Definition checkSite_found (w : World) (siteurl : string) : outcome CheckResult * World :=
  let '(r, w) := checkMobileLocalPlugin w siteurl in
  match r with
  | Resolved code => (Resolved {| res_siteurl := siteurl; res_code := code |}, w)
  | Rejected error => (Rejected error, w)
  | Pending => (Pending, w)
  end.

(** [self.checkSite]; [protocol] is [None] for [undefined].  The fuel
    bounds the recursive retry. *)
Fixpoint checkSite (fuel : nat) (w : World) (siteurl : string) (protocol : option string)
  : option (outcome CheckResult * World) :=
  match fuel with
  | O => None
  | S fuel =>
      let siteurl := formatURL siteurl in
      if (indexOf siteurl "://localhost" =? -1)%Z && negb (isValidURL siteurl) then
        Some (Rejected (ErrKey "mm.login.invalidsite"), w)
      else
        let protocol :=
          match protocol with
          | Some p => if truthy_string p then p else "https://"
          | None => "https://"
          end in
        let siteurl := replaceScheme protocol siteurl in
        let '(exists_, w) := siteExists w siteurl in
        if exists_ then Some (checkSite_found w siteurl)
        else if (indexOf siteurl "https://" =? 0)%Z then
          checkSite fuel w siteurl (Some "http://")
        else
          Some (Rejected (ErrKey "mm.core.cannotconnect"), w)
  end.

(** [services[siteurl]] when it is truthy: a name stored under the key
    that is not empty, or a member the object inherits under that name. *)
Definition cached_service (w : World) (siteurl : string) : option Service :=
  match services w !! siteurl with
  | Some s => if truthy_string s then Some (ServiceName s) else None
  | None => if JSObject.inherited siteurl then Some (InheritedMember siteurl) else None
  end.

(** [determineService]. *)
Definition determineService (w : World) (siteurl : string) : outcome Service :=
  let siteurl := replace "https://" "http://" siteurl in
  match cached_service w siteurl with
  | Some s => Resolved s
  | None =>
      let siteurl := replace "http://" "https://" siteurl in
      match cached_service w siteurl with
      | Some s => Resolved s
      | None =>
          match config_get w "wsservice" with
          | Resolved s => Resolved (ServiceName s)
          | Rejected e => Rejected e
          | Pending => Pending
          end
      end
  end.

(** [self.getUserToken].  The identifier [logindata] is declared nowhere
    in the factory, so it is looked up on the global object: evaluating
    [logindata.siteurl = siteurl] throws a ReferenceError unless a global
    of that name exists, and then the callback ends without settling the
    deferred.  The fuel bounds the recursive retry. *)
Fixpoint getUserToken (fuel : nat) (w : World) (siteurl username password : string)
    (retry : bool) : option (outcome string * World) :=
  match fuel with
  | O => None
  | S fuel =>
      match determineService w siteurl with
      | Resolved service =>
          let loginurl := siteurl ++ "/login/token.php" in
          let w := log_request (PostToken loginurl username password service) w in
          match post_token loginurl username password service with
          | Some response =>
              match r_token response with
              | Some token => Some (Resolved token, w)
              | None =>
                  match r_error response with
                  | Some error =>
                      if negb retry &&
                         bool_decide (r_errorcode response = Some "requirecorrectaccess")
                      then
                        let siteurl := replace "https://" "https://www." siteurl in
                        let siteurl := replace "http://" "http://www." siteurl in
                        if bool_decide ("logindata" ∈ globals w) then
                          getUserToken fuel w siteurl username password true
                        else
                          Some (Pending, w)
                      else
                        Some (Rejected (ErrVal (VStr error)), w)
                  | None => Some (Rejected (ErrKey "mm.login.invalidaccount"), w)
                  end
              end
          | None => Some (Rejected (ErrKey "mm.core.cannotconnect"), w)
          end
      | Rejected e => Some (Rejected e, w)
      | Pending => Some (Pending, w)
      end
  end.

(** The [path.file] of [getMoodleFilePath]: where the file is cached. *)
Definition path_file (siteId : string) (courseId : jsarg) (fileurl : string) : string :=
  let extension := "." ++ List.last (split "." fileurl) "" in
  let extension := if (indexOf extension ".php" =? 0)%Z then "" else extension in
  let filename := md5 fileurl ++ extension in
  siteId ++ "/" ++ string_of_arg courseId ++ "/" ++ filename.

(** [self.getMoodleFilePath]; [fileurl] and [siteId] are [None] for
    [undefined]. *)
Definition getMoodleFilePath (w : World) (fileurl : option string) (courseId : jsarg)
    (siteId : option string) : outcome string * World :=
  match fileurl with
  | Some (String c0 f0 as fileurl) =>
      let courseId := if truthy_arg courseId then courseId else JNumber 1 in
      let siteId :=
        match siteId with
        | Some (String _ _ as s) => Some s
        | _ => getId w
        end in
      match siteId with
      | None => (Rejected (ErrVal VUndefined), w)
      | Some siteId =>
          match db_get_site w siteId with
          | Resolved site =>
              let downloadURL := fixPluginfileURL fileurl (rec_token site) in
              let path_file := path_file siteId courseId fileurl in
              match files w !! path_file with
              | Some internalURL => (Resolved internalURL, w)
              | None =>
                  match network w with
                  | Online =>
                      let w := log_request (Download downloadURL path_file) w in
                      match download downloadURL path_file with
                      | Resolved internalURL =>
                          (Resolved internalURL, set_files (insert path_file internalURL) w)
                      | Rejected err => (Resolved downloadURL, w)
                      | Pending => (Pending, w)
                      end
                  | Offline => (Resolved downloadURL, w)
                  | NetUnavailable => (Resolved downloadURL, w)
                  end
              end
          | Rejected e => (Rejected e, w)
          | Pending => (Pending, w)
          end
      end
  | _ => (Rejected (ErrVal VUndefined), w)
  end.

End SitesManager.

(** ** The login module *)

Section Login.

Context {E : Env}.

(** The other scheme of [validateBrowserSSOLogin]: the branch taken when
    the first signature does not match. *)
Definition swap_scheme (launchSiteURL : string) : string :=
  if negb (indexOf launchSiteURL "https://" =? -1)%Z
  then replace "https://" "http://" launchSiteURL
  else replace "http://" "https://" launchSiteURL.

(** [validateBrowserSSOLogin] of the login module; the two configuration
    keys are the constants [mmLoginLaunchSiteURL] and
    [mmLoginLaunchPassport]. *)
Definition validateBrowserSSOLogin (w : World) (url : string) : outcome SSOData * World :=
  let params := split ":::" url in
  match config_get w "mmLoginLaunchSiteURL" with
  | Resolved launchSiteURL =>
      match config_get w "mmLoginLaunchPassport" with
      | Resolved passport =>
          let w := config_delete "mmLoginLaunchSiteURL" w in
          let w := config_delete "mmLoginLaunchPassport" w in
          let signature := md5 (launchSiteURL ++ passport) in
          let '(launchSiteURL, signature) :=
            if bool_decide (Some signature <> params !! 0%nat) then
              let launchSiteURL := swap_scheme launchSiteURL in
              (launchSiteURL, md5 (launchSiteURL ++ passport))
            else (launchSiteURL, signature) in
          if bool_decide (Some signature = params !! 0%nat) then
            (Resolved {| sso_siteurl := launchSiteURL; sso_token := params !! 1%nat |}, w)
          else
            (Rejected (ErrKey "mm.core.unexpectederror"), w)
      | Rejected e => (Rejected e, w)
      | Pending => (Pending, w)
      end
  | Rejected e => (Rejected e, w)
  | Pending => (Pending, w)
  end.

End Login.

(** ** The rest of the sites manager *)

(** An entry of the list [getSites] builds. *)
Record FormattedSite := {
  fs_id : string;
  fs_siteurl : string;
  fs_fullname : string;
  fs_sitename : string;
  fs_avatar : string
}.

(** The sites manager with its own variable [sessionRestored]. *)
Record Manager := { world : World; sessionRestored : bool }.

(** Modelled from the spec: [db.remove] and [db.count] of the durable
    store, which is not part of these sources; a removal is logged like an
    insertion. *)
Definition db_remove_site (siteid : string) (w : World) : World :=
  log_write (RemoveSite siteid) (set_db_sites (delete siteid) w).

Definition db_remove_current (key : Z) (w : World) : World :=
  log_write (RemoveCurrent key) (set_db_current (delete key) w).

Definition db_count_sites (w : World) : nat := size (db_sites w).

(** Modelled from the spec: [db.getAll] yields the stored rows, in the
    order of the store. *)
Definition db_getAll_sites (w : World) : list SiteRecord := (map_to_list (db_sites w)).*2.

(** Modelled from the spec: [$mmSite.logout] is not part of these sources;
    it drops the active site ("absence means logged out"). *)
Definition mmSite_logout (w : World) : World := set_currentSite None w.

(** [self.hasNoSites]. *)
Definition hasNoSites (w : World) : outcome unit :=
  if (0 <? db_count_sites w)%nat then Rejected (ErrVal VUndefined) else Resolved tt.

(** [self.hasSites]. *)
Definition hasSites (w : World) : outcome unit :=
  if (db_count_sites w =? 0)%nat then Rejected (ErrVal VUndefined) else Resolved tt.

(** [self.getSites]. *)
Definition getSites (w : World) : outcome (list FormattedSite) :=
  Resolved
    ((fun site =>
        {| fs_id := rec_id site;
           fs_siteurl := rec_siteurl site;
           fs_fullname := fullname (rec_infos site);
           fs_sitename := sitename (rec_infos site);
           fs_avatar := userpictureurl (rec_infos site) |}) <$> db_getAll_sites w).

(** [self.deleteSite].  [$mmSite.deleteSite], which is not part of these
    sources, is the parameter [mmSite_deleteSite]: the outcome of its
    promise and the state it leaves. *)
Definition deleteSite (mmSite_deleteSite : string -> World -> outcome unit * World)
    (w : World) (siteid : string) : outcome unit * World :=
  let '(r, w) := mmSite_deleteSite siteid w in
  match r with
  | Resolved _ => (Resolved tt, db_remove_site siteid w)
  | Rejected e => (Rejected e, w)
  | Pending => (Pending, w)
  end.

(** [self.logout]. *)
Definition logout (w : World) : outcome unit * World :=
  (Resolved tt, db_remove_current 1 (mmSite_logout w)).

(** [self.restoreSession]. *)
Definition restoreSession (m : Manager) : outcome unit * Manager :=
  if sessionRestored m then (Rejected (ErrVal VUndefined), m)
  else
    match db_current (world m) !! 1%Z with
    | Some siteid =>
        let '(r, w) := loadSite (world m) siteid in
        (r, {| world := w; sessionRestored := true |})
    | None =>
        (Rejected (ErrVal VUndefined), {| world := world m; sessionRestored := true |})
    end.

(** ** The rest of the login module *)

(** [window.atob]: [None] when it throws on a text that is not base64. *)
Class Browser := { atob : string -> option string }.

(** What the observer registered as [mmLoginSSO] did with a launch URL. *)
Inductive Launch :=
| NotHandled
| Handled (r : outcome unit)
| HandledWithoutToken.

Section LoginModule.

Context {E : Env} {B : Browser}.

(** The observer registered with [$mmURLDelegate.register('mmLoginSSO', ...)].
    [NotHandled] is the observer returning [false]; [Handled r] is it
    returning [true], with [r] the outcome of the validation followed by
    [newSite] (on which the page changes or an error is shown, which is not
    modelled).  [HandledWithoutToken] is the case of a validated payload
    without a second field: [newSite] is then called with an undefined
    token, which the model of [newSite] does not cover. *)
Definition mmLoginSSO (w : World) (url : string) : Launch * World :=
  let ssoScheme := "moodlemobile://token=" in
  if (indexOf url ssoScheme =? -1)%Z then (NotHandled, w)
  else
    let url := replace ssoScheme "" url in
    match atob url with
    | None => (NotHandled, w)
    | Some url =>
        let '(r, w) := validateBrowserSSOLogin w url in
        match r with
        | Resolved sitedata =>
            match sso_token sitedata with
            | Some token =>
                let '(r, w) := newSite w (sso_siteurl sitedata) token in
                (Handled r, w)
            | None => (HandledWithoutToken, w)
            end
        | Rejected errorMessage => (Handled (Rejected errorMessage), w)
        | Pending => (Handled Pending, w)
        end
    end.

End LoginModule.

(** The listener of [$stateChangeStart]: the state the transition is
    redirected to, if it is.  [isLoggedIn] is what [$mmSite.isLoggedIn()]
    answers. *)
Definition stateChangeStart (isLoggedIn : bool) (toState_name : string) : option string :=
  if negb (String.eqb (take 8 toState_name) "mm_login") && negb isLoggedIn then
    Some "mm_login.init"
  else if String.eqb (take 8 toState_name) "mm_login" && isLoggedIn then
    Some "site.mm_courses"
  else None.

(** ** The web-service client and the JavaScript heap *)

(** An object or array: its own enumerable properties in insertion order. *)
Record obj := { is_array : bool; props : list (string * val) }.

(** The heap: a location is an index, and allocation appends. *)
Abbreviation heap := (list obj).

(** A decoded JSON text. *)
Inductive json :=
| JNull
| JBool (b : bool)
| JNum (z : Z)
| JStr (s : string)
| JArr (items : list json)
| JObj (fields : list (string * json)).

(** The settings object of [call]; an absent field is [None]. *)
Record PreSets := {
  siteurl : option string;
  wstoken : option string;
  responseExpected : bool
}.

(** [$http.post]: [None] is a transport failure, [Some None] an answer
    without a body. *)
Class Transport := {
  http_post : string -> heap -> val -> option (option json)
}.

Module Heap.

Fixpoint assoc_get (k : string) (ps : list (string * val)) : val :=
  match ps with
  | [] => VUndefined
  | (k', v) :: ps => if String.eqb k k' then v else assoc_get k ps
  end.

Fixpoint assoc_set (k : string) (v : val) (ps : list (string * val))
  : list (string * val) :=
  match ps with
  | [] => [(k, v)]
  | (k', v') :: ps =>
      if String.eqb k k' then (k', v) :: ps else (k', v') :: assoc_set k v ps
  end.

Definition alloc (o : obj) (h : heap) : heap * nat := ((h ++ [o])%list, length h).

(** [angular.isObject]: a non-null object. *)
Definition isObject (v : val) : bool :=
  match v with VRef _ => true | _ => false end.

(** [angular.isArray]. *)
Definition isArray (h : heap) (v : val) : bool :=
  match v with
  | VRef l => match h !! l with Some o => is_array o | None => false end
  | _ => false
  end.

(** The index keys ["0"], ..., of a string of [n] characters after [i]. *)
Fixpoint index_keys (i n : nat) : list string :=
  match n with
  | O => []
  | S n => string_of_Z (Z.of_nat i) :: index_keys (S i) n
  end.

(** The keys a [for (el in v)] loop visits. *)
Definition keys (h : heap) (v : val) : list string :=
  match v with
  | VRef l => match h !! l with Some o => (props o).*1 | None => [] end
  | VStr s => index_keys 0 (String.length s)
  | _ => []
  end.

(** The character of [s] at the index written [k]. *)
Definition char_at (s k : string) : val :=
  match parseInt10_string k with
  | Some z =>
      if String.eqb (string_of_Z z) k then
        match String.get (Z.to_nat z) s with
        | Some c => VStr (String c EmptyString)
        | None => VUndefined
        end
      else VUndefined
  | None => VUndefined
  end.

(** [v[k]]. *)
Definition get_prop (h : heap) (v : val) (k : string) : val :=
  match v with
  | VRef l => match h !! l with Some o => assoc_get k (props o) | None => VUndefined end
  | VStr s =>
      if String.eqb k "length" then VNum (Z.of_nat (String.length s)) else char_at s k
  | _ => VUndefined
  end.

(** [object[k] = v] on the object at [l].  An assignment to [__proto__]
    stores no member: it calls the setter that every object inherits,
    which changes the prototype when [v] is an object (prototypes are not
    part of the model) and does nothing otherwise. *)
Definition set_prop (h : heap) (l : nat) (k : string) (v : val) : heap :=
  if String.eqb k "__proto__" then h
  else alter (fun o => {| is_array := is_array o; props := assoc_set k v (props o) |}) l h.

(** [v + '']. *)
Definition to_string (v : val) : string :=
  match v with
  | VUndefined => "undefined"
  | VNull => "null"
  | VBool true => "true"
  | VBool false => "false"
  | VNum z => JSNumber.to_string z
  | VStr s => s
  | VRef _ => "[object Object]"
  end.

Definition truthy (v : val) : bool :=
  match v with
  | VUndefined | VNull => false
  | VBool b => b
  | VNum z => negb (z =? 0)%Z
  | VStr s => truthy_string s
  | VRef _ => true
  end.

(** [typeof(v) !== 'undefined']. *)
Definition defined (v : val) : bool :=
  match v with VUndefined => false | _ => true end.

(** The text an object or array of a decoded JSON text converts to
    (ToPrimitive): an array gives the texts of its members joined by
    commas, where [null] and [undefined] give the empty text; an object
    gives "[object Object]", unless it has a member [toString], which is
    then no function: the conversion throws a TypeError ([Some None]).
    The fuel bounds the depth ([None] when it runs out). *)
Fixpoint object_string (fuel : nat) (h : heap) (l : nat) : option (option string) :=
  match fuel with
  | O => None
  | S fuel =>
      match h !! l with
      | None => Some (Some "[object Object]")
      | Some o =>
          if is_array o then
            (fix join (elements : list val) : option (option string) :=
               match elements with
               | [] => Some (Some EmptyString)
               | e :: elements =>
                   let text :=
                     match e with
                     | VUndefined | VNull => Some (Some EmptyString)
                     | VRef l' => object_string fuel h l'
                     | _ => Some (Some (to_string e))
                     end in
                   match text, join elements with
                   | Some (Some s), Some (Some rest) =>
                       Some (Some (match elements with
                                   | [] => s
                                   | _ => s ++ "," ++ rest
                                   end))
                   | None, _ | _, None => None
                   | _, _ => Some None
                   end
               end) (props o).*2
          else if bool_decide ("toString" ∈ (props o).*1) then Some None
          else Some (Some "[object Object]")
      end
  end.

(** ['' + v] for any value; [Some None] when the conversion throws. *)
Definition string_of (fuel : nat) (h : heap) (v : val) : option (option string) :=
  match v with
  | VRef l => object_string fuel h l
  | _ => Some (Some (to_string v))
  end.

(** [v == s] for a text [s] that is not the text of a number; [Some None]
    when the conversion of [v] throws. *)
Definition eq_string (fuel : nat) (h : heap) (v : val) (s : string)
  : option (option bool) :=
  match v with
  | VStr s' => Some (Some (String.eqb s' s))
  | VRef l =>
      match object_string fuel h l with
      | Some (Some t) => Some (Some (String.eqb t s))
      | Some None => Some None
      | None => None
      end
  | _ => Some (Some false)
  end.

(** The body of a [for (el in data)] loop that stores in [result] what
    [item] yields for each member. *)
Fixpoint for_in (item : heap -> val -> option (heap * val)) (data : val) (result : nat)
    (ks : list string) (h : heap) : option heap :=
  match ks with
  | [] => Some h
  | el :: ks =>
      match item h (get_prop h data el) with
      | Some (h, r) => for_in item data result ks (set_prop h result el r)
      | None => None
      end
  end.

(** The members of a decoded array, numbered from [i], and of a decoded
    object; [dec] decodes a member. *)
Definition decode_items (dec : heap -> json -> heap * val) :=
  fix go (i : nat) (items : list json) (h : heap) (acc : list (string * val))
    : heap * list (string * val) :=
    match items with
    | [] => (h, acc)
    | j :: items =>
        let '(h, v) := dec h j in
        go (S i) items h (acc ++ [(string_of_Z (Z.of_nat i), v)])%list
    end.

Definition decode_fields (dec : heap -> json -> heap * val) :=
  fix go (fields : list (string * json)) (h : heap) (acc : list (string * val))
    : heap * list (string * val) :=
    match fields with
    | [] => (h, acc)
    | (k, j) :: fields =>
        let '(h, v) := dec h j in
        go fields h (assoc_set k v acc)
    end.

(** The decoder of the transport: a JSON text becomes fresh objects. *)
Fixpoint decode (h : heap) (j : json) : heap * val :=
  match j with
  | JNull => (h, VNull)
  | JBool b => (h, VBool b)
  | JNum z => (h, VNum z)
  | JStr s => (h, VStr s)
  | JArr items =>
      let '(h, ps) := decode_items decode 0 items h [] in
      let '(h, l) := alloc {| is_array := true; props := ps |} h in
      (h, VRef l)
  | JObj fields =>
      let '(h, ps) := decode_fields decode fields h [] in
      let '(h, l) := alloc {| is_array := false; props := ps |} h in
      (h, VRef l)
  end.

End Heap.

Import Heap.

Section WS.

Context {T : Transport}.

(** [convertValuesToString]: the location of the fresh [result].  The
    fuel bounds the depth of the recursion, which JavaScript bounds by its
    call stack. *)
Fixpoint convertValuesToString (fuel : nat) (h : heap) (data : val) : option (heap * nat) :=
  match fuel with
  | O => None
  | S fuel =>
      let '(h, result) :=
        alloc {| is_array := negb (negb (isArray h data) && isObject data);
                 props := [] |} h in
      let item (h : heap) (v : val) :=
        if isObject v then
          match convertValuesToString fuel h v with
          | Some (h, r) => Some (h, VRef r)
          | None => None
          end
        else Some (h, VStr (to_string v)) in
      match for_in item data result (keys h data) h with
      | Some h => Some (h, result)
      | None => None
      end
  end.

(** Modelled from the spec: [angular.copy] belongs to AngularJS, not to
    these sources; [call] passes back "a clone of the original object"
    (comment in [call]), "a defensive copy of the decoded payload" for the
    specification: every object and array reached from the source is
    copied into a fresh one. *)
Fixpoint angular_copy (fuel : nat) (h : heap) (source : val) : option (heap * val) :=
  match fuel with
  | O => None
  | S fuel =>
      if isObject source then
        let '(h, destination) :=
          alloc {| is_array := isArray h source; props := [] |} h in
        match for_in (angular_copy fuel) source destination (keys h source) h with
        | Some h => Some (h, VRef destination)
        | None => None
        end
      else Some (h, source)
  end.

(** What [$http] hands to the success callback: a response object whose
    [data] is the decoded body. *)
Definition receive (h : heap) (body : option json) : heap * val :=
  let '(h, data) :=
    match body with
    | Some j => decode h j
    | None => (h, VUndefined)
    end in
  let '(h, response) := alloc {| is_array := false; props := [("data", data)] |} h in
  (h, VRef response).

(** The success callback of [$http.post(...).then] in [call]; its
    parameter [data] is the response object.  When a comparison or a
    concatenation throws, the callback ends without settling the
    deferred. *)
Definition call_success (fuel : nat) (h : heap) (responseExpected : bool) (data : val)
  : option (outcome val * heap) :=
  let '(h, data) :=
    if negb (truthy data) && negb (truthy (get_prop h data "data"))
       && negb responseExpected
    then
      let '(h, l) := alloc {| is_array := false; props := [] |} h in
      (h, VRef l)
    else (h, get_prop h data "data") in
  if negb (truthy data) then
    Some (Rejected (ErrKey "mm.core.cannotconnect"), h)
  else if defined (get_prop h data "exception") then
    match eq_string fuel h (get_prop h data "errorcode") "invalidtoken" with
    | None => None
    | Some None => Some (Pending, h)
    | Some (Some true) => Some (Rejected (ErrKey "mm.core.lostconnection"), h)
    | Some (Some false) =>
        match eq_string fuel h (get_prop h data "errorcode") "accessexception" with
        | None => None
        | Some None => Some (Pending, h)
        | Some (Some true) => Some (Rejected (ErrKey "mm.core.lostconnection"), h)
        | Some (Some false) => Some (Rejected (ErrVal (get_prop h data "message")), h)
        end
    end
  else if defined (get_prop h data "debuginfo") then
    match string_of fuel h (get_prop h data "message") with
    | None => None
    | Some None => Some (Pending, h)
    | Some (Some message) => Some (Rejected (ErrVal (VStr ("Error. " ++ message))), h)
    end
  else
    match angular_copy fuel h data with
    | Some (h, copy) => Some (Resolved copy, h)
    | None => None
    end.

(** The request [call] sends once its checks have passed: the URL, the
    heap at that moment and the object posted, [ajaxData]. *)
Definition request (fuel : nat) (h : heap) (method : string) (data : val)
    (preSets_siteurl preSets_wstoken : string) : option (string * heap * nat) :=
  match convertValuesToString fuel h data with
  | None => None
  | Some (h, data) =>
      let h := set_prop h data "wsfunction" (VStr method) in
      let h := set_prop h data "wstoken" (VStr preSets_wstoken) in
      let siteurl :=
        preSets_siteurl ++ "/webservice/rest/server.php?moodlewsrestformat=json" in
      Some (siteurl, h, data)
  end.

(** [self.call].  [net] is what [$cordovaNetwork.isOffline()] does, [data]
    the caller's argument object and [preSets] is [None] for [undefined]
    or [null].  The result is the outcome of the promise and the heap
    when it is settled. *)
Definition call (fuel : nat) (h : heap) (net : Network) (method : string) (data : val)
    (preSets : option PreSets) : option (outcome val * heap) :=
  match convertValuesToString fuel h data with
  | None => None
  | Some (h, data) =>
      match preSets with
      | Some {| siteurl := Some preSets_siteurl; wstoken := Some preSets_wstoken;
                responseExpected := preSets_responseExpected |} =>
          match net with
          | Offline => Some (Rejected (ErrKey "mm.core.networkerrormsg"), h)
          | _ =>
              let h := set_prop h data "wsfunction" (VStr method) in
              let h := set_prop h data "wstoken" (VStr preSets_wstoken) in
              let siteurl :=
                preSets_siteurl ++ "/webservice/rest/server.php?moodlewsrestformat=json" in
              let ajaxData := VRef data in
              match http_post siteurl h ajaxData with
              | Some body =>
                  let '(h, response) := receive h body in
                  call_success fuel h preSets_responseExpected response
              | None => Some (Rejected (ErrKey "mm.core.cannotconnect"), h)
              end
          end
      | _ => Some (Rejected (ErrKey "mm.core.unexpectederror"), h)
      end
  end.

End WS.

(** ** The file system service ([www/core/lib/fs.js]) *)

Module JSSubstring.

(** [s.lastIndexOf(sub)] as an optional position, for the text from
    offset [i] on. *)
Fixpoint lastIndexOf_from (sub s : string) (i : nat) : option nat :=
  match s with
  | EmptyString => if starts_with sub EmptyString then Some i else None
  | String _ s' =>
      match lastIndexOf_from sub s' (S i) with
      | Some j => Some j
      | None => if starts_with sub s then Some i else None
      end
  end.

(** [s.lastIndexOf(sub)]: [-1] when there is no occurrence. *)
Definition lastIndexOf (s sub : string) : Z :=
  match lastIndexOf_from sub s 0 with
  | Some i => Z.of_nat i
  | None => (-1)%Z
  end.

(** [s.substring(a, b)]: negative bounds count as 0 and the bounds are
    swapped when [a > b]. *)
Definition substring (s : string) (a b : Z) : string :=
  let a := Z.to_nat (Z.max 0 a) in
  let b := Z.to_nat (Z.max 0 b) in
  take (Nat.max a b - Nat.min a b) (drop (Nat.min a b) s).

(** [s.substr(start)]: a negative start counts from the end. *)
Definition substr_from (s : string) (start : Z) : string :=
  if (start <? 0)%Z then drop (String.length s - Z.to_nat (- start)) s
  else drop (Z.to_nat start) s.

(** [s.substr(0, n)] for a length [n]. *)
Definition substr_to (s : string) (n : Z) : string := take (Z.to_nat n) s.

(** [s.slice(-1)]: the last character, or the empty string. *)
Fixpoint slice_last (s : string) : string :=
  match s with
  | EmptyString => EmptyString
  | String c EmptyString => s
  | String _ s' => slice_last s'
  end.

End JSSubstring.

Import JSSubstring.

Inductive Platform := Android | IOS | OtherPlatform.

(** The variables of the factory. *)
Record FS := { initialized : bool; basePath : string }.

(** A call of [$cordovaFile]. *)
Inductive FsOp :=
| CreateDir (base name : string) (replace : bool)
| CreateFile (base name : string) (replace : bool)
| RemoveFile (directory name : string).

Definition op_name (op : FsOp) : string :=
  match op with
  | CreateDir _ name _ | CreateFile _ name _ | RemoveFile _ name => name
  end.

(** The device: its platform, the two directories of [cordova.file], and
    how the promises of [$cordovaFile.createDir] and [createFile] end: with
    the new entry, named by its URL, or with an error. *)
Class Device := {
  platform : Platform;
  externalApplicationStorageDirectory : string;
  documentsDirectory : string;
  cordova_createDir : string -> string -> bool -> outcome string;
  cordova_createFile : string -> string -> bool -> outcome string
}.

(** An entry of the file system as [getSize] sees it: what [entry.file]
    yields for a file ([None] is the error callback; the size is a Number
    that is an integer, or [None] for any other value: [undefined], NaN or
    an infinity), what [readEntries] yields for a directory, and an entry
    that is neither. *)
Inductive Entry :=
| FileEntry (size : option (option Z))
| DirectoryEntry (entries : option (list Entry))
| OtherEntry.

(** [$q.all]: rejected when a promise is rejected, else pending when one is
    pending, else resolved with all the values. *)
Fixpoint q_all {A : Type} (promises : list (outcome A)) : outcome (list A) :=
  match promises with
  | [] => Resolved []
  | p :: promises =>
      match p, q_all promises with
      | Rejected e, _ => Rejected e
      | _, Rejected e => Rejected e
      | Pending, _ => Pending
      | _, Pending => Pending
      | Resolved a, Resolved l => Resolved (a :: l)
      end
  end.

Section FileSystem.

Context {D : Device}.

(** [self.init]. *)
Definition init (fs : FS) : outcome unit * FS :=
  if initialized fs then (Resolved tt, fs)
  else
    match platform with
    | Android =>
        (Resolved tt,
         {| initialized := true; basePath := externalApplicationStorageDirectory |})
    | IOS => (Resolved tt, {| initialized := true; basePath := documentsDirectory |})
    | OtherPlatform => (Rejected (ErrVal VUndefined), fs)
    end.

(** [self.getBasePath]. *)
Definition getBasePath (fs : FS) : outcome string * FS :=
  let '(r, fs) := init fs in
  match r with
  | Resolved _ =>
      (Resolved (if String.eqb (slice_last (basePath fs)) "/" then basePath fs
                 else basePath fs ++ "/"), fs)
  | Rejected e => (Rejected e, fs)
  | Pending => (Pending, fs)
  end.

(** [create]: the outcome (the URL of the entry created), the state and
    the calls of [$cordovaFile] made, in order.  [base] is [None] for
    [undefined]; the fuel bounds the recursion on the rest of the path. *)
Fixpoint create (fuel : nat) (fs : FS) (isDirectory : bool) (path : string)
    (failIfExists : bool) (base : option string) : option (outcome string * FS * list FsOp) :=
  match fuel with
  | O => None
  | S fuel =>
      let '(r, fs) := init fs in
      match r with
      | Resolved _ =>
          let base :=
            match base with
            | Some b => if truthy_string b then b else basePath fs
            | None => basePath fs
            end in
          if (indexOf path "/" =? -1)%Z then
            if isDirectory then
              Some (cordova_createDir base path (negb failIfExists), fs,
                    [CreateDir base path (negb failIfExists)])
            else
              Some (cordova_createFile base path (negb failIfExists), fs,
                    [CreateFile base path (negb failIfExists)])
          else
            let firstDir := substr_to path (indexOf path "/") in
            let restOfPath := substr_from path (indexOf path "/" + 1) in
            match cordova_createDir base firstDir true with
            | Resolved newDirEntry =>
                match create fuel fs isDirectory restOfPath failIfExists (Some newDirEntry) with
                | Some (r, fs, ops) => Some (r, fs, CreateDir base firstDir true :: ops)
                | None => None
                end
            | Rejected error => Some (Rejected error, fs, [CreateDir base firstDir true])
            | Pending => Some (Pending, fs, [CreateDir base firstDir true])
            end
      | Rejected e => Some (Rejected e, fs, [])
      | Pending => Some (Pending, fs, [])
      end
  end.

(** [self.createDir] and [self.createFile]; [failIfExists] is [false] when
    it is not given. *)
Definition createDir (fuel : nat) (fs : FS) (path : string) (failIfExists : bool) :=
  create fuel fs true path failIfExists None.

Definition createFile (fuel : nat) (fs : FS) (path : string) (failIfExists : bool) :=
  create fuel fs false path failIfExists None.

End FileSystem.

(** [self.removeExternalFile]: the call of [$cordovaFile.removeFile] it
    makes. *)
Definition removeExternalFile (fullPath : string) : FsOp :=
  let directory := substring fullPath 0 (lastIndexOf fullPath "/") in
  let filename := substr_from fullPath (lastIndexOf fullPath "/" + 1) in
  RemoveFile directory filename.

(** The loop of [getSize] over what the promises of the members of a
    directory resolved with: [parseInt] of each is added to
    [directorySize], in Number arithmetic ([None] is an infinity, which
    stays one); a value that [parseInt] turns into NaN rejects. *)
Fixpoint sum_sizes (sizes : list (option Z)) (directorySize : option Z)
  : outcome (option Z) :=
  match sizes with
  | [] => Resolved directorySize
  | size :: sizes =>
      match size ≫= JSNumber.parseInt with
      | Some fileSize =>
          sum_sizes sizes (directorySize ≫= fun d => JSNumber.add d fileSize)
      | None => Rejected (ErrVal VUndefined)
      end
  end.

(** [getSize]: what the promise resolves with is a Number that is an
    integer, or [None] for any other value (the size of a file that has
    none, or a sum that has grown into an infinity). *)
Fixpoint getSize (entry : Entry) : outcome (option Z) :=
  match entry with
  | DirectoryEntry (Some entries) =>
      match q_all (getSize <$> entries) with
      | Resolved sizes => sum_sizes sizes (Some 0%Z)
      | Rejected e => Rejected e
      | Pending => Pending
      end
  | DirectoryEntry None => Rejected (ErrVal VUndefined)
  | FileEntry (Some size) => Resolved size
  | FileEntry None => Rejected (ErrVal VUndefined)
  | OtherEntry => Pending
  end.

(** ** Notions used to state the properties *)

(** The stores of the database and the log of its writes are the same in
    both states. *)
Definition same_db (w w' : World) : Prop :=
  db_sites w' = db_sites w /\ db_current w' = db_current w /\ db_writes w' = db_writes w.

(** The site [$mmSite] holds after [setSite] of a stored record. *)
Definition site_of_record (r : SiteRecord) : Site :=
  {| site_id := Some (rec_id r); site_siteurl := rec_siteurl r;
     site_token := rec_token r; site_infos := Some (rec_infos r) |}.

(** Modelled from the spec: the scheme-toggled URL ("the matching
    signature and any scheme-swapped variant"), an https URL with http in
    its place, an http URL with https in its place. *)
Definition toggle_scheme (url : string) : string :=
  if starts_with "https://" url then "http://" ++ drop 8 url
  else if starts_with "http://" url then "https://" ++ drop 7 url
  else url.

(** No character of [s] is a colon. *)
Fixpoint colon_free (s : string) : bool :=
  match s with
  | EmptyString => true
  | String c s' => negb (Ascii.eqb c ":") && colon_free s'
  end.

(** A reference is fresh above [n] when it names a location from [n] on. *)
Definition fresh_val (n : nat) (v : val) : Prop :=
  match v with VRef l => (n <= l)%nat | _ => True end.

(** From location [n] on, the objects of [h] refer to locations from [n]
    on only. *)
Definition closed_above (n : nat) (h : heap) : Prop :=
  forall l o k v, (n <= l)%nat -> h !! l = Some o -> (k, v) ∈ props o -> fresh_val n v.

(** The locations of the objects and arrays a value is made of. *)
Inductive reach (h : heap) : val -> nat -> Prop :=
| reach_here l o : h !! l = Some o -> reach h (VRef l) l
| reach_member l o k v l' :
    h !! l = Some o -> (k, v) ∈ props o -> reach h v l' -> reach h (VRef l) l'.

(** An [item] of a loop that only allocates. *)
Definition allocating (item : heap -> val -> option (heap * val)) : Prop :=
  forall h v h' r, item h v = Some (h', r) -> h `prefix_of` h'.

(** An [item] of a loop whose results are made of fresh objects. *)
Definition copying (item : heap -> val -> option (heap * val)) : Prop :=
  forall h v h' r,
    item h v = Some (h', r) ->
    h `prefix_of` h' /\ closed_above (length h) h' /\ fresh_val (length h) r.

(** The value [v] nests objects and arrays at most [d] deep in [h], all of
    them allocated: what a decoded JSON text or an argument object built by
    a caller looks like. *)
Fixpoint bounded (h : heap) (d : nat) (v : val) : Prop :=
  match d with
  | O => isObject v = false
  | S d =>
      match v with
      | VRef l =>
          exists o, h !! l = Some o /\ Forall (fun kv => bounded h d kv.2) (props o)
      | _ => True
      end
  end.

(** The nesting depth of a JSON text. *)
Fixpoint json_depth (j : json) : nat :=
  match j with
  | JArr items => S (max_list (json_depth <$> items))
  | JObj fields => S (max_list ((fun kv => json_depth kv.2) <$> fields))
  | _ => O
  end.

(** The depth of the body of an answer; an absent body has none. *)
Definition body_depth (body : option json) : nat :=
  match body with Some j => json_depth j | None => O end.

(** Every row of the sites store is filed under its own id. *)
Definition well_keyed (w : World) : Prop :=
  forall id site, db_sites w !! id = Some site -> rec_id site = id.

(** The entry of [getSites] for a stored row. *)
Definition formatted (site : SiteRecord) : FormattedSite :=
  {| fs_id := rec_id site;
     fs_siteurl := rec_siteurl site;
     fs_fullname := fullname (rec_infos site);
     fs_sitename := sitename (rec_infos site);
     fs_avatar := userpictureurl (rec_infos site) |}.


(** A URL without its scheme, as [/^http(s)?\:\/\//i] matches it. *)
Definition without_scheme (url : string) : string :=
  match scheme_length url with
  | Some n => drop n url
  | None => url
  end.



(** What [convertValuesToString] makes of a member: an object or array
    stays one, anything else becomes its string. *)
Definition stringified (v r : val) : Prop :=
  if isObject v then isObject r = true else r = VStr (to_string v).

(** The body of the loop of [convertValuesToString]: what it stores for a
    member. *)
Definition convert_item (fuel : nat) (h : heap) (v : val) : option (heap * val) :=
  if isObject v then
    match convertValuesToString fuel h v with
    | Some (h, r) => Some (h, VRef r)
    | None => None
    end
  else Some (h, VStr (to_string v)).

(** [r], in the heap [h2], is what a traversal at every depth makes of
    [v], in the heap [h1], when it turns a value [v] that is not an object
    into [prim v]: an object or array becomes one of the same kind, with
    the same keys, whose members are made of the members of [v] in the
    same way.  The key [__proto__] is the exception: a traversal stores its
    members by assignment, and an assignment to [__proto__] stores none
    (see [set_prop]), so that [r] has no member of its own under it. *)
Inductive image (prim : val -> val) (h1 h2 : heap) : val -> val -> Prop :=
| image_primitive v : isObject v = false -> image prim h1 h2 v (prim v)
| image_object l1 l2 o1 o2 :
    h1 !! l1 = Some o1 -> h2 !! l2 = Some o2 ->
    is_array o2 = is_array o1 ->
    (forall k, k ∈ (props o2).*1 <-> k ∈ (props o1).*1 /\ k <> "__proto__") ->
    (forall k, k ∈ (props o1).*1 -> k <> "__proto__" ->
       image prim h1 h2 (assoc_get k (props o1)) (assoc_get k (props o2))) ->
    image prim h1 h2 (VRef l1) (VRef l2).

(** [r] is a deep copy of [v]: the same content at every depth (a member
    of its own under [__proto__] apart, which a copy does not have). *)
Definition deep_copy (h1 h2 : heap) (v r : val) : Prop := image (fun v => v) h1 h2 v r.

(** [r] is [v] with every value that is not an object or array turned
    into its string, at every depth (a member of its own under [__proto__]
    apart). *)
Definition converted (h1 h2 : heap) (v r : val) : Prop :=
  image (fun v => VStr (to_string v)) h1 h2 v r.

(** The objects from location [m] on are in [h'] what they are in [h]. *)
Definition agree_above (m : nat) (h h' : heap) : Prop :=
  forall l o, (m <= l)%nat -> h !! l = Some o -> h' !! l = Some o.

(** Every file below the entry reports a size that is a number, and every
    directory below it can be listed. *)
Fixpoint readable (entry : Entry) : bool :=
  match entry with
  | FileEntry (Some (Some _)) => true
  | DirectoryEntry (Some entries) => forallb readable entries
  | _ => false
  end.

(** The sizes of the files below the entry, added up. *)
Fixpoint files_total (entry : Entry) : Z :=
  match entry with
  | FileEntry (Some (Some size)) => size
  | DirectoryEntry (Some entries) => fold_right Z.add 0%Z (files_total <$> entries)
  | _ => 0%Z
  end.

(** No file below the entry has a negative size. *)
Fixpoint nonnegative (entry : Entry) : bool :=
  match entry with
  | FileEntry (Some (Some size)) => (0 <=? size)%Z
  | DirectoryEntry (Some entries) => forallb nonnegative entries
  | _ => true
  end.

(** [Number.MAX_SAFE_INTEGER], which is [2^53 - 1]: up to it every integer
    is a Number. *)
Definition max_safe_integer : Z := 9007199254740991.

(** The directory a call of [$cordovaFile] works in. *)
Definition op_base (op : FsOp) : string :=
  match op with
  | CreateDir base _ _ | CreateFile base _ _ | RemoveFile base _ => base
  end.

(** An induction principle for entries: the members of a directory satisfy
    the property. *)
Section EntryInd.

Variable P : Entry -> Prop.
Hypothesis Hfile : forall size, P (FileEntry size).
Hypothesis Hunlisted : P (DirectoryEntry None).
Hypothesis Hdir : forall entries, Forall P entries -> P (DirectoryEntry (Some entries)).
Hypothesis Hother : P OtherEntry.

Fixpoint Entry_members_ind (entry : Entry) : P entry :=
  match entry with
  | FileEntry size => Hfile size
  | DirectoryEntry None => Hunlisted
  | DirectoryEntry (Some entries) =>
      Hdir entries
        ((fix go (l : list Entry) : Forall P l :=
            match l with
            | [] => @List.Forall_nil _ P
            | e :: l => @List.Forall_cons _ P e l (Entry_members_ind e) (go l)
            end) entries)
  | OtherEntry => Hother
  end.

End EntryInd.

(** A stronger induction principle for decoded JSON texts: the members of
    an array or object satisfy the property. *)
Section JsonInd.

Variable P : json -> Prop.
Hypothesis Hnull : P JNull.
Hypothesis Hbool : forall b, P (JBool b).
Hypothesis Hnum : forall z, P (JNum z).
Hypothesis Hstr : forall s, P (JStr s).
Hypothesis Harr : forall items, Forall P items -> P (JArr items).
Hypothesis Hobj : forall fields, Forall (fun kv => P kv.2) fields -> P (JObj fields).

Fixpoint json_members_ind (j : json) : P j :=
  match j with
  | JNull => Hnull
  | JBool b => Hbool b
  | JNum z => Hnum z
  | JStr s => Hstr s
  | JArr items =>
      Harr items
        ((fix go (l : list json) : Forall P l :=
            match l with
            | [] => @List.Forall_nil _ P
            | j :: l => @List.Forall_cons _ P j l (json_members_ind j) (go l)
            end) items)
  | JObj fields =>
      Hobj fields
        ((fix go (l : list (string * json)) : Forall (fun kv => P kv.2) l :=
            match l with
            | [] => @List.Forall_nil _ _
            | kv :: l => @List.Forall_cons _ _ kv l (json_members_ind kv.2) (go l)
            end) fields)
  end.

End JsonInd.

(** ** Sample collaborators and states *)

Module Sample.

Definition hash (s : string) : string := "md5(" ++ s ++ ")".

Definition old_infos : SiteInfo :=
  {| functions := [ {| name := "core_webservice_get_site_info"; version := "2.4" |};
                    {| name := "core_enrol_get_users_courses"; version := "2.4" |} ];
     username := "student"; fullname := "Sam Student"; sitename := "Old site";
     userpictureurl := "https://old.example.org/pix/u/f1.png" |}.

Definition infos : SiteInfo :=
  {| functions := [ {| name := "core_webservice_get_site_info"; version := "2.9" |};
                    {| name := "core_get_component_strings"; version := "2.9" |} ];
     username := "student"; fullname := "Sam Student"; sitename := "School";
     userpictureurl := "https://moodle.example.org/pix/u/f1.png" |}.

Definition canonical : TokenResponse :=
  {| r_token := None; r_error := Some "Use the canonical address";
     r_errorcode := Some "requirecorrectaccess" |}.

(** A server that is reachable over http only, whose plugin check lacks
    the [code] field, that always asks for canonical access and that
    serves the old site at [old.example.org]. *)
#[local] Instance env : Env :=
  {| md5 := hash;
     fetchSiteInfo := fun siteurl _ =>
       if String.eqb siteurl "https://old.example.org" then Resolved old_infos
       else Resolved infos;
     isValidURL := fun _ => true;
     fixPluginfileURL := fun url token => url ++ "?token=" ++ token;
     http_head := fun url => starts_with "http://" url;
     post_check := fun _ _ => Some (CheckObj None false);
     post_token := fun _ _ _ _ => Some canonical;
     download := fun _ _ => Rejected (ErrVal VUndefined) |}.

(** The same server with the check endpoint out of reach. *)
#[local] Instance env_unreachable : Env :=
  {| md5 := hash;
     fetchSiteInfo := fun _ _ => Resolved infos;
     isValidURL := fun _ => true;
     fixPluginfileURL := fun url token => url ++ "?token=" ++ token;
     http_head := fun _ => false;
     post_check := fun _ _ => None;
     post_token := fun _ _ _ _ => None;
     download := fun _ _ => Rejected (ErrVal VUndefined) |}.

Definition world : World :=
  {| db_sites := ∅; db_current := ∅; db_writes := [];
     config := {[ "wsservice" := "moodle_mobile_app";
                  "wsextservice" := "local_mobile";
                  "mmLoginLaunchSiteURL" := "https://moodle.example.org";
                  "mmLoginLaunchPassport" := "417.3" ]};
     services := ∅; currentSite := None; files := ∅; network := Offline;
     globals := ∅; requests := [] |}.

Definition site : SiteRecord :=
  {| rec_id := "f00"; rec_siteurl := "https://moodle.example.org";
     rec_token := "t0k3n"; rec_infos := infos |}.

Definition world_site : World := set_db_sites (insert "f00" site) world.

(** A launch that is pending for a site reached through an http gateway
    whose path names the https address of the site. *)
Definition gateway : string := "http://gateway.example.org/https://moodle.example.org".

Definition world_gateway : World :=
  {| db_sites := ∅; db_current := ∅; db_writes := [];
     config := {[ "mmLoginLaunchSiteURL" := gateway; "mmLoginLaunchPassport" := "417.3" ]};
     services := ∅; currentSite := None; files := ∅; network := Online;
     globals := ∅; requests := [] |}.

(** A transport whose answers have an empty body. *)
#[local] Instance null_transport : Transport :=
  {| http_post := fun _ _ _ => Some (Some JNull) |}.

(** A transport that answers with a list of two users. *)
#[local] Instance users_transport : Transport :=
  {| http_post := fun _ _ _ =>
       Some (Some (JArr [ JObj [("id", JNum 7); ("roles", JArr [JStr "student"])];
                          JObj [("id", JNum 9); ("roles", JArr [])] ])) |}.

(** The caller's argument object [{courseid: 5, options: [{name: "limitfrom"}]}]. *)
Definition caller_heap : heap :=
  [ {| is_array := false; props := [("courseid", VNum 5); ("options", VRef 1)] |};
    {| is_array := true; props := [("0", VRef 2)] |};
    {| is_array := false; props := [("name", VStr "limitfrom")] |} ].

Definition presets : PreSets :=
  {| siteurl := Some "https://moodle.example.org"; wstoken := Some "t0k3n";
     responseExpected := false |}.

End Sample.

(** ** More sample collaborators *)

Module Demo.

(** A server that is reachable over https, where the plugin answers code 1
    without error, tokens are issued and downloads succeed. *)
#[local] Instance env : Env :=
  {| md5 := Sample.hash;
     fetchSiteInfo := fun _ _ => Resolved Sample.infos;
     isValidURL := fun url => negb (String.eqb url "https://not a url");
     fixPluginfileURL := fun url token => url ++ "?token=" ++ token;
     http_head := fun _ => true;
     post_check := fun _ _ => Some (CheckObj (Some (CodeStr "1")) false);
     post_token := fun _ _ _ _ =>
       Some {| r_token := Some "t0k3n"; r_error := None; r_errorcode := None |};
     download := fun url path => Resolved ("cdvfile://localhost/persistent/" ++ path) |}.

(** The sample state with the device online. *)
Definition online : World :=
  {| db_sites := db_sites Sample.world_site; db_current := ∅; db_writes := [];
     config := config Sample.world; services := ∅; currentSite := None; files := ∅;
     network := Online; globals := ∅; requests := [] |}.

(** A state without the setting of the default service. *)
Definition unconfigured : World :=
  {| db_sites := ∅; db_current := ∅; db_writes := []; config := ∅; services := ∅;
     currentSite := None; files := ∅; network := Online; globals := ∅; requests := [] |}.

(** A browser whose [atob] decodes two known texts. *)
#[local] Instance browser : Browser :=
  {| atob := fun s =>
       if String.eqb s "Z29vZA==" then
         Some (Sample.hash "https://moodle.example.org417.3" ++ ":::" ++ "t0k3n")
       else if String.eqb s "YmFk" then Some "0123456789abcdef:::t0k3n"
       else None |}.

(** A transport whose answers are errors of the server. *)
#[local] Instance failing_transport : Transport :=
  {| http_post := fun _ _ _ =>
       Some (Some (JObj [("exception", JStr "moodle_exception");
                         ("errorcode", JStr "invalidtoken");
                         ("message", JStr "Invalid token")])) |}.

(** An Android device where every directory and file can be created; the
    URL of a new directory ends with a slash. *)
#[local] Instance device : Device :=
  {| platform := Android;
     externalApplicationStorageDirectory :=
       "file:///storage/emulated/0/Android/data/com.moodle.moodlemobile";
     documentsDirectory := "file:///var/mobile/Documents/";
     cordova_createDir := fun base name _ =>
       Resolved ((if String.eqb (slice_last base) "/" then base else base ++ "/")
                 ++ name ++ "/");
     cordova_createFile := fun base name _ =>
       Resolved ((if String.eqb (slice_last base) "/" then base else base ++ "/") ++ name) |}.

(** The state of the file system service before its first use. *)
Definition fresh_fs : FS := {| initialized := false; basePath := "" |}.

(** A directory with two files and a directory that holds a file and an
    empty directory. *)
Definition tree : Entry :=
  DirectoryEntry (Some [FileEntry (Some (Some 120%Z));
                        DirectoryEntry (Some [FileEntry (Some (Some 30%Z));
                                              DirectoryEntry (Some [])]);
                        FileEntry (Some (Some 7%Z))]).

(** [$mmSite.deleteSite] that succeeds and leaves the state alone. *)
Definition cleanup (siteid : string) (w : World) : outcome unit * World := (Resolved tt, w).

End Demo.

(** * Properties *)

(** ** Strings *)

Lemma starts_with_app (p s : string) :
  starts_with p s = true <-> exists post, s = p ++ post.
Proof.
  revert s. induction p as [|c p IH]; intros s; simpl.
  - split; [intros _; exists s; reflexivity | intros _; reflexivity].
  - destruct s as [|d s].
    + split; [discriminate | intros [post H]; discriminate].
    + rewrite andb_true_iff, Ascii.eqb_eq, IH. split.
      * intros [-> [post ->]]. by exists post.
      * intros [post H]. inversion H. eauto.
Qed.

Lemma indexOf_from_Some (sub s : string) (i : nat) :
  is_Some (indexOf_from sub s i) <-> contains s sub.
Proof.
  revert i. induction s as [|c s IH]; intros i; simpl.
  - destruct (starts_with sub "") eqn:Hp.
    + split; [intros _ | eauto]. apply starts_with_app in Hp as [post H].
      exists "", post. exact H.
    + split; [intros [x Hx]; discriminate |].
      intros (pre & post & H). destruct pre; simpl in H.
      * assert (starts_with sub "" = true) by (apply starts_with_app; eauto). congruence.
      * discriminate.
  - destruct (starts_with sub (String c s)) eqn:Hp.
    + split; [intros _ | eauto]. apply starts_with_app in Hp as [post H].
      exists "", post. exact H.
    + rewrite IH. split.
      * intros (pre & post & H). exists (String c pre), post. simpl. by rewrite H.
      * intros (pre & post & H). destruct pre as [|d pre]; simpl in H.
        -- assert (starts_with sub (String c s) = true) by (apply starts_with_app; eauto).
           congruence.
        -- inversion H. by exists pre, post.
Qed.

(** [indexOf(sub) > -1] decides whether the string contains [sub]. *)
Lemma indexOf_contains (s sub : string) :
  (indexOf s sub >? -1)%Z = true <-> contains s sub.
Proof.
  rewrite <- (indexOf_from_Some sub s 0), Z.gtb_ltb, Z.ltb_lt. unfold indexOf.
  destruct (indexOf_from sub s 0) as [i|]; split; intros H.
  - eauto.
  - lia.
  - lia.
  - destruct H as [x Hx]. discriminate.
Qed.

Lemma indexOf_missing (s sub : string) :
  indexOf s sub = (-1)%Z <-> ~ contains s sub.
Proof.
  rewrite <- indexOf_contains, Z.gtb_ltb, Z.ltb_lt. unfold indexOf.
  destruct (indexOf_from sub s 0); split; intros H; lia.
Qed.

Lemma indexOf_from_ge (sub s : string) (i j : nat) :
  indexOf_from sub s i = Some j -> (i <= j)%nat.
Proof.
  revert i. induction s as [|c s IH]; intros i; simpl.
  - destruct (starts_with sub ""); [intros [= <-]; lia | discriminate].
  - destruct (starts_with sub (String c s)); [intros [= <-]; lia |].
    intros H. apply IH in H. lia.
Qed.

(** [indexOf(sub) === 0] decides whether the string starts with [sub]. *)
Lemma indexOf_zero (s sub : string) :
  (indexOf s sub =? 0)%Z = starts_with sub s.
Proof.
  unfold indexOf. destruct s as [|c s]; simpl.
  - destruct (starts_with sub ""); reflexivity.
  - destruct (starts_with sub (String c s)); [reflexivity |].
    destruct (indexOf_from sub s 1) as [j|] eqn:Hj; [|reflexivity].
    apply indexOf_from_ge in Hj. apply Z.eqb_neq. lia.
Qed.

(** ** The minimum-version gate of [newSite] *)

Section NewSite.

Context {E : Env}.

Lemma isValidMoodleVersion_spec (sitefunctions : list WSFunction) :
  isValidMoodleVersion sitefunctions = true <->
  exists f, f ∈ sitefunctions /\ contains (name f) "component_strings".
Proof.
  induction sitefunctions as [|f fs IH]; simpl.
  - split; [discriminate | intros (f & Hf & _); inversion Hf].
  - destruct (indexOf (name f) "component_strings" >? -1)%Z eqn:Hi.
    + split; [intros _ | reflexivity].
      exists f. split; [left | by apply indexOf_contains].
    + rewrite IH. split.
      * intros (g & Hg & Hc). exists g. split; [by right | done].
      * intros (g & Hg & Hc). inversion Hg; subst.
        -- apply indexOf_contains in Hc. congruence.
        -- by exists g.
Qed.

Lemma isValidMoodleVersion_false (sitefunctions : list WSFunction) :
  isValidMoodleVersion sitefunctions = false <->
  forall f, f ∈ sitefunctions -> ~ contains (name f) "component_strings".
Proof.
  rewrite <- not_true_iff_false, isValidMoodleVersion_spec. split.
  - intros H f Hf Hc. apply H. eauto.
  - intros H (f & Hf & Hc). exact (H f Hf Hc).
Qed.

(** C1. When the site information that [newSite] fetches lists no
    function whose name contains "component_strings", or cannot be fetched
    at all, [newSite] writes nothing to the sites store nor to the
    current-site store; in the first case it rejects with the
    invalid-Moodle-version message, in the second with the error of the
    fetch. *)
Theorem newSite_writes_only_after_validation (w : World) (siteurl token : string) :
  (forall infos, fetchSiteInfo siteurl token = Resolved infos ->
     forall f, f ∈ functions infos -> ~ contains (name f) "component_strings") ->
  same_db w (newSite w siteurl token).2 /\
  (newSite w siteurl token).1 =
    match fetchSiteInfo siteurl token with
    | Resolved _ => Rejected (ErrKey "mm.login.invalidmoodleversion")
    | Rejected error => Rejected error
    | Pending => Pending
    end.
Proof.
  intros Hgate. unfold newSite.
  destruct (fetchSiteInfo siteurl token) as [infos|e|] eqn:Hfetch.
  - assert (isValidMoodleVersion (functions infos) = false) as ->
      by (apply isValidMoodleVersion_false; eauto).
    split; [by repeat split | done].
  - split; [by repeat split | done].
  - split; [by repeat split | done].
Qed.

End NewSite.

(** The gate at a site that lacks the function: nothing is stored. *)
Lemma newSite_writes_only_after_validation_witness :
  (forall infos,
     @fetchSiteInfo Sample.env "https://old.example.org" "t0k3n" = Resolved infos ->
     forall f, f ∈ functions infos -> ~ contains (name f) "component_strings") /\
  same_db Sample.world
    (@newSite Sample.env Sample.world "https://old.example.org" "t0k3n").2 /\
  (@newSite Sample.env Sample.world "https://old.example.org" "t0k3n").1 =
    Rejected (ErrKey "mm.login.invalidmoodleversion").
Proof.
  assert (forall infos,
     @fetchSiteInfo Sample.env "https://old.example.org" "t0k3n" = Resolved infos ->
     forall f, f ∈ functions infos -> ~ contains (name f) "component_strings") as H.
  { intros infos [= <-] f Hf. apply indexOf_missing.
    simpl in Hf. apply list_elem_of_In in Hf. simpl in Hf.
    destruct Hf as [<-|[<-|[]]]; reflexivity. }
  split; [exact H |].
  exact (@newSite_writes_only_after_validation Sample.env Sample.world
           "https://old.example.org" "t0k3n" H).
Defined.

(** ** Registering and reloading a site *)

Section Registration.

Context {E : Env}.

(** C6. For a site whose information is fetched and passes the gate,
    [newSite] stores the record under the id [md5(siteurl + username)] and
    makes it the current site; [loadSite] of that id, in any later state
    [w2] that still holds the record, resolves and makes [$mmSite] hold
    the same id, url, token and site information; registering the account
    again (whatever the token and the rest of the information) writes
    under the same id. *)
Theorem newSite_loadSite_roundtrip (w w2 : World) (siteurl token token' : string)
    (infos infos' : SiteInfo) :
  fetchSiteInfo siteurl token = Resolved infos ->
  isValidMoodleVersion (functions infos) = true ->
  db_sites w2 !! md5 (siteurl ++ username infos) =
    db_sites (newSite w siteurl token).2 !! md5 (siteurl ++ username infos) ->
  fetchSiteInfo siteurl token' = Resolved infos' ->
  isValidMoodleVersion (functions infos') = true ->
  username infos' = username infos ->
  let siteid := md5 (siteurl ++ username infos) in
  let record :=
    {| rec_id := siteid; rec_siteurl := siteurl; rec_token := token;
       rec_infos := infos |} in
  (newSite w siteurl token).1 = Resolved tt /\
  db_sites (newSite w siteurl token).2 !! siteid = Some record /\
  db_current (newSite w siteurl token).2 !! 1%Z = Some siteid /\
  (loadSite w2 siteid).1 = Resolved tt /\
  currentSite (loadSite w2 siteid).2 = Some (site_of_record record) /\
  db_current (loadSite w2 siteid).2 !! 1%Z = Some siteid /\
  db_sites (loadSite w2 siteid).2 = db_sites w2 /\
  dom (db_sites (newSite (newSite w siteurl token).2 siteurl token').2) =
    dom (db_sites (newSite w siteurl token).2) /\
  rec_id <$> db_sites (newSite (newSite w siteurl token).2 siteurl token').2 !! siteid =
    Some siteid.
Proof.
  intros Hfetch Hvalid Hkept Hfetch' Hvalid' Huser siteid record.
  assert (newSite w siteurl token =
          (Resolved tt,
           login siteid (setSite siteid siteurl token infos
             (addSite siteid siteurl token infos
                (setCandidateSite siteurl token w))))) as Hnew.
  { unfold newSite. by rewrite Hfetch, Hvalid. }
  assert (db_sites (newSite w siteurl token).2 !! siteid = Some record) as Hrec.
  { rewrite Hnew. simpl. apply lookup_insert_eq. }
  split; [by rewrite Hnew |]. split; [exact Hrec |].
  split; [rewrite Hnew; simpl; apply lookup_insert_eq |].
  assert (db_sites w2 !! siteid = Some record) as Hw2
    by (unfold siteid; rewrite Hkept; exact Hrec).
  unfold loadSite, db_get_site. rewrite Hw2. simpl.
  split; [done |]. split; [done |]. split; [apply lookup_insert_eq |].
  split; [done |].
  set (w1 := (newSite w siteurl token).2) in *.
  unfold newSite. rewrite Hfetch', Hvalid', Huser. simpl.
  fold siteid. split.
  - rewrite dom_insert_L. apply elem_of_dom_2 in Hrec.
    apply subseteq_union_1_L. by apply singleton_subseteq_l.
  - by rewrite lookup_insert_eq.
Qed.

(** C10. [getSiteURL] always resolves: with the current site's URL when
    no id is given, with the URL of the stored record when the id is
    stored, and with [undefined] when it is not. *)
Theorem getSiteURL_never_rejects (w : World) (siteid : option string) :
  getSiteURL w siteid =
    Resolved match siteid with
             | None => site_siteurl <$> currentSite w
             | Some id => rec_siteurl <$> db_sites w !! id
             end
  /\ (forall e, getSiteURL w siteid <> Rejected e)
  /\ getSiteURL w siteid <> Pending.
Proof.
  assert (getSiteURL w siteid =
          Resolved match siteid with
                   | None => site_siteurl <$> currentSite w
                   | Some id => rec_siteurl <$> db_sites w !! id
                   end) as ->.
  { destruct siteid as [id|]; [|reflexivity].
    unfold getSiteURL, db_get_site. by destruct (db_sites w !! id). }
  by repeat split.
Qed.

End Registration.

(** Registering [student] at the sample site and loading the site again
    after the session is gone. *)
Lemma newSite_loadSite_roundtrip_witness :
  let w1 := (@newSite Sample.env Sample.world "https://moodle.example.org" "t0k3n").2 in
  let siteid := Sample.hash "https://moodle.example.orgstudent" in
  (@fetchSiteInfo Sample.env "https://moodle.example.org" "t0k3n" = Resolved Sample.infos /\
   isValidMoodleVersion (functions Sample.infos) = true) /\
  (loadSite (set_currentSite None w1) siteid).1 = Resolved tt /\
  currentSite (loadSite (set_currentSite None w1) siteid).2 =
    Some {| site_id := Some siteid; site_siteurl := "https://moodle.example.org";
            site_token := "t0k3n"; site_infos := Some Sample.infos |}.
Proof.
  intros w1 siteid. split; [split; reflexivity |].
  pose proof (@newSite_loadSite_roundtrip Sample.env Sample.world
                (set_currentSite None w1) "https://moodle.example.org" "t0k3n" "n3wt0k"
                Sample.infos Sample.infos eq_refl eq_refl eq_refl eq_refl eq_refl eq_refl)
    as (_ & _ & _ & Hload & Hsite & _).
  split; [exact Hload | exact Hsite].
Defined.

(** ** The SSO callback validator *)

Lemma append_assoc (a b c : string) : (a ++ b) ++ c = a ++ b ++ c.
Proof. induction a as [|x a IH]; simpl; [reflexivity | by rewrite IH]. Qed.

Lemma append_empty_r (a : string) : a ++ "" = a.
Proof. induction a as [|x a IH]; simpl; [reflexivity | by rewrite IH]. Qed.

Lemma split_go_colon_free (s rest cur : string) :
  colon_free s = true ->
  split_go ":::" (s ++ rest) 0 cur = split_go ":::" rest 0 (cur ++ s).
Proof.
  revert cur. induction s as [|c s IH]; intros cur Hs.
  - change ("" ++ rest) with rest. by rewrite append_empty_r.
  - change (String c s ++ rest) with (String c (s ++ rest)).
    cbn [colon_free] in Hs. apply andb_true_iff in Hs as [Hc Hs].
    apply negb_true_iff in Hc. cbn [split_go].
    assert (starts_with ":::" (String c (s ++ rest)) = false) as ->
      by (cbn [starts_with]; by rewrite Ascii.eqb_sym, Hc).
    rewrite IH by done. rewrite append_assoc. reflexivity.
Qed.

(** A payload made of two fields without colons splits into them. *)
Lemma split_signature_token (signature token : string) :
  colon_free signature = true -> colon_free token = true ->
  split ":::" (signature ++ ":::" ++ token) = [signature; token].
Proof.
  intros Hs Ht. unfold split. rewrite split_go_colon_free by done. simpl.
  rewrite <- (append_empty_r token) at 1.
  rewrite split_go_colon_free by done. reflexivity.
Qed.

(** The swap of [validateBrowserSSOLogin] on an https URL. *)
Lemma swap_scheme_https (rest : string) :
  swap_scheme ("https://" ++ rest) = "http://" ++ rest.
Proof. reflexivity. Qed.

Lemma replace_no_match (pat rep s : string) :
  ~ contains s pat -> replace pat rep s = s.
Proof.
  induction s as [|c s IH]; intros Hn; simpl.
  - destruct (starts_with pat "") eqn:Hp; [|reflexivity].
    exfalso. apply Hn. apply starts_with_app in Hp as [post ->]. by exists "", post.
  - destruct (starts_with pat (String c s)) eqn:Hp.
    + exfalso. apply Hn. apply starts_with_app in Hp as [post ->]. by exists "", post.
    + rewrite IH; [reflexivity |]. intros (pre & post & ->).
      apply Hn. by exists (String c pre), post.
Qed.

(** The swap on an http URL in which no "https://" occurs. *)
Lemma swap_scheme_http (rest : string) :
  ~ contains rest "https://" ->
  swap_scheme ("http://" ++ rest) = "https://" ++ rest.
Proof.
  intros Hn. unfold swap_scheme.
  assert (indexOf ("http://" ++ rest) "https://" = (-1)%Z) as ->; [|reflexivity].
  apply indexOf_missing. intros (pre & post & H).
  do 7 (destruct pre as [|? pre]; [discriminate H | injection H as <- H]).
  apply Hn. by exists pre, post.
Qed.

Section SSO.

Context {E : Env}.

(** With an origin URL and a passport stored, and a payload that splits
    at ":::" into a signature and a token, the validator resolves exactly
    when the signature is [md5(url + passport)], then with the stored URL,
    or else [md5(swapped url + passport)], then with the swapped URL, where
    the swap is the one the code makes ([swap_scheme]); the token is
    returned as received; every other signature is rejected; and in every
    case both stored fields are gone afterwards. *)
Theorem validateBrowserSSOLogin_accepts_iff (w : World)
    (payload launchSiteURL passport signature token : string) :
  config w !! "mmLoginLaunchSiteURL" = Some launchSiteURL ->
  config w !! "mmLoginLaunchPassport" = Some passport ->
  split ":::" payload = [signature; token] ->
  (validateBrowserSSOLogin w payload).1 =
    (if decide (signature = md5 (launchSiteURL ++ passport)) then
       Resolved {| sso_siteurl := launchSiteURL; sso_token := Some token |}
     else if decide (signature = md5 (swap_scheme launchSiteURL ++ passport)) then
       Resolved {| sso_siteurl := swap_scheme launchSiteURL; sso_token := Some token |}
     else Rejected (ErrKey "mm.core.unexpectederror")) /\
  ((exists sitedata, (validateBrowserSSOLogin w payload).1 = Resolved sitedata) <->
   signature = md5 (launchSiteURL ++ passport) \/
   signature = md5 (swap_scheme launchSiteURL ++ passport)) /\
  config (validateBrowserSSOLogin w payload).2 !! "mmLoginLaunchSiteURL" = None /\
  config (validateBrowserSSOLogin w payload).2 !! "mmLoginLaunchPassport" = None.
Proof.
  intros Hurl Hpass Hsplit.
  assert ((validateBrowserSSOLogin w payload).1 =
    (if decide (signature = md5 (launchSiteURL ++ passport)) then
       Resolved {| sso_siteurl := launchSiteURL; sso_token := Some token |}
     else if decide (signature = md5 (swap_scheme launchSiteURL ++ passport)) then
       Resolved {| sso_siteurl := swap_scheme launchSiteURL; sso_token := Some token |}
     else Rejected (ErrKey "mm.core.unexpectederror"))) as Hres.
  { unfold validateBrowserSSOLogin, config_get. rewrite Hurl, Hpass, Hsplit. simpl.
    destruct (decide (signature = md5 (launchSiteURL ++ passport))) as [->|Hne].
    - rewrite bool_decide_eq_false_2 by (intros H; by apply H).
      by rewrite bool_decide_eq_true_2.
    - rewrite bool_decide_eq_true_2 by congruence.
      destruct (decide (signature = md5 (swap_scheme launchSiteURL ++ passport)))
        as [->|Hne'].
      + by rewrite bool_decide_eq_true_2.
      + by rewrite bool_decide_eq_false_2 by congruence. }
  split; [exact Hres |]. split.
  - rewrite Hres.
    destruct (decide (signature = md5 (launchSiteURL ++ passport))) as [?|Hn1];
      [split; eauto |].
    destruct (decide (signature = md5 (swap_scheme launchSiteURL ++ passport)))
      as [?|Hn2]; [split; eauto |].
    split; [intros [d Hd]; discriminate | intros [?|?]; contradiction].
  - unfold validateBrowserSSOLogin, config_get. rewrite Hurl, Hpass.
    destruct (bool_decide _); simpl; destruct (bool_decide _); simpl;
      unfold config_delete; simpl; split;
      by (rewrite ?lookup_delete_eq; try rewrite lookup_delete_ne by done;
          rewrite ?lookup_delete_eq).
Qed.

End SSO.

(** The swap the code makes is the toggle of the scheme when the first
    "https://" of the URL, if there is one, is its scheme. *)
Lemma swap_scheme_toggles (url : string) :
  starts_with "https://" url = true \/
  (starts_with "http://" url = true /\ ~ contains (drop 7 url) "https://") ->
  swap_scheme url = toggle_scheme url.
Proof.
  intros [H|[H Hrest]].
  - apply starts_with_app in H as [rest ->]. reflexivity.
  - apply starts_with_app in H as [rest ->].
    change (drop 7 ("http://" ++ rest)) with rest in Hrest.
    rewrite (swap_scheme_http rest Hrest). unfold toggle_scheme.
    destruct (starts_with "https://" ("http://" ++ rest)) eqn:Hs; [|reflexivity].
    cbn in Hs. discriminate.
Qed.

(** For a stored URL whose first "https://", if there is one, is its
    scheme, the validator accepts exactly the signature of the stored URL
    and the one of the scheme-toggled URL, and resolves with the URL whose
    signature it received. *)
Lemma validateBrowserSSOLogin_accepts_scheme_variants {E : Env} (w : World)
    (payload launchSiteURL passport signature token : string) :
  config w !! "mmLoginLaunchSiteURL" = Some launchSiteURL ->
  config w !! "mmLoginLaunchPassport" = Some passport ->
  split ":::" payload = [signature; token] ->
  starts_with "https://" launchSiteURL = true \/
  (starts_with "http://" launchSiteURL = true /\
   ~ contains (drop 7 launchSiteURL) "https://") ->
  (validateBrowserSSOLogin w payload).1 =
    (if decide (signature = md5 (launchSiteURL ++ passport)) then
       Resolved {| sso_siteurl := launchSiteURL; sso_token := Some token |}
     else if decide (signature = md5 (toggle_scheme launchSiteURL ++ passport)) then
       Resolved {| sso_siteurl := toggle_scheme launchSiteURL; sso_token := Some token |}
     else Rejected (ErrKey "mm.core.unexpectederror")).
Proof.
  intros Hurl Hpass Hsplit Hscheme. rewrite <- (swap_scheme_toggles _ Hscheme).
  unfold validateBrowserSSOLogin, config_get. rewrite Hurl, Hpass, Hsplit. simpl.
  destruct (decide (signature = md5 (launchSiteURL ++ passport))) as [->|Hne].
  - rewrite bool_decide_eq_false_2 by (intros H; by apply H).
    by rewrite bool_decide_eq_true_2.
  - rewrite bool_decide_eq_true_2 by congruence.
    destruct (decide (signature = md5 (swap_scheme launchSiteURL ++ passport)))
      as [->|Hne'].
    + by rewrite bool_decide_eq_true_2.
    + by rewrite bool_decide_eq_false_2 by congruence.
Qed.

(** C2 on the code.  The stored URL is an http address that holds
    "https://" further on.  The scheme-toggled URL is the https address,
    but the code replaces the first "https://" it finds, the one inside
    the URL: a callback signed for the https address of the site is
    rejected, and one signed for an address that is no scheme variant of
    the stored URL is accepted and returned as the URL of the site. *)
Theorem validateBrowserSSOLogin_swaps_an_inner_scheme :
  let toggled := "https://gateway.example.org/https://moodle.example.org" in
  let swapped := "http://gateway.example.org/http://moodle.example.org" in
  toggle_scheme Sample.gateway = toggled /\
  (@validateBrowserSSOLogin Sample.env Sample.world_gateway
     (Sample.hash (toggled ++ "417.3") ++ ":::" ++ "t0k3n")).1 =
    Rejected (ErrKey "mm.core.unexpectederror") /\
  (@validateBrowserSSOLogin Sample.env Sample.world_gateway
     (Sample.hash (swapped ++ "417.3") ++ ":::" ++ "t0k3n")).1 =
    Resolved {| sso_siteurl := swapped; sso_token := Some "t0k3n" |}.
Proof. vm_compute. by repeat split. Qed.

(** A callback signed for the http address of a site launched over https. *)
Lemma validateBrowserSSOLogin_accepts_iff_witness :
  let payload := Sample.hash "http://moodle.example.org417.3" ++ ":::" ++ "t0k3n" in
  (config Sample.world !! "mmLoginLaunchSiteURL" = Some "https://moodle.example.org" /\
   config Sample.world !! "mmLoginLaunchPassport" = Some "417.3" /\
   split ":::" payload = [Sample.hash "http://moodle.example.org417.3"; "t0k3n"]) /\
  (@validateBrowserSSOLogin Sample.env Sample.world payload).1 =
    Resolved {| sso_siteurl := "http://moodle.example.org"; sso_token := Some "t0k3n" |} /\
  config (@validateBrowserSSOLogin Sample.env Sample.world payload).2
    !! "mmLoginLaunchSiteURL" = None /\
  config (@validateBrowserSSOLogin Sample.env Sample.world payload).2
    !! "mmLoginLaunchPassport" = None.
Proof.
  intros payload.
  assert (config Sample.world !! "mmLoginLaunchSiteURL" = Some "https://moodle.example.org")
    as H1 by (vm_compute; reflexivity).
  assert (config Sample.world !! "mmLoginLaunchPassport" = Some "417.3")
    as H2 by (vm_compute; reflexivity).
  assert (split ":::" payload = [Sample.hash "http://moodle.example.org417.3"; "t0k3n"])
    as H3 by (vm_compute; reflexivity).
  split; [by repeat split |].
  destruct (@validateBrowserSSOLogin_accepts_iff Sample.env Sample.world payload
              _ _ _ _ H1 H2 H3) as (Hres & _ & Hurl & Hpass).
  split; [exact Hres | split; [exact Hurl | exact Hpass]].
Defined.

(** ** Checking a site: scheme fallback and the plugin probe *)

Lemma scheme_length_https (u : string) : scheme_length ("https://" ++ u) = Some 8%nat.
Proof. reflexivity. Qed.

Lemma scheme_length_http (u : string) : scheme_length ("http://" ++ u) = Some 7%nat.
Proof. reflexivity. Qed.

Section CheckSite.

Context {E : Env}.

Lemma replaceScheme_https (protocol u : string) :
  replaceScheme protocol ("https://" ++ u) = protocol ++ u.
Proof. reflexivity. Qed.

Lemma formatURL_https (u : string) : formatURL ("https://" ++ u) = "https://" ++ u.
Proof. reflexivity. Qed.

Lemma formatURL_no_scheme (u : string) :
  scheme_length u = None -> formatURL u = "https://" ++ u.
Proof. unfold formatURL. by intros ->. Qed.

(** C4. A URL without a scheme is probed over https first; when that HEAD
    request fails the http address is probed, once; when that fails too
    the promise is rejected with the cannot-connect message.  The request
    log holds those probes and no other: whatever the fuel, there is no
    third one. *)
Theorem checkSite_falls_back_once (fuel : nat) (w : World) (u : string) :
  scheme_length u = None ->
  (indexOf ("https://" ++ u) "://localhost" =? -1)%Z
    && negb (isValidURL ("https://" ++ u)) = false ->
  (2 <= fuel)%nat ->
  let https := "https://" ++ u in
  let http := "http://" ++ u in
  checkSite fuel w u None =
    if http_head (https ++ "/login/token.php") then
      Some (checkSite_found (log_request (Head (https ++ "/login/token.php")) w) https)
    else if http_head (http ++ "/login/token.php") then
      Some (checkSite_found
              (log_request (Head (http ++ "/login/token.php"))
                 (log_request (Head (https ++ "/login/token.php")) w)) http)
    else
      Some (Rejected (ErrKey "mm.core.cannotconnect"),
            log_request (Head (http ++ "/login/token.php"))
              (log_request (Head (https ++ "/login/token.php")) w)).
Proof.
  intros Hscheme Hvalid Hfuel https http.
  destruct fuel as [|[|fuel]]; [lia | lia |].
  cbn [checkSite]. rewrite (formatURL_no_scheme u Hscheme), Hvalid.
  rewrite !replaceScheme_https. fold https.
  unfold siteExists. cbv beta iota zeta.
  destruct (http_head (https ++ "/login/token.php")) eqn:Hhttps; [reflexivity |].
  rewrite indexOf_zero.
  change (starts_with "https://" https) with true. cbv iota.
  change (formatURL https) with https. fold https in Hvalid. rewrite Hvalid.
  change (replaceScheme (if truthy_string "http://" then "http://" else "https://") https)
    with http.
  destruct (http_head (http ++ "/login/token.php")) eqn:Hhttp; [reflexivity |].
  rewrite indexOf_zero. reflexivity.
Qed.

Lemma replaceScheme_http_not_https (s : string) :
  starts_with "https://" (replaceScheme "http://" s) = false.
Proof.
  unfold replaceScheme. destruct (scheme_length s) as [n|] eqn:Hs; [reflexivity |].
  destruct (starts_with "https://" s) eqn:Hp; [|reflexivity].
  apply starts_with_app in Hp as [post ->]. discriminate Hs.
Qed.

(** Whatever the URL and the protocol, two units of fuel are enough: the
    call made with "http://" never calls again. *)
Lemma checkSite_settles (fuel : nat) (w : World) (u : string) (protocol : option string) :
  exists r w', checkSite (S (S fuel)) w u protocol = Some (r, w').
Proof.
  remember (S fuel) as n eqn:Hn. cbn [checkSite].
  destruct (_ && _); [by eexists _, _ |].
  unfold siteExists. cbv beta iota zeta.
  destruct (http_head _);
    [destruct (checkSite_found _ _) as [r w']; by eexists _, _ |].
  destruct (indexOf _ "https://" =? 0)%Z; [|by eexists _, _].
  subst n. cbn [checkSite].
  destruct (_ && _); [by eexists _, _ |].
  unfold siteExists. cbv beta iota zeta.
  destruct (http_head _);
    [destruct (checkSite_found _ _) as [r w']; by eexists _, _ |].
  rewrite indexOf_zero.
  change (if truthy_string "http://" then "http://" else "https://") with "http://".
  rewrite replaceScheme_http_not_https. by eexists _, _.
Qed.

(** C5 as amended.  When the probe cannot be sent or its request fails
    (the extended service name is not configured, or the POST to
    [check.php] fails), [checkMobileLocalPlugin] resolves with code 0; a
    response that was received and has no [code] field (an object that
    lacks it, or a body that is a text) is rejected with the
    unexpected-error message. *)
Theorem checkMobileLocalPlugin_degrades_on_transport_failure (w : World)
    (siteurl : string) :
  ((config w !! "wsextservice" = None \/
    exists service, config w !! "wsextservice" = Some service /\
      post_check (siteurl ++ "/local/mobile/check.php") service = None) ->
   (checkMobileLocalPlugin w siteurl).1 = Resolved (Some 0%Z)) /\
  (forall service,
     config w !! "wsextservice" = Some service ->
     (exists error, post_check (siteurl ++ "/local/mobile/check.php") service =
        Some (CheckObj None error)) \/
     (exists text, post_check (siteurl ++ "/local/mobile/check.php") service =
        Some (CheckText text)) ->
     (checkMobileLocalPlugin w siteurl).1 = Rejected (ErrKey "mm.core.unexpectederror")).
Proof.
  unfold checkMobileLocalPlugin, config_get. split.
  - intros [->|(service & -> & ->)]; reflexivity.
  - intros service -> [[error ->]|[text ->]]; reflexivity.
Qed.

End CheckSite.

(** The site that answers over http only. *)
Lemma checkSite_falls_back_once_witness :
  (scheme_length "moodle.example.org" = None /\
   (indexOf ("https://" ++ "moodle.example.org") "://localhost" =? -1)%Z
     && negb (@isValidURL Sample.env ("https://" ++ "moodle.example.org")) = false /\
   (2 <= 2)%nat) /\
  requests (default (Pending, Sample.world)
              (@checkSite Sample.env 2 Sample.world "moodle.example.org" None)).2 =
    [ Head "https://moodle.example.org/login/token.php";
      Head "http://moodle.example.org/login/token.php";
      PostCheck "http://moodle.example.org/local/mobile/check.php" "local_mobile" ].
Proof.
  split; [by repeat split |].
  rewrite (@checkSite_falls_back_once Sample.env 2 Sample.world "moodle.example.org"
             eq_refl eq_refl (le_n 2)).
  vm_compute. reflexivity.
Defined.

(** C5 as stated fails: a response without the [code] field rejects. *)
Lemma checkMobileLocalPlugin_missing_code_rejects :
  @post_check Sample.env "https://moodle.example.org/local/mobile/check.php" "local_mobile" =
    Some (CheckObj None false) /\
  (@checkMobileLocalPlugin Sample.env Sample.world "https://moodle.example.org").1 =
    Rejected (ErrKey "mm.core.unexpectederror") /\
  (@checkMobileLocalPlugin Sample.env Sample.world "https://moodle.example.org").1 <>
    Resolved (Some 0%Z).
Proof. vm_compute. repeat split. discriminate. Qed.

Lemma checkMobileLocalPlugin_degrades_on_transport_failure_witness :
  (@checkMobileLocalPlugin Sample.env_unreachable Sample.world
     "https://moodle.example.org").1 = Resolved (Some 0%Z) /\
  (@checkMobileLocalPlugin Sample.env Sample.world "https://moodle.example.org").1 =
    Rejected (ErrKey "mm.core.unexpectederror").
Proof.
  split.
  - apply (@checkMobileLocalPlugin_degrades_on_transport_failure Sample.env_unreachable
             Sample.world "https://moodle.example.org").
    right. exists "local_mobile". split; vm_compute; reflexivity.
  - apply (proj2 (@checkMobileLocalPlugin_degrades_on_transport_failure Sample.env
             Sample.world "https://moodle.example.org") "local_mobile").
    + vm_compute; reflexivity.
    + left. exists false. vm_compute; reflexivity.
Defined.

(** ** The token request and its retry *)

Section GetUserToken.

Context {E : Env}.

(** Without a global [logindata] the request is never sent a second
    time: a run adds at most one request to the log. *)
Lemma getUserToken_without_global (fuel : nat) (w w' : World)
    (siteurl username password : string) (retry : bool) (r : outcome string) :
  "logindata" ∉ globals w ->
  getUserToken fuel w siteurl username password retry = Some (r, w') ->
  requests w' = requests w \/
  exists service,
    requests w' =
      (requests w ++
         [PostToken (siteurl ++ "/login/token.php") username password service])%list.
Proof.
  intros Hglobal. destruct fuel as [|fuel]; [discriminate |]. cbn [getUserToken].
  destruct (determineService w siteurl) as [service|e|];
    [| intros [= <- <-]; by left | intros [= <- <-]; by left].
  destruct (post_token _ _ _ _) as [response|];
    [| intros [= <- <-]; right; by exists service].
  destruct (r_token response); [intros [= <- <-]; right; by exists service |].
  destruct (r_error response); [| intros [= <- <-]; right; by exists service].
  destruct (negb retry && _); [| intros [= <- <-]; right; by exists service].
  rewrite bool_decide_eq_false_2 by done.
  intros [= <- <-]. right. by exists service.
Qed.

(** The retry is bounded by its flag: a call that is itself the retry
    sends one request at most and needs no more fuel. *)
Lemma getUserToken_retry_is_terminal (fuel : nat) (w : World)
    (siteurl username password : string) :
  exists r w',
    getUserToken (S fuel) w siteurl username password true = Some (r, w') /\
    (length (requests w') <= S (length (requests w)))%nat.
Proof.
  cbn [getUserToken].
  destruct (determineService w siteurl) as [service|e|];
    [| eexists _, _; split; [reflexivity | lia] ..].
  destruct (post_token _ _ _ _) as [response|];
    [| eexists _, _; split; [reflexivity | simpl; rewrite length_app; simpl; lia]].
  destruct (r_token response);
    [eexists _, _; split; [reflexivity | simpl; rewrite length_app; simpl; lia] |].
  destruct (r_error response);
    eexists _, _; (split; [reflexivity | simpl; rewrite length_app; simpl; lia]).
Qed.

(** With two units of fuel every call settles its result, with at most
    two requests: the depth of the retry is at most one. *)
Lemma getUserToken_depth (fuel : nat) (w : World)
    (siteurl username password : string) (retry : bool) :
  exists r w',
    getUserToken (S (S fuel)) w siteurl username password retry = Some (r, w') /\
    (length (requests w') <= 2 + length (requests w))%nat.
Proof.
  remember (S fuel) as n eqn:Hn. cbn [getUserToken].
  destruct (determineService w siteurl) as [service|e|];
    [| eexists _, _; split; [reflexivity | lia] ..].
  destruct (post_token _ _ _ _) as [response|];
    [| eexists _, _; split; [reflexivity | simpl; rewrite length_app; simpl; lia]].
  destruct (r_token response);
    [eexists _, _; split; [reflexivity | simpl; rewrite length_app; simpl; lia] |].
  destruct (r_error response);
    [| eexists _, _; split; [reflexivity | simpl; rewrite length_app; simpl; lia]].
  destruct (negb retry && _);
    [| eexists _, _; split; [reflexivity | simpl; rewrite length_app; simpl; lia]].
  destruct (bool_decide _);
    [| eexists _, _; split; [reflexivity | simpl; rewrite length_app; simpl; lia]].
  subst n.
  match goal with
  | |- context [getUserToken (S fuel) ?w1 ?u _ _ true] =>
      destruct (getUserToken_retry_is_terminal fuel w1 u username password)
        as (r & w' & Hr & Hlen)
  end.
  exists r, w'. split; [exact Hr |].
  simpl in Hlen. rewrite length_app in Hlen. simpl in Hlen. lia.
Qed.

(** Were a global [logindata] defined, a first answer that asks for
    canonical access would be followed by exactly one request to the
    www host, whose answer settles the call. *)
Lemma getUserToken_retry_with_global (fuel : nat) (w : World)
    (siteurl username password : string) (service : Service) (response : TokenResponse) :
  "logindata" ∈ globals w ->
  determineService w siteurl = Resolved service ->
  post_token (siteurl ++ "/login/token.php") username password service = Some response ->
  r_token response = None -> r_error response <> None ->
  r_errorcode response = Some "requirecorrectaccess" ->
  getUserToken (S (S fuel)) w siteurl username password false =
    getUserToken (S fuel)
      (log_request (PostToken (siteurl ++ "/login/token.php") username password service) w)
      (replace "http://" "http://www." (replace "https://" "https://www." siteurl))
      username password true.
Proof.
  intros Hglobal Hservice Hpost Htoken Herror Hcode.
  remember (S fuel) as n eqn:Hn.
  cbn [getUserToken]. rewrite Hservice, Hpost, Htoken.
  destruct (r_error response); [| done].
  rewrite Hcode. rewrite bool_decide_eq_true_2 by done. cbn [negb andb].
  by rewrite bool_decide_eq_true_2.
Qed.

End GetUserToken.

(** C3 on the code.  The site asks for canonical access; no global
    [logindata] exists.  The first request is the only one: no request goes
    to the www host, and the promise is left pending. *)
Theorem getUserToken_canonical_retry_not_sent :
  @getUserToken Sample.env 3 Sample.world "https://moodle.example.org" "student" "secret"
    false =
  Some (Pending,
        log_request
          (PostToken "https://moodle.example.org/login/token.php" "student" "secret"
             (ServiceName "moodle_mobile_app")) Sample.world).
Proof. vm_compute. reflexivity. Qed.

(** ** The cached or remote reference of a file *)

Section MoodleFile.

Context {E : Env}.

(** C8. For a non-empty file URL, a truthy course id and the id of a
    stored site, with the device offline and the file not in the cache,
    [getMoodleFilePath] resolves with the remote URL and changes nothing;
    a second call from the state the first one left resolves with the
    same URL, and the request log is the one before the first call: no
    download is attempted. *)
Theorem getMoodleFilePath_offline_remote (w : World) (fileurl siteId : string)
    (courseId : jsarg) (site : SiteRecord) :
  fileurl <> "" -> truthy_arg courseId = true -> siteId <> "" ->
  db_sites w !! siteId = Some site ->
  network w = Offline ->
  files w !! path_file siteId courseId fileurl = None ->
  let first := getMoodleFilePath w (Some fileurl) courseId (Some siteId) in
  let second := getMoodleFilePath first.2 (Some fileurl) courseId (Some siteId) in
  first.1 = Resolved (fixPluginfileURL fileurl (rec_token site)) /\
  second.1 = Resolved (fixPluginfileURL fileurl (rec_token site)) /\
  requests second.2 = requests w /\
  second.2 = w.
Proof.
  intros Hfile Hcourse Hsite Hstored Hoffline Hcache.
  assert (getMoodleFilePath w (Some fileurl) courseId (Some siteId) =
          (Resolved (fixPluginfileURL fileurl (rec_token site)), w)) as Hcall.
  { unfold getMoodleFilePath, db_get_site.
    destruct fileurl as [|c0 f0]; [done |]. destruct siteId as [|s0 s1]; [done |].
    by rewrite Hcourse, Hstored, Hcache, Hoffline. }
  cbv zeta. rewrite Hcall. cbn [fst snd]. rewrite Hcall. by repeat split.
Qed.

End MoodleFile.

(** A picture of the stored sample site, asked for twice while offline. *)
Lemma getMoodleFilePath_offline_remote_witness :
  let fileurl := "https://moodle.example.org/pluginfile.php/5/user/icon/f1.png" in
  ("f00" <> "" /\ db_sites Sample.world_site !! "f00" = Some Sample.site /\
   network Sample.world_site = Offline /\
   files Sample.world_site !! @path_file Sample.env "f00" (JNumber 5) fileurl = None) /\
  (@getMoodleFilePath Sample.env Sample.world_site (Some fileurl) (JNumber 5) (Some "f00")).1 =
    Resolved (fileurl ++ "?token=t0k3n") /\
  (@getMoodleFilePath Sample.env
     (@getMoodleFilePath Sample.env Sample.world_site (Some fileurl) (JNumber 5)
        (Some "f00")).2
     (Some fileurl) (JNumber 5) (Some "f00")).1 = Resolved (fileurl ++ "?token=t0k3n").
Proof.
  intros fileurl.
  assert ("f00" <> "") as H1 by discriminate.
  assert (fileurl <> "") as H0 by discriminate.
  assert (db_sites Sample.world_site !! "f00" = Some Sample.site) as H2
    by (vm_compute; reflexivity).
  assert (files Sample.world_site !! @path_file Sample.env "f00" (JNumber 5) fileurl = None)
    as H3 by (vm_compute; reflexivity).
  split; [by repeat split |].
  destruct (@getMoodleFilePath_offline_remote Sample.env Sample.world_site fileurl "f00"
              (JNumber 5) Sample.site H0 eq_refl H1 H2 eq_refl H3) as (Hf & Hs & _).
  split; [exact Hf | exact Hs].
Defined.

(** ** The heap: what a call leaves alone and what it allocates *)

(** Case analysis on the tests of the success callback. *)
Ltac callback_cases :=
  repeat match goal with
         | |- context [if ?b then _ else _] => destruct b
         | |- context [match eq_string ?f ?h ?v ?s with _ => _ end] =>
             destruct (eq_string f h v s) as [[[|]|]|]
         | |- context [match string_of ?f ?h ?v with _ => _ end] =>
             destruct (string_of f h v) as [[?|]|]
         end.

Section HeapLemmas.

Lemma fresh_val_mono (n m : nat) (v : val) :
  (n <= m)%nat -> fresh_val m v -> fresh_val n v.
Proof. destruct v; simpl; lia. Qed.

Lemma reach_allocated (h : heap) (v : val) (l : nat) :
  reach h v l -> (l < length h)%nat.
Proof. induction 1 as [l o Hl|]; [by eapply lookup_lt_Some | done]. Qed.

Lemma reach_fresh (n : nat) (h : heap) (v : val) (l : nat) :
  closed_above n h -> fresh_val n v -> reach h v l -> (n <= l)%nat.
Proof.
  intros Hclosed Hv Hreach. induction Hreach as [l o Hl|l o k v l' Hl Hk _ IH].
  - exact Hv.
  - apply IH. exact (Hclosed l o k v Hv Hl Hk).
Qed.

Lemma assoc_set_elem (k k' : string) (v v' : val) (ps : list (string * val)) :
  (k', v') ∈ assoc_set k v ps -> (k', v') ∈ ps \/ v' = v.
Proof.
  induction ps as [|[k0 v0] ps IH]; simpl.
  - intros H. apply list_elem_of_singleton in H. injection H as _ ->. by right.
  - destruct (String.eqb k k0).
    + intros H. apply elem_of_cons in H as [H|H].
      * injection H as _ ->. by right.
      * left. by right.
    + intros H. apply elem_of_cons in H as [H|H].
      * left. rewrite H. by left.
      * destruct (IH H) as [?|?]; [left; by right | by right].
Qed.

Lemma assoc_get_set (k : string) (v : val) (ps : list (string * val)) :
  assoc_get k (assoc_set k v ps) = v.
Proof.
  induction ps as [|[k0 v0] ps IH]; simpl.
  - by rewrite String.eqb_refl.
  - destruct (String.eqb k k0) eqn:Hk; simpl; by rewrite Hk.
Qed.

Lemma assoc_get_set_ne (k k' : string) (v : val) (ps : list (string * val)) :
  k <> k' -> assoc_get k' (assoc_set k v ps) = assoc_get k' ps.
Proof.
  intros Hne. induction ps as [|[k0 v0] ps IH]; simpl.
  - apply String.eqb_neq in Hne. rewrite String.eqb_sym in Hne. by rewrite Hne.
  - destruct (String.eqb k k0) eqn:Hk; simpl.
    + apply String.eqb_eq in Hk as <-. apply String.eqb_neq in Hne.
      rewrite String.eqb_sym in Hne. by rewrite Hne.
    + destruct (String.eqb k' k0); [reflexivity | exact IH].
Qed.

Lemma set_prop_length (h : heap) (l : nat) (k : string) (v : val) :
  length (set_prop h l k v) = length h.
Proof. unfold set_prop. destruct (String.eqb k "__proto__"); [done | apply length_alter]. Qed.

Lemma set_prop_lookup_ne (h : heap) (l l' : nat) (k : string) (v : val) :
  l <> l' -> set_prop h l k v !! l' = h !! l'.
Proof.
  intros Hne. unfold set_prop. destruct (String.eqb k "__proto__"); [done |].
  by apply list_lookup_alter_ne.
Qed.

Lemma set_prop_lookup (h : heap) (l : nat) (k : string) (v : val) :
  k <> "__proto__" ->
  set_prop h l k v !! l =
    (fun o => {| is_array := is_array o; props := assoc_set k v (props o) |}) <$> h !! l.
Proof.
  intros Hk. unfold set_prop. apply String.eqb_neq in Hk as ->.
  apply list_lookup_alter_eq.
Qed.

Lemma set_prop_frame (h0 h : heap) (l : nat) (k : string) (v : val) :
  h0 `prefix_of` h -> (length h0 <= l)%nat -> h0 `prefix_of` set_prop h l k v.
Proof.
  intros Hpre Hl. unfold set_prop. destruct (String.eqb k "__proto__"); [done |].
  destruct Hpre as [ext ->]. rewrite alter_app_r_alt by done. by eexists.
Qed.

Lemma set_prop_closed (n : nat) (h : heap) (l : nat) (k : string) (v : val) :
  closed_above n h -> fresh_val n v -> closed_above n (set_prop h l k v).
Proof.
  intros Hclosed Hv l0 o k0 v0 Hl0 Hlook Hin. unfold set_prop in Hlook.
  destruct (String.eqb k "__proto__"); [exact (Hclosed l0 o k0 v0 Hl0 Hlook Hin) |].
  destruct (decide (l = l0)) as [->|Hne].
  - rewrite list_lookup_alter_eq in Hlook.
    destruct (h !! l0) as [o0|] eqn:Ho; [|discriminate].
    injection Hlook as <-. simpl in Hin.
    apply assoc_set_elem in Hin as [Hin| ->]; [|exact Hv].
    exact (Hclosed l0 o0 k0 v0 Hl0 Ho Hin).
  - rewrite list_lookup_alter_ne in Hlook by done.
    exact (Hclosed l0 o k0 v0 Hl0 Hlook Hin).
Qed.

Lemma closed_above_extend (n : nat) (h h' : heap) :
  (n <= length h)%nat -> h `prefix_of` h' ->
  closed_above n h -> closed_above (length h) h' -> closed_above n h'.
Proof.
  intros Hn Hpre Hh Hh' l o k v Hl Hlook Hin.
  destruct (decide (l < length h)%nat) as [Hlt|Hge].
  - destruct (lookup_lt_is_Some_2 h l Hlt) as [o0 Ho0].
    rewrite (prefix_lookup_Some _ _ _ _ Ho0 Hpre) in Hlook. injection Hlook as <-.
    exact (Hh l o0 k v Hl Ho0 Hin).
  - apply (fresh_val_mono n (length h)); [done |].
    apply (Hh' l o k v); [lia | done | done].
Qed.

Lemma for_in_frame (item : heap -> val -> option (heap * val)) (data : val)
    (result : nat) (h0 : heap) :
  allocating item -> (length h0 <= result)%nat ->
  forall ks h h',
    h0 `prefix_of` h -> for_in item data result ks h = Some h' ->
    h0 `prefix_of` h' /\ (length h <= length h')%nat.
Proof.
  intros Hitem Hresult. induction ks as [|el ks IH]; intros h h' Hpre; simpl.
  - by intros [= <-].
  - destruct (item h (get_prop h data el)) as [[h1 r]|] eqn:Hi; [|discriminate].
    intros Hfor. pose proof (Hitem _ _ _ _ Hi) as Hext.
    apply IH in Hfor as [Hpre' Hlen].
    + split; [exact Hpre' |]. rewrite set_prop_length in Hlen.
      apply prefix_length in Hext. lia.
    + apply set_prop_frame; [by etrans | done].
Qed.

Lemma for_in_closed (item : heap -> val -> option (heap * val)) (data : val)
    (result n : nat) :
  copying item ->
  forall ks h h',
    (n <= length h)%nat -> closed_above n h ->
    for_in item data result ks h = Some h' -> closed_above n h'.
Proof.
  intros Hitem. induction ks as [|el ks IH]; intros h h' Hn Hclosed; simpl.
  - by intros [= <-].
  - destruct (item h (get_prop h data el)) as [[h1 r]|] eqn:Hi; [|discriminate].
    destruct (Hitem _ _ _ _ Hi) as (Hpre & Hnew & Hr).
    apply IH.
    + rewrite set_prop_length. apply prefix_length in Hpre. lia.
    + apply set_prop_closed.
      * by apply (closed_above_extend n h h1).
      * by apply (fresh_val_mono n (length h)).
Qed.

Lemma closed_above_alloc_empty (h : heap) (a : bool) :
  closed_above (length h) (h ++ [{| is_array := a; props := [] |}])%list.
Proof.
  intros l o k v Hl Hlook Hin.
  rewrite lookup_app_r in Hlook by done.
  destruct (l - length h)%nat; [|by destruct n].
  injection Hlook as <-. inversion Hin.
Qed.

End HeapLemmas.

Section Frame.

Context {T : Transport}.

Lemma decode_items_frame (dec : heap -> json -> heap * val) (items : list json) :
  Forall (fun j => forall h h' v, dec h j = (h', v) -> h `prefix_of` h') items ->
  forall i h acc h' ps,
    decode_items dec i items h acc = (h', ps) -> h `prefix_of` h'.
Proof.
  induction 1 as [|j items Hj _ IH]; intros i h acc h' ps; simpl.
  - by intros [= <- _].
  - destruct (dec h j) as [h1 v] eqn:Hd. intros Hgo.
    etrans; [exact (Hj _ _ _ Hd) | exact (IH _ _ _ _ _ Hgo)].
Qed.

Lemma decode_fields_frame (dec : heap -> json -> heap * val)
    (fields : list (string * json)) :
  Forall (fun kv => forall h h' v, dec h kv.2 = (h', v) -> h `prefix_of` h') fields ->
  forall h acc h' ps,
    decode_fields dec fields h acc = (h', ps) -> h `prefix_of` h'.
Proof.
  induction 1 as [|[k j] fields Hj _ IH]; intros h acc h' ps; simpl.
  - by intros [= <- _].
  - destruct (dec h j) as [h1 v] eqn:Hd. intros Hgo.
    etrans; [exact (Hj _ _ _ Hd) | exact (IH _ _ _ _ Hgo)].
Qed.

(** Decoding only allocates. *)
Lemma decode_frame (j : json) :
  forall h h' v, decode h j = (h', v) -> h `prefix_of` h'.
Proof.
  induction j as [| | | |items IH|fields IH] using json_members_ind; intros h h' v;
    cbn [decode]; try by intros [= <- _].
  - destruct (decode_items decode 0 items h []) as [h1 ps] eqn:Hgo.
    intros [= <- _]. apply prefix_app_r. exact (decode_items_frame _ _ IH _ _ _ _ _ Hgo).
  - destruct (decode_fields decode fields h []) as [h1 ps] eqn:Hgo.
    intros [= <- _]. apply prefix_app_r. exact (decode_fields_frame _ _ IH _ _ _ _ Hgo).
Qed.

Lemma receive_frame (h h' : heap) (body : option json) (response : val) :
  receive h body = (h', response) -> h `prefix_of` h'.
Proof.
  unfold receive. destruct body as [j|].
  - destruct (decode h j) as [h1 v] eqn:Hd. intros [= <- _].
    apply prefix_app_r. exact (decode_frame _ _ _ _ Hd).
  - intros [= <- _]. by apply prefix_app_r.
Qed.

(** [convertValuesToString] only allocates, and its result is a fresh
    object. *)
Lemma convertValuesToString_frame (fuel : nat) :
  forall h data h' result,
    convertValuesToString fuel h data = Some (h', result) ->
    h `prefix_of` h' /\ result = length h /\ (result < length h')%nat.
Proof.
  induction fuel as [|fuel IH]; intros h data h' result; [discriminate |].
  cbn [convertValuesToString]. unfold alloc.
  match goal with
  | |- context [for_in ?item data (length h) ?ks ?h1] =>
      destruct (for_in item data (length h) ks h1) as [h2|] eqn:Hfor; [|discriminate];
      assert (allocating item) as Hitem
  end.
  { intros h3 v h4 r. destruct (isObject v); [|by intros [= <- _]].
    destruct (convertValuesToString fuel h3 v) as [[h5 r5]|] eqn:Hrec; [|discriminate].
    intros [= <- _]. by apply IH in Hrec as [? _]. }
  intros [= <- <-].
  eapply (for_in_frame _ _ _ h) in Hfor as [Hpre Hlen];
    [| exact Hitem | done | by apply prefix_app_r].
  split; [exact Hpre | split; [reflexivity |]].
  rewrite length_app in Hlen. simpl in Hlen. lia.
Qed.

(** The copy is made of fresh objects only. *)
Lemma angular_copy_fresh (fuel : nat) : copying (angular_copy fuel).
Proof.
  induction fuel as [|fuel IH]; intros h source h' r; [discriminate |].
  cbn [angular_copy]. destruct (isObject source) eqn:Hobj.
  - unfold alloc.
    destruct (for_in _ _ _ _ _) as [h2|] eqn:Hfor; [|discriminate].
    intros [= <- <-]. split; [|split; [|simpl; lia]].
    + eapply (for_in_frame _ _ _ h) in Hfor as [Hpre _];
        [done | | done | by apply prefix_app_r].
      intros h3 v h4 r4 Hi. by apply IH in Hi as [? _].
    + eapply for_in_closed; [exact IH | | | exact Hfor].
      * rewrite length_app. simpl. lia.
      * apply closed_above_alloc_empty.
  - intros [= <- <-]. split; [done |]. split.
    + intros l o k v Hl Hlook. apply lookup_lt_Some in Hlook. lia.
    + destruct source; try done.
Qed.

(** The success callback only allocates. *)
Lemma call_success_frame (fuel : nat) (h h' : heap) (responseExpected : bool)
    (response : val) (r : outcome val) :
  call_success fuel h responseExpected response = Some (r, h') -> h `prefix_of` h'.
Proof.
  unfold call_success, alloc.
  destruct (negb (truthy response) && _ && _).
  - callback_cases; try discriminate; try (intros [= <- <-]; by apply prefix_app_r).
    destruct (angular_copy _ _ _) as [[h2 c]|] eqn:Hc; [|discriminate].
    intros [= <- <-]. apply angular_copy_fresh in Hc as [Hpre _].
    by eapply prefix_app_l.
  - callback_cases; try discriminate; try (by intros [= <- <-]).
    destruct (angular_copy _ _ _) as [[h2 c]|] eqn:Hc; [|discriminate].
    intros [= <- <-]. by apply angular_copy_fresh in Hc as [Hpre _].
Qed.

(** The payload a call resolves with is made of objects allocated by the
    copy. *)
Lemma call_success_fresh (fuel : nat) (h h' : heap) (responseExpected : bool)
    (response copy : val) (l : nat) :
  call_success fuel h responseExpected response = Some (Resolved copy, h') ->
  reach h' copy l -> (length h <= l)%nat.
Proof.
  unfold call_success, alloc.
  destruct (negb (truthy response) && _ && _).
  - callback_cases; try discriminate.
    destruct (angular_copy _ _ _) as [[h2 c]|] eqn:Hc; [|discriminate].
    intros [= <- <-] Hreach. apply angular_copy_fresh in Hc as (_ & Hclosed & Hfresh).
    pose proof (reach_fresh _ _ _ _ Hclosed Hfresh Hreach) as Hl.
    rewrite length_app in Hl. simpl in Hl. lia.
  - callback_cases; try discriminate.
    destruct (angular_copy _ _ _) as [[h2 c]|] eqn:Hc; [|discriminate].
    intros [= <- <-] Hreach. apply angular_copy_fresh in Hc as (_ & Hclosed & Hfresh).
    exact (reach_fresh _ _ _ _ Hclosed Hfresh Hreach).
Qed.

(** An empty body is rejected whatever [responseExpected] says: the
    response object itself is never falsy, so the first test fails. *)
Lemma call_success_empty_body (fuel : nat) (h : heap) (responseExpected : bool)
    (response : nat) :
  truthy (get_prop h (VRef response) "data") = false ->
  call_success fuel h responseExpected (VRef response) =
    Some (Rejected (ErrKey "mm.core.cannotconnect"), h).
Proof.
  intros Hempty. unfold call_success.
  change (truthy (VRef response)) with true. cbn [negb andb]. by rewrite Hempty.
Qed.

(** [call] only allocates: the heap it leaves starts with the heap it was
    given. *)
Lemma call_frame (fuel : nat) (h h' : heap) (net : Network) (method : string)
    (data : val) (preSets : option PreSets) (r : outcome val) :
  call fuel h net method data preSets = Some (r, h') -> h `prefix_of` h'.
Proof.
  unfold call.
  destruct (convertValuesToString fuel h data) as [[h1 l]|] eqn:Hconv; [|discriminate].
  apply convertValuesToString_frame in Hconv as (Hpre & -> & _).
  destruct preSets as [[[u|] [t|] re]|]; try by intros [= <- <-].
  assert (h `prefix_of`
            set_prop (set_prop h1 (length h) "wsfunction" (VStr method)) (length h)
              "wstoken" (VStr t)) as Hset
    by (apply set_prop_frame; [by apply set_prop_frame | done]).
  destruct net; try by intros [= <- <-].
  all: destruct (http_post _ _ _) as [body|]; [|by intros [= <- <-]].
  all: destruct (receive _ body) as [h2 response] eqn:Hrecv; intros Hcall.
  all: apply receive_frame in Hrecv; apply call_success_frame in Hcall.
  all: etrans; [exact Hset | etrans; [exact Hrecv | exact Hcall]].
Qed.

End Frame.

Section Call.

Context {T : Transport}.

Lemma get_prop_set_prop (h : heap) (l : nat) (k : string) (v : val) :
  k <> "__proto__" -> (l < length h)%nat -> get_prop (set_prop h l k v) (VRef l) k = v.
Proof.
  intros Hk Hl. unfold get_prop. rewrite set_prop_lookup by done.
  destruct (lookup_lt_is_Some_2 h l Hl) as [o ->]. simpl. apply assoc_get_set.
Qed.

Lemma get_prop_set_prop_ne (h : heap) (l : nat) (k k' : string) (v : val) :
  k <> k' -> get_prop (set_prop h l k v) (VRef l) k' = get_prop h (VRef l) k'.
Proof.
  intros Hne. unfold get_prop, set_prop.
  destruct (String.eqb k "__proto__"); [reflexivity |]. rewrite list_lookup_alter_eq.
  destruct (h !! l) as [o|]; simpl; [by apply assoc_get_set_ne | reflexivity].
Qed.

End Call.

(** C7 on the code.  The server answers [null] to a call whose settings
    say that no response is expected ([responseExpected] is [false]): the
    call is rejected with the cannot-connect message instead of resolving
    with an empty object. *)
Theorem call_empty_response_is_rejected :
  responseExpected Sample.presets = false /\
  fst <$> @call Sample.null_transport 4 Sample.caller_heap Online "core_course_view_course"
            (VRef 0) (Some Sample.presets) =
    Some (Rejected (ErrKey "mm.core.cannotconnect")).
Proof. split; vm_compute; reflexivity. Qed.

(** ** Enough fuel settles a call *)

Section Settling.

Context {T : Transport}.

Lemma bounded_primitive (h : heap) (d : nat) (v : val) :
  isObject v = false -> bounded h d v.
Proof. destruct d, v; simpl; done. Qed.

Lemma bounded_prefix (h h' : heap) (d : nat) :
  h `prefix_of` h' -> forall v, bounded h d v -> bounded h' d v.
Proof.
  intros Hpre. induction d as [|d IH]; intros v; simpl; [done |].
  destruct v as [| | | | |l]; try done.
  intros (o & Ho & Hmembers). exists o. split.
  - by eapply prefix_lookup_Some.
  - eapply Forall_impl; [exact Hmembers |]. intros kv. apply IH.
Qed.

Lemma bounded_deeper (h : heap) (d : nat) :
  forall n v, (d <= n)%nat -> bounded h d v -> bounded h n v.
Proof.
  induction d as [|d IH]; intros n v Hn; simpl.
  - apply bounded_primitive.
  - destruct n as [|n]; [lia |]. simpl. destruct v as [| | | | |l]; try done.
    intros (o & Ho & Hmembers). exists o. split; [done |].
    eapply Forall_impl; [exact Hmembers |]. intros kv. apply IH. lia.
Qed.

Lemma assoc_get_bounded (h : heap) (d : nat) (k : string) (ps : list (string * val)) :
  Forall (fun kv => bounded h d kv.2) ps -> bounded h d (assoc_get k ps).
Proof.
  induction 1 as [|[k0 v0] ps Hv _ IH]; simpl.
  - by apply bounded_primitive.
  - destruct (String.eqb k k0); [exact Hv | exact IH].
Qed.

Lemma assoc_set_bounded (h : heap) (d : nat) (k : string) (v : val)
    (ps : list (string * val)) :
  Forall (fun kv => bounded h d kv.2) ps -> bounded h d v ->
  Forall (fun kv => bounded h d kv.2) (assoc_set k v ps).
Proof.
  intros Hps Hv. induction Hps as [|[k0 v0] ps Hv0 Hps IH]; simpl.
  - constructor; [exact Hv | constructor].
  - destruct (String.eqb k k0); constructor; assumption.
Qed.

Lemma get_prop_bounded (h0 h : heap) (d : nat) (data : val) (k : string) :
  bounded h0 (S d) data -> h0 `prefix_of` h -> bounded h d (get_prop h data k).
Proof.
  intros Hdata Hpre. destruct data as [| | | |s|l]; try by apply bounded_primitive.
  - apply bounded_primitive. unfold get_prop, char_at.
    repeat match goal with
           | |- context [if ?b then _ else _] => destruct b
           | |- context [match ?x with Some _ => _ | None => _ end] => destruct x
           end; reflexivity.
  - destruct Hdata as (o & Ho & Hmembers). unfold get_prop.
    rewrite (prefix_lookup_Some _ _ _ _ Ho Hpre).
    apply (bounded_prefix h0 h d Hpre). by apply assoc_get_bounded.
Qed.

Lemma for_in_total (item : heap -> val -> option (heap * val)) (data : val)
    (result d : nat) (h0 : heap) :
  (forall h v, bounded h d v -> exists h' r, item h v = Some (h', r)) ->
  allocating item -> bounded h0 (S d) data -> (length h0 <= result)%nat ->
  forall ks h, h0 `prefix_of` h -> exists h', for_in item data result ks h = Some h'.
Proof.
  intros Htotal Halloc Hdata Hresult. induction ks as [|el ks IH]; intros h Hpre; simpl.
  - by exists h.
  - destruct (Htotal h (get_prop h data el)) as (h1 & r & Hi);
      [by eapply get_prop_bounded |].
    rewrite Hi. apply IH. apply set_prop_frame; [|done].
    etrans; [exact Hpre | exact (Halloc _ _ _ _ Hi)].
Qed.

(** With more fuel than the value is deep, the copy is made. *)
Lemma angular_copy_total (fuel : nat) :
  forall d h v, (d < fuel)%nat -> bounded h d v ->
    exists h' r, angular_copy fuel h v = Some (h', r).
Proof.
  induction fuel as [|fuel IH]; intros d h v Hd Hv; [lia |].
  cbn [angular_copy]. destruct (isObject v) eqn:Hobj; [|by eexists _, _].
  destruct d as [|d]; [simpl in Hv; congruence |]. unfold alloc.
  destruct (for_in_total (angular_copy fuel) v (length h) d h) with
    (ks := keys (h ++ [{| is_array := isArray h v; props := [] |}])%list v)
    (h := (h ++ [{| is_array := isArray h v; props := [] |}])%list) as [h2 Hfor].
  - intros h1 v1 Hv1. apply (IH d); [lia | done].
  - intros h1 v1 h2 r Hi. by apply angular_copy_fresh in Hi as [? _].
  - exact Hv.
  - done.
  - by apply prefix_app_r.
  - rewrite Hfor. by eexists _, _.
Qed.

(** With more fuel than the argument object is deep, it is converted. *)
Lemma convertValuesToString_total (fuel : nat) :
  forall d h data, (d < fuel)%nat -> bounded h d data ->
    exists h' result, convertValuesToString fuel h data = Some (h', result).
Proof.
  induction fuel as [|fuel IH]; intros d h data Hd Hdata; [lia |].
  cbn [convertValuesToString]. unfold alloc.
  match goal with
  | |- context [for_in ?item data (length h) ?ks ?h1] =>
      assert (exists h2, for_in item data (length h) ks h1 = Some h2) as [h2 ->];
      [| by eexists _, _]
  end.
  destruct d as [|d].
  - (* a primitive: no member is an object *)
    apply (for_in_total _ data (length h) 0 h); [| | | done | by apply prefix_app_r].
    + intros h1 v Hv. simpl in Hv. rewrite Hv. by eexists _, _.
    + intros h1 v h3 r. destruct (isObject v); [|by intros [= <- _]].
      destruct (convertValuesToString fuel h1 v) as [[h5 r5]|] eqn:Hrec; [|discriminate].
      intros [= <- _]. by apply convertValuesToString_frame in Hrec as [? _].
    + apply (bounded_deeper h 0); [lia | done].
  - apply (for_in_total _ data (length h) d h); [| | done | done | by apply prefix_app_r].
    + intros h1 v Hv. destruct (isObject v); [|by eexists _, _].
      destruct (IH d h1 v) as (h3 & r & ->); [lia | done |]. by eexists _, _.
    + intros h1 v h3 r. destruct (isObject v); [|by intros [= <- _]].
      destruct (convertValuesToString fuel h1 v) as [[h5 r5]|] eqn:Hrec; [|discriminate].
      intros [= <- _]. by apply convertValuesToString_frame in Hrec as [? _].
Qed.

Lemma decode_items_bounded (n : nat) (items : list json) :
  Forall (fun j => (json_depth j <= n)%nat /\
                   forall h h' v, decode h j = (h', v) -> bounded h' (json_depth j) v)
    items ->
  forall i h acc h' ps,
    Forall (fun kv => bounded h n kv.2) acc ->
    decode_items decode i items h acc = (h', ps) ->
    Forall (fun kv => bounded h' n kv.2) ps.
Proof.
  induction 1 as [|j items [Hn Hj] _ IH]; intros i h acc h' ps Hacc; simpl.
  - by intros [= <- <-].
  - destruct (decode h j) as [h1 v] eqn:Hd. apply IH.
    apply Forall_app. split.
    + eapply Forall_impl; [exact Hacc |]. intros kv.
      apply bounded_prefix. exact (decode_frame _ _ _ _ Hd).
    + constructor; [|constructor]. simpl.
      apply (bounded_deeper h1 (json_depth j)); [done | exact (Hj _ _ _ Hd)].
Qed.

Lemma decode_fields_bounded (n : nat) (fields : list (string * json)) :
  Forall (fun kv => (json_depth kv.2 <= n)%nat /\
                    forall h h' v, decode h kv.2 = (h', v) ->
                                   bounded h' (json_depth kv.2) v)
    fields ->
  forall h acc h' ps,
    Forall (fun kv => bounded h n kv.2) acc ->
    decode_fields decode fields h acc = (h', ps) ->
    Forall (fun kv => bounded h' n kv.2) ps.
Proof.
  induction 1 as [|[k j] fields [Hn Hj] _ IH]; intros h acc h' ps Hacc; simpl.
  - by intros [= <- <-].
  - simpl in Hn, Hj. destruct (decode h j) as [h1 v] eqn:Hd. apply IH.
    apply assoc_set_bounded.
    + eapply Forall_impl; [exact Hacc |]. intros kv.
      apply bounded_prefix. exact (decode_frame _ _ _ _ Hd).
    + apply (bounded_deeper h1 (json_depth j)); [done | exact (Hj _ _ _ Hd)].
Qed.

(** A decoded text is as deep as the text. *)
Lemma decode_bounded (j : json) :
  forall h h' v, decode h j = (h', v) -> bounded h' (json_depth j) v.
Proof.
  induction j as [| | | |items IH|fields IH] using json_members_ind; intros h h' v;
    cbn [decode]; try by intros [= <- <-].
  - destruct (decode_items decode 0 items h []) as [h1 ps] eqn:Hgo.
    unfold alloc. intros [= <- <-]. cbn [json_depth bounded].
    eexists. split; [apply list_lookup_middle; reflexivity |]. simpl.
    eapply Forall_impl;
      [eapply (decode_items_bounded (max_list (json_depth <$> items)));
         [| | exact Hgo] |].
    + apply Forall_forall. intros j Hj. split.
      * apply max_list_elem_of_le. apply list_elem_of_fmap. by exists j.
      * exact (proj1 (Forall_forall _ _) IH j Hj).
    + constructor.
    + intros kv. apply bounded_prefix. by apply prefix_app_r.
  - destruct (decode_fields decode fields h []) as [h1 ps] eqn:Hgo.
    unfold alloc. intros [= <- <-]. cbn [json_depth bounded].
    eexists. split; [apply list_lookup_middle; reflexivity |]. simpl.
    eapply Forall_impl;
      [eapply (decode_fields_bounded
                 (max_list ((fun kv => json_depth kv.2) <$> fields)));
         [| | exact Hgo] |].
    + apply Forall_forall. intros kv Hkv. split.
      * apply max_list_elem_of_le. apply list_elem_of_fmap. by exists kv.
      * exact (proj1 (Forall_forall _ _) IH kv Hkv).
    + constructor.
    + intros kv. apply bounded_prefix. by apply prefix_app_r.
Qed.

Lemma receive_bounded (h hd : heap) (body : option json) (response : val) :
  receive h body = (hd, response) ->
  truthy response = true /\
  bounded hd (body_depth body) (get_prop hd response "data").
Proof.
  unfold receive, alloc. destruct body as [j|].
  - destruct (decode h j) as [h1 v] eqn:Hd. intros [= <- <-].
    split; [reflexivity |]. unfold get_prop.
    rewrite list_lookup_middle by reflexivity. simpl.
    apply (bounded_prefix h1); [by apply prefix_app_r | exact (decode_bounded _ _ _ _ Hd)].
  - intros [= <- <-]. split; [reflexivity |]. unfold get_prop.
    rewrite list_lookup_middle by reflexivity. reflexivity.
Qed.

Lemma object_string_total (fuel : nat) :
  forall d h l, (d <= fuel)%nat -> bounded h d (VRef l) ->
    exists r, object_string fuel h l = Some r.
Proof.
  induction fuel as [|fuel IH]; intros d h l Hd Hb.
  - destruct d; [discriminate Hb | lia].
  - destruct d as [|d]; [discriminate Hb |]. destruct Hb as (o & Ho & Hall).
    cbn [object_string]. rewrite Ho.
    destruct (is_array o); [|destruct (bool_decide _); by eexists].
    assert (Forall (bounded h d) (props o).*2) as Hels by (by apply Forall_fmap).
    revert Hels. generalize ((props o).*2). intros elements Hels.
    induction Hels as [|e elements He Hels IHels]; [by eexists |].
    destruct IHels as [rest Hrest]. rewrite Hrest.
    destruct e as [| | | | |l']; try (destruct rest; by eexists).
    destruct (IH d h l' ltac:(lia) He) as [r ->]. destruct r, rest; by eexists.
Qed.

Lemma string_of_total (fuel d : nat) (h : heap) (v : val) :
  (d <= fuel)%nat -> bounded h d v -> exists r, string_of fuel h v = Some r.
Proof.
  intros Hd Hb. destruct v as [| | | | |l]; try by eexists.
  by apply (object_string_total fuel d).
Qed.

Lemma eq_string_total (fuel d : nat) (h : heap) (v : val) (s : string) :
  (d <= fuel)%nat -> bounded h d v -> exists r, eq_string fuel h v s = Some r.
Proof.
  intros Hd Hb. destruct v as [| | | | |l]; try by eexists.
  cbn [eq_string]. destruct (object_string_total fuel d h l Hd Hb) as [[t|] ->]; by eexists.
Qed.

Lemma call_success_total (fuel d : nat) (h : heap) (responseExpected : bool)
    (response : val) :
  truthy response = true -> bounded h d (get_prop h response "data") ->
  (d < fuel)%nat ->
  exists r h', call_success fuel h responseExpected response = Some (r, h').
Proof.
  intros Htruthy Hdata Hd. unfold call_success. rewrite Htruthy. cbn [negb andb].
  assert (forall k, bounded h d (get_prop h (get_prop h response "data") k)) as Hmember.
  { intros k. apply (get_prop_bounded h h d); [|done].
    apply (bounded_deeper h d (S d)); [lia | done]. }
  destruct (negb (truthy _)); [by eexists _, _ |].
  destruct (defined (get_prop h _ "exception")).
  - destruct (eq_string_total fuel d h _ "invalidtoken" ltac:(lia) (Hmember "errorcode"))
      as [[[|]|] ->]; try by eexists _, _.
    destruct (eq_string_total fuel d h _ "accessexception" ltac:(lia) (Hmember "errorcode"))
      as [[[|]|] ->]; by eexists _, _.
  - destruct (defined (get_prop h _ "debuginfo")).
    + destruct (string_of_total fuel d h _ ltac:(lia) (Hmember "message")) as [[t|] ->];
        by eexists _, _.
    + destruct (angular_copy_total fuel d h _ Hd Hdata) as (h' & r & ->). by eexists _, _.
Qed.

(** A call settles when the fuel exceeds the depth of the argument object
    and of the answers of the server: the promise is resolved or
    rejected, and the model does not run out of fuel. *)
Theorem call_settles (fuel d : nat) (h : heap) (net : Network) (method : string)
    (data : val) (preSets : option PreSets) :
  bounded h d data -> (d < fuel)%nat ->
  (forall url hreq ajaxData body,
     http_post url hreq ajaxData = Some body -> (body_depth body < fuel)%nat) ->
  exists r h', call fuel h net method data preSets = Some (r, h').
Proof.
  intros Hdata Hd Hserver. unfold call.
  destruct (convertValuesToString_total fuel d h data Hd Hdata) as (h1 & l & ->).
  destruct preSets as [[[u|] [t|] re]|]; try by eexists _, _.
  destruct net; try by eexists _, _.
  all: destruct (http_post _ _ _) as [body|] eqn:Hpost; [|by eexists _, _].
  all: destruct (receive _ body) as [hd response] eqn:Hrecv.
  all: apply receive_bounded in Hrecv as [Htruthy Hbody].
  all: eapply call_success_total; [exact Htruthy | exact Hbody |].
  all: exact (Hserver _ _ _ _ Hpost).
Qed.

End Settling.

(** ** What a call posts and what it resolves with *)

Section Images.

Context {T : Transport}.

Lemma assoc_get_elem (k : string) (ps : list (string * val)) :
  k ∈ ps.*1 -> (k, assoc_get k ps) ∈ ps.
Proof.
  induction ps as [|[k' v] ps IH]; cbn [fmap list_fmap fst assoc_get].
  - intros H. inversion H.
  - destruct (String.eqb k k') eqn:Hk.
    + apply String.eqb_eq in Hk as ->. intros _. by left.
    + apply String.eqb_neq in Hk. intros H. apply elem_of_cons in H as [H|H]; [done |].
      right. by apply IH.
Qed.

Lemma assoc_set_keys (k k' : string) (v : val) (ps : list (string * val)) :
  k' ∈ (assoc_set k v ps).*1 <-> k' = k \/ k' ∈ ps.*1.
Proof.
  induction ps as [|[k0 v0] ps IH]; cbn [assoc_set fmap list_fmap fst].
  - rewrite list_elem_of_singleton. split; [by left | intros [H|H]; [done | inversion H]].
  - destruct (String.eqb k k0) eqn:Hk; cbn [fmap list_fmap fst].
    + apply String.eqb_eq in Hk as ->. rewrite elem_of_cons. split; [by right |].
      intros [->|H]; [by left | done].
    + rewrite !elem_of_cons, IH. tauto.
Qed.

Lemma agree_above_refl (m : nat) (h : heap) : agree_above m h h.
Proof. by intros l o. Qed.

Lemma agree_above_trans (m : nat) (h1 h2 h3 : heap) :
  agree_above m h1 h2 -> agree_above m h2 h3 -> agree_above m h1 h3.
Proof. intros H12 H23 l o Hl Ho. by apply H23, H12. Qed.

Lemma agree_above_prefix (m : nat) (h h' : heap) : h `prefix_of` h' -> agree_above m h h'.
Proof. intros Hpre l o _ Ho. by eapply prefix_lookup_Some. Qed.

Lemma agree_above_set_prop (m : nat) (h : heap) (l : nat) (k : string) (v : val) :
  (l < m)%nat -> agree_above m h (set_prop h l k v).
Proof.
  intros Hl l' o Hm Ho. rewrite set_prop_lookup_ne by lia. exact Ho.
Qed.

(** An image stays one when the heap that holds it changes below the
    objects it is made of. *)
Lemma image_target (prim : val -> val) (h1 h2 h2' : heap) (m : nat) (v r : val) :
  image prim h1 h2 v r -> fresh_val m r -> closed_above m h2 -> agree_above m h2 h2' ->
  image prim h1 h2' v r.
Proof.
  intros Himg Hfresh Hclosed Hagree.
  induction Himg as [v Hv|l1 l2 o1 o2 H1 H2 Harr Hkeys Hmem IH]; [by constructor |].
  simpl in Hfresh. eapply image_object; [exact H1 | exact (Hagree _ _ Hfresh H2) | done ..|].
  intros k Hk Hp. apply IH; [exact Hk | exact Hp |].
  apply (Hclosed l2 o2 k _ Hfresh H2). apply assoc_get_elem. by apply Hkeys.
Qed.

(** The source of an image can be read in the heap it was allocated in. *)
Lemma image_source (prim : val -> val) (h1 h1' h2 : heap) (v r : val) :
  image prim h1' h2 v r -> h1 `prefix_of` h1' -> forall d, bounded h1 d v ->
  image prim h1 h2 v r.
Proof.
  intros Himg Hpre.
  induction Himg as [v Hv|l1 l2 o1 o2 H1 H2 Harr Hkeys Hmem IH]; intros d Hb;
    [by constructor |].
  destruct d as [|d]; [discriminate Hb |]. destruct Hb as (o & Ho & Hall).
  pose proof (prefix_lookup_Some _ _ _ _ Ho Hpre) as Ho'. rewrite H1 in Ho'.
  injection Ho' as ->. eapply image_object; [exact Ho | exact H2 | done ..|].
  intros k Hk Hp. apply (IH k Hk Hp d). by apply assoc_get_bounded.
Qed.

Lemma get_prop_stable (h0 h : heap) (d : nat) (data : val) (k : string) :
  bounded h0 (S d) data -> h0 `prefix_of` h -> get_prop h data k = get_prop h0 data k.
Proof.
  intros Hb Hpre. destruct data as [| | | | |l]; try reflexivity.
  destruct Hb as (o & Ho & _). unfold get_prop.
  by rewrite (prefix_lookup_Some _ _ _ _ Ho Hpre), Ho.
Qed.

Lemma keys_stable (h0 h : heap) (d : nat) (data : val) :
  bounded h0 (S d) data -> h0 `prefix_of` h -> keys h data = keys h0 data.
Proof.
  intros Hb Hpre. destruct data as [| | | | |l]; try reflexivity.
  destruct Hb as (o & Ho & _). unfold keys.
  by rewrite (prefix_lookup_Some _ _ _ _ Ho Hpre), Ho.
Qed.

(** The loop stores under every key it visits, [__proto__] apart, an image
    of the member of [data] under that key, and leaves the other members of
    [result]. *)
Lemma for_in_image (prim : val -> val) (item : heap -> val -> option (heap * val))
    (data : val) (d n : nat) (h0 : heap) (a : bool) :
  copying item ->
  (forall h v h' r, item h v = Some (h', r) -> bounded h d v -> image prim h h' v r) ->
  length h0 = n -> bounded h0 (S d) data ->
  forall ks hs h' ps,
    h0 `prefix_of` hs -> closed_above (S n) hs ->
    hs !! n = Some {| is_array := a; props := ps |} ->
    (forall k, k ∈ ps.*1 -> fresh_val (S n) (assoc_get k ps)) ->
    for_in item data n ks hs = Some h' ->
    exists ps',
      h' !! n = Some {| is_array := a; props := ps' |} /\
      (forall k, k ∈ ps'.*1 <-> k ∈ ps.*1 \/ (k ∈ ks /\ k <> "__proto__")) /\
      (forall k, k ∈ ks -> k <> "__proto__" ->
         image prim h0 h' (get_prop h0 data k) (assoc_get k ps')) /\
      (forall k, k ∉ ks \/ k = "__proto__" -> assoc_get k ps' = assoc_get k ps) /\
      (forall k, k ∈ ps'.*1 -> fresh_val (S n) (assoc_get k ps')) /\
      h0 `prefix_of` h' /\ closed_above (S n) h' /\ agree_above (S n) hs h'.
Proof.
  intros Hcopy Himg Hn Hdata.
  induction ks as [|el ks IH]; intros hs h' ps Hpre Hclosed Hres Hfresh; cbn [for_in].
  - intros [= <-]. exists ps. split; [exact Hres |]. split.
    { intros k. split; [by left | intros [H|[H _]]; [done | inversion H]]. }
    split; [intros k H; inversion H |]. split; [done |]. split; [done |].
    split; [done |]. split; [done | apply agree_above_refl].
  - destruct (item hs (get_prop hs data el)) as [[h1 r]|] eqn:Hi; [|discriminate].
    intros Hfor. destruct (Hcopy _ _ _ _ Hi) as (Hext & Hnew & Hr).
    pose proof (lookup_lt_Some _ _ _ Hres) as Hlen.
    rewrite (get_prop_stable h0 hs d data el Hdata Hpre) in Hi.
    assert (bounded h0 d (get_prop h0 data el)) as Hb0
      by (by apply (get_prop_bounded h0 h0 d data el)).
    assert (image prim h0 h1 (get_prop h0 data el) r) as Hel.
    { apply (image_source prim h0 hs h1 _ _) with (d := d); [|done | done].
      apply (Himg _ _ _ _ Hi). by apply (bounded_prefix h0 hs). }
    assert (fresh_val (S n) r) as Hr' by (apply (fresh_val_mono _ (length hs)); [lia | done]).
    assert (closed_above (S n) h1) as Hclosed1
      by (by apply (closed_above_extend (S n) hs h1)).
    pose proof (prefix_lookup_Some _ _ _ _ Hres Hext) as Hres1.
    destruct (decide (el = "__proto__")) as [Hproto|Hproto].
    + assert (set_prop h1 n el r = h1) as Hsame by (by rewrite Hproto).
      rewrite Hsame in Hfor.
      destruct (IH h1 h' ps) as
        (ps' & Hres' & Hkeys & Hin & Hout & Hfresh' & Hpre' & Hclosed' & Hagree);
        [by etrans | done | done | done | done |].
      exists ps'. split; [exact Hres' |]. split.
      { intros k. rewrite Hkeys, elem_of_cons. split.
        - intros [H|[H1 H2]]; [by left | right; split; [by right | done]].
        - intros [H|[[H1|H1] H2]]; [by left | congruence | right; by split]. }
      split.
      { intros k Hk Hp. apply Hin; [|done].
        apply elem_of_cons in Hk as [Hk|Hk]; [congruence | done]. }
      split.
      { intros k [Hk|Hk]; apply Hout; [|by right].
        apply not_elem_of_cons in Hk as [_ Hk]. by left. }
      split; [done |]. split; [done |]. split; [done |].
      apply (agree_above_trans _ _ h1); [by apply agree_above_prefix | done].
    + destruct (IH (set_prop h1 n el r) h' (assoc_set el r ps)) as
        (ps' & Hres' & Hkeys & Hin & Hout & Hfresh' & Hpre' & Hclosed' & Hagree);
        [| | | |done |].
      { apply set_prop_frame; [by etrans | lia]. }
      { by apply set_prop_closed. }
      { rewrite set_prop_lookup by done. by rewrite Hres1. }
      { intros k Hk. destruct (decide (k = el)) as [->|Hne].
        - by rewrite assoc_get_set.
        - rewrite assoc_get_set_ne by done. apply Hfresh.
          apply assoc_set_keys in Hk as [Hk|Hk]; done. }
      exists ps'. split; [exact Hres' |]. split.
      { intros k. rewrite Hkeys, assoc_set_keys, elem_of_cons. split.
        - intros [[H|H]|[H1 H2]]; [right; split; [by left | congruence] | by left |
                                   right; split; [by right | done]].
        - intros [H|[[H1|H1] H2]]; [left; by right | left; by left | right; by split]. }
      assert (agree_above (S n) h1 h') as Hagree1.
      { apply (agree_above_trans _ _ (set_prop h1 n el r)); [|done].
        apply agree_above_set_prop. lia. }
      split.
      { intros k Hk Hp. destruct (decide (k ∈ ks)) as [Hks|Hks]; [by apply Hin |].
        apply elem_of_cons in Hk as [->|Hk]; [|done].
        rewrite (Hout el (or_introl Hks)), assoc_get_set.
        by apply (image_target prim h0 h1 h' (S n)). }
      split.
      { intros k [Hk|Hk].
        - apply not_elem_of_cons in Hk as [Hne Hk].
          rewrite (Hout k (or_introl Hk)). by apply assoc_get_set_ne.
        - rewrite (Hout k (or_intror Hk)). apply assoc_get_set_ne. congruence. }
      split; [done |]. split; [done |]. split; [done |].
      apply (agree_above_trans _ _ h1); [by apply agree_above_prefix | done].
Qed.

Lemma closed_above_short (m : nat) (h : heap) :
  (length h <= m)%nat -> closed_above m h.
Proof. intros Hm l o k v Hl Ho. apply lookup_lt_Some in Ho. lia. Qed.

(** [angular.copy] yields a deep copy. *)
Lemma angular_copy_image (fuel : nat) :
  forall h v h' r d,
    angular_copy fuel h v = Some (h', r) -> bounded h d v -> deep_copy h h' v r.
Proof.
  induction fuel as [|fuel IH]; intros h v h' r d; [discriminate |].
  cbn [angular_copy]. destruct (isObject v) eqn:Hobj.
  - destruct v as [| | | | |l]; try discriminate. unfold alloc.
    destruct (for_in _ _ _ _ _) as [h2|] eqn:Hfor; [|discriminate].
    intros [= <- <-] Hb. destruct d as [|d]; [discriminate Hb |].
    pose proof Hb as (o & Ho & Hall).
    rewrite (keys_stable h _ d (VRef l) Hb) in Hfor by (by apply prefix_app_r).
    eapply (for_in_image (fun v => v) _ (VRef l) d (length h) h) in Hfor
      as (ps' & Hres & Hkeys & Hin & _);
      [| exact (angular_copy_fresh fuel) | intros h3 v3 h4 r4 H3 Hb3; exact (IH _ _ _ _ _ H3 Hb3)
       | reflexivity | exact Hb | by apply prefix_app_r
       | apply closed_above_short; rewrite length_app; simpl; lia
       | by apply list_lookup_middle | intros k Hk; inversion Hk].
    eapply image_object; [exact Ho | exact Hres | | |].
    + simpl. unfold isArray. by rewrite Ho.
    + intros k. rewrite Hkeys. unfold keys. rewrite Ho. simpl.
      split; [intros [H|H]; [inversion H | done] | by right].
    + intros k Hk. simpl. specialize (Hin k). unfold keys, get_prop in Hin.
      rewrite Ho in Hin. by apply Hin.
  - intros [= <- <-] _. by apply image_primitive.
Qed.

Lemma convertValuesToString_closed (fuel : nat) :
  forall h data h' result,
    convertValuesToString fuel h data = Some (h', result) -> closed_above (length h) h'.
Proof.
  induction fuel as [|fuel IH]; intros h data h' result; [discriminate |].
  cbn [convertValuesToString]. unfold alloc.
  destruct (for_in _ _ _ _ _) as [h2|] eqn:Hfor; [|discriminate].
  intros [= <- <-]. eapply for_in_closed; [| | | exact Hfor].
  - intros h3 v h4 r. destruct (isObject v).
    + destruct (convertValuesToString fuel h3 v) as [[h5 r5]|] eqn:Hrec; [|discriminate].
      intros [= <- <-]. pose proof (convertValuesToString_frame _ _ _ _ _ Hrec) as (? & -> & ?).
      split; [done |]. split; [by eapply IH | simpl; lia].
    + intros [= <- <-]. split; [done |]. split; [by apply closed_above_short | done].
  - rewrite length_app. simpl. lia.
  - apply closed_above_alloc_empty.
Qed.

Lemma convert_item_copying (fuel : nat) : copying (convert_item fuel).
Proof.
  intros h v h' r. unfold convert_item. destruct (isObject v).
  - destruct (convertValuesToString fuel h v) as [[h5 r5]|] eqn:Hrec; [|discriminate].
    intros [= <- <-]. pose proof (convertValuesToString_frame _ _ _ _ _ Hrec) as (? & -> & ?).
    split; [done |]. split; [by eapply convertValuesToString_closed | simpl; lia].
  - intros [= <- <-]. split; [done |]. split; [by apply closed_above_short | done].
Qed.

(** The members of the object [convertValuesToString] yields: the keys
    the loop visited, [__proto__] apart, each with the converted member of
    [data]. *)
Lemma convertValuesToString_members (fuel : nat) :
  forall h data h' result d,
    convertValuesToString fuel h data = Some (h', result) -> bounded h (S d) data ->
    exists ps,
      h' !! result = Some {| is_array := negb (negb (isArray h data) && isObject data);
                             props := ps |} /\
      (forall k, k ∈ ps.*1 <-> k ∈ keys h data /\ k <> "__proto__") /\
      (forall k, k ∈ keys h data -> k <> "__proto__" ->
         converted h h' (get_prop h data k) (assoc_get k ps)) /\
      (forall k, k ∈ ps.*1 -> fresh_val (S result) (assoc_get k ps)) /\
      closed_above (S result) h'.
Proof.
  induction fuel as [|fuel IH]; intros h data h' result d; [discriminate |].
  cbn [convertValuesToString]. unfold alloc.
  destruct (for_in _ _ _ _ _) as [h2|] eqn:Hfor; [|discriminate].
  intros [= <- <-] Hb.
  rewrite (keys_stable h _ d data Hb) in Hfor by (by apply prefix_app_r).
  change (for_in (convert_item fuel) data (length h) (keys h data)
            (h ++ [{| is_array := negb (negb (isArray h data) && isObject data);
                      props := [] |}])%list = Some h2) in Hfor.
  eapply (for_in_image (fun v => VStr (to_string v)) _ data d (length h) h) in Hfor
    as (ps' & Hres & Hkeys & Hin & _ & Hfresh & _ & Hclosed & _);
    [| exact (convert_item_copying fuel) | | reflexivity | exact Hb | by apply prefix_app_r
     | apply closed_above_short; rewrite length_app; simpl; lia
     | by apply list_lookup_middle | intros k Hk; inversion Hk].
  - exists ps'. split; [exact Hres |]. split; [|by split].
    intros k. rewrite Hkeys. split; [intros [H|H]; [inversion H | done] | by right].
  - intros h3 v h4 r. unfold convert_item. destruct (isObject v) eqn:Hobj.
    + destruct v as [| | | | |l]; try discriminate.
      destruct (convertValuesToString fuel h3 (VRef l)) as [[h5 r5]|] eqn:Hrec;
        [|discriminate].
      intros [= <- <-] Hb3. destruct d as [|d']; [discriminate Hb3 |].
      pose proof Hb3 as (o & Ho & Hall).
      destruct (IH _ _ _ _ d' Hrec Hb3) as (ps & Hres & Hkeys & Hin & _).
      eapply image_object; [exact Ho | exact Hres | | |].
      * simpl. unfold isArray. rewrite Ho. by destruct (is_array o).
      * intros k. rewrite Hkeys. unfold keys. by rewrite Ho.
      * intros k Hk. simpl. specialize (Hin k). unfold keys, get_prop in Hin.
        rewrite Ho in Hin. by apply Hin.
    + intros [= <- <-] _. by apply image_primitive.
Qed.


(** [convertValuesToString] of an object or array yields its conversion
    at every depth. *)
Lemma convertValuesToString_image (fuel d : nat) (h h' : heap) (l result : nat) :
  convertValuesToString fuel h (VRef l) = Some (h', result) -> bounded h d (VRef l) ->
  converted h h' (VRef l) (VRef result).
Proof.
  intros Hconv Hb. destruct d as [|d]; [discriminate Hb |].
  pose proof Hb as (o & Ho & Hall).
  destruct (convertValuesToString_members _ _ _ _ _ d Hconv Hb) as (ps & Hres & Hkeys & Hin & _).
  eapply image_object; [exact Ho | exact Hres | | |].
  - simpl. unfold isArray. rewrite Ho. by destruct (is_array o).
  - intros k. rewrite Hkeys. unfold keys. by rewrite Ho.
  - intros k Hk. simpl. specialize (Hin k). unfold keys, get_prop in Hin.
    rewrite Ho in Hin. by apply Hin.
Qed.

Lemma call_success_image (fuel d : nat) (h h' : heap) (responseExpected : bool)
    (response payload : val) :
  call_success fuel h responseExpected response = Some (Resolved payload, h') ->
  truthy response = true -> bounded h d (get_prop h response "data") ->
  deep_copy h h' (get_prop h response "data") payload.
Proof.
  unfold call_success. intros Hcall Htruthy Hb. rewrite Htruthy in Hcall.
  cbn [negb andb] in Hcall. revert Hcall. callback_cases; try discriminate.
  destruct (angular_copy _ _ _) as [[h2 c]|] eqn:Hc; [|discriminate].
  intros [= <- <-]. by eapply angular_copy_image.
Qed.

(** C9. A call that settles leaves every object that existed before it as
    it was, the caller's [data] among them.  When it resolves, the request
    was a fresh object [ajaxData], the one that received [wsfunction] and
    [wstoken]; for a [data] made of allocated objects, [ajaxData] is of the
    kind of [data], its keys are those of [data] ([__proto__] apart, which
    an assignment does not store) with [wsfunction] and [wstoken], and its
    other members are the members of [data] converted to strings at every
    depth.  The resolved payload is a deep copy of the
    data of the decoded response, and every object and array it is made of
    was allocated after the response was decoded: none of them is an object
    of the decoded response, nor of anything that existed then. *)
Theorem call_keeps_data_and_copies_payload (fuel : nat) (h h' : heap) (net : Network)
    (method : string) (data : val) (preSets : option PreSets) (r : outcome val) :
  call fuel h net method data preSets = Some (r, h') ->
  (forall l o, h !! l = Some o -> h' !! l = Some o) /\
  (forall payload, r = Resolved payload ->
     exists url token hreq ajaxData body hd response,
       wstoken <$> preSets = Some (Some token) /\
       http_post url hreq (VRef ajaxData) = Some body /\
       (length h <= ajaxData)%nat /\
       get_prop hreq (VRef ajaxData) "wsfunction" = VStr method /\
       get_prop hreq (VRef ajaxData) "wstoken" = VStr token /\
       (forall d, bounded h d data ->
          isArray hreq (VRef ajaxData) = negb (negb (isArray h data) && isObject data) /\
          (forall k, k ∈ keys hreq (VRef ajaxData) <->
                     (k ∈ keys h data /\ k <> "__proto__") \/
                     k = "wsfunction" \/ k = "wstoken") /\
          (forall k, k ∈ keys h data ->
             k <> "__proto__" -> k <> "wsfunction" -> k <> "wstoken" ->
             converted h hreq (get_prop h data k) (get_prop hreq (VRef ajaxData) k))) /\
       receive hreq body = (hd, response) /\
       h `prefix_of` hd /\
       deep_copy hd h' (get_prop hd response "data") payload /\
       forall l, reach h' payload l ->
         (length hd <= l)%nat /\
         ~ reach hd (get_prop hd response "data") l /\
         ~ reach h data l).
Proof.
  intros Hcall. split.
  { intros l o Hl. eapply prefix_lookup_Some; [exact Hl |]. by eapply call_frame. }
  intros payload ->. unfold call in Hcall.
  destruct (convertValuesToString fuel h data) as [[h1 a]|] eqn:Hconv; [|discriminate].
  pose proof (convertValuesToString_frame _ _ _ _ _ Hconv) as (Hpre & -> & Ha).
  destruct preSets as [[[u|] [t|] re]|]; try discriminate.
  set (hreq := set_prop (set_prop h1 (length h) "wsfunction" (VStr method)) (length h)
                 "wstoken" (VStr t)) in *.
  assert (h `prefix_of` hreq) as Hreq
    by (apply set_prop_frame; [by apply set_prop_frame | done]).
  assert (exists body hd response,
            http_post (u ++ "/webservice/rest/server.php?moodlewsrestformat=json") hreq
              (VRef (length h)) = Some body /\
            receive hreq body = (hd, response) /\
            call_success fuel hd re response = Some (Resolved payload, h'))
    as (body & hd & response & Hpost & Hrecv & Hsucc).
  { destruct net; try discriminate.
    all: destruct (http_post _ _ _) as [body|]; [|discriminate].
    all: destruct (receive _ body) as [hd response] eqn:Hrecv.
    all: by exists body, hd, response. }
  exists (u ++ "/webservice/rest/server.php?moodlewsrestformat=json"), t, hreq,
    (length h), body, hd, response.
  split; [reflexivity |]. split; [exact Hpost |]. split; [done |].
  assert (hreq `prefix_of` hd) as Hhd by (by eapply receive_frame).
  split; [| split; [| split; [| split; [exact Hrecv | split; [by etrans | split]]]]].
  - unfold hreq. rewrite get_prop_set_prop_ne by done. by apply get_prop_set_prop.
  - unfold hreq. apply get_prop_set_prop; [done |]. by rewrite set_prop_length.
  - intros d Hb. apply (bounded_deeper h d (S d)) in Hb; [|lia].
    destruct (convertValuesToString_members _ _ _ _ _ d Hconv Hb)
      as (ps & Hres & Hkeys & Hin & Hfresh & Hclosed).
    assert (hreq !! length h =
              Some {| is_array := negb (negb (isArray h data) && isObject data);
                      props := assoc_set "wstoken" (VStr t)
                                 (assoc_set "wsfunction" (VStr method) ps) |}) as Hobj.
    { unfold hreq. rewrite set_prop_lookup by done.
      rewrite set_prop_lookup by done. by rewrite Hres. }
    split; [| split].
    + unfold isArray. by rewrite Hobj.
    + intros k. unfold keys at 1. rewrite Hobj. cbn [props].
      rewrite !assoc_set_keys, Hkeys. tauto.
    + intros k Hk Hp Hf Ht. unfold get_prop at 2. rewrite Hobj. cbn [props].
      rewrite !assoc_get_set_ne by done.
      apply (image_target _ h h1 hreq (S (length h))).
      * by apply Hin.
      * apply Hfresh. by apply Hkeys.
      * exact Hclosed.
      * apply (agree_above_trans _ _ (set_prop h1 (length h) "wsfunction" (VStr method)));
          apply agree_above_set_prop; lia.
  - destruct (receive_bounded _ _ _ _ Hrecv) as [Htruthy Hb].
    by eapply call_success_image.
  - intros l Hreach. pose proof (call_success_fresh _ _ _ _ _ _ _ Hsucc Hreach) as Hl.
    split; [exact Hl |]. split.
    + intros Hold. apply reach_allocated in Hold. lia.
    + intros Hold. apply reach_allocated in Hold.
      apply prefix_length in Hreq, Hhd. lia.
Qed.

End Images.

(** The list of users is resolved as a copy of the list received; the
    caller's three objects are untouched. *)
Lemma call_keeps_data_and_copies_payload_witness :
  exists h',
    @call Sample.users_transport 4 Sample.caller_heap Online
      "core_enrol_get_enrolled_users" (VRef 0) (Some Sample.presets) =
      Some (Resolved (VRef 12), h') /\
    (forall l o, Sample.caller_heap !! l = Some o -> h' !! l = Some o) /\
    (exists hd response, deep_copy hd h' (get_prop hd response "data") (VRef 12)) /\
    (forall l, reach h' (VRef 12) l -> ~ reach Sample.caller_heap (VRef 0) l).
Proof.
  eexists. split; [vm_compute; reflexivity |].
  match goal with
  | |- (forall l o, _ -> ?h' !! l = _) /\ _ =>
      destruct (@call_keeps_data_and_copies_payload Sample.users_transport 4
                  Sample.caller_heap h' Online "core_enrol_get_enrolled_users" (VRef 0)
                  (Some Sample.presets) (Resolved (VRef 12)))
        as [Hkeep Hcopy]
  end.
  - vm_compute. reflexivity.
  - destruct (Hcopy (VRef 12) eq_refl)
      as (url & token & hreq & ajaxData & body & hd & response &
          _ & _ & _ & _ & _ & _ & _ & _ & Hdeep & Hnew).
    split; [exact Hkeep |]. split; [by exists hd, response |].
    intros l Hreach. exact (proj2 (proj2 (Hnew l Hreach))).
Defined.

(** * Further properties of the sites manager *)

Section SitesStore.

Context {E : Env}.

(** X1. Exactly one of [hasSites] and [hasNoSites] resolves: [hasSites]
    when the sites store holds a row, [hasNoSites] when it is empty. *)
Theorem hasSites_hasNoSites_complementary (w : World) :
  (hasNoSites w = Resolved tt <-> db_sites w = ∅) /\
  (hasSites w = Resolved tt <-> db_sites w <> ∅) /\
  (hasSites w = Resolved tt <-> hasNoSites w = Rejected (ErrVal VUndefined)) /\
  (hasNoSites w = Resolved tt <-> hasSites w = Rejected (ErrVal VUndefined)).
Proof.
  unfold hasNoSites, hasSites, db_count_sites.
  destruct (decide (db_sites w = ∅)) as [Hempty|Hne].
  - rewrite Hempty, map_size_empty. simpl. repeat split; try done.
  - assert (size (db_sites w) <> 0)%nat as Hsize by (by rewrite map_size_empty_iff).
    destruct (size (db_sites w)) as [|n]; [done |]. simpl.
    repeat split; try done.
Qed.

(** X2. With every row filed under its id, [getSites] lists one entry per
    stored site, each made of the id, URL, full name, site name and
    picture of a stored row, under pairwise distinct ids. *)
Theorem getSites_lists_the_store (w : World) :
  well_keyed w ->
  exists sites,
    getSites w = Resolved sites /\
    length sites = size (db_sites w) /\
    (forall entry, entry ∈ sites <->
       exists site, db_sites w !! rec_id site = Some site /\ entry = formatted site) /\
    NoDup (fs_id <$> sites).
Proof.
  intros Hkeyed. eexists. split; [reflexivity |]. unfold db_getAll_sites. split; [| split].
  - rewrite !length_fmap. apply length_map_to_list.
  - intros entry. rewrite list_elem_of_fmap. split.
    + intros (site & -> & Hin). apply list_elem_of_fmap in Hin as ([id site'] & -> & Hin).
      apply elem_of_map_to_list in Hin. simpl. exists site'.
      split; [by rewrite (Hkeyed id site' Hin) | reflexivity].
    + intros (site & Hsite & ->). exists site. split; [reflexivity |].
      apply list_elem_of_fmap. exists (rec_id site, site). split; [reflexivity |].
      by apply elem_of_map_to_list.
  - rewrite <- list_fmap_compose.
    assert ((fs_id ∘ (fun site => formatted site) ∘ snd) <$> map_to_list (db_sites w) =
            (map_to_list (db_sites w)).*1) as Hids.
    { apply list_fmap_ext. intros i [id site] Hin.
      apply list_elem_of_lookup_2, elem_of_map_to_list in Hin. simpl.
      exact (Hkeyed id site Hin). }
    rewrite <- list_fmap_compose. unfold formatted in Hids. rewrite Hids.
    apply NoDup_fst_map_to_list.
Qed.

(** X3. The operations of the manager keep every row of the sites store
    filed under its own id: [newSite], [loadSite], [logout], and
    [deleteSite] when [$mmSite.deleteSite] does. *)
Theorem sites_store_stays_keyed (w : World) (siteurl token siteid : string)
    (mmSite_deleteSite : string -> World -> outcome unit * World) :
  well_keyed w ->
  (forall id w0, well_keyed w0 -> well_keyed (mmSite_deleteSite id w0).2) ->
  well_keyed (newSite w siteurl token).2 /\
  well_keyed (loadSite w siteid).2 /\
  well_keyed (logout w).2 /\
  well_keyed (deleteSite mmSite_deleteSite w siteid).2.
Proof.
  intros Hkeyed Hcleanup. repeat split.
  - unfold newSite. destruct (fetchSiteInfo siteurl token) as [infos|e|]; try done.
    destruct (isValidMoodleVersion (functions infos)); [|done].
    intros id site. simpl. intros Hlook.
    apply lookup_insert_Some in Hlook as [[<- <-]|[_ Hlook]]; [done | by apply Hkeyed].
  - unfold loadSite. by destruct (db_get_site w siteid).
  - done.
  - unfold deleteSite. specialize (Hcleanup siteid w Hkeyed).
    destruct (mmSite_deleteSite siteid w) as [[u|e|] w1]; try done.
    intros id site. simpl. intros Hlook.
    apply lookup_delete_Some in Hlook as [_ Hlook]. by apply Hcleanup.
Qed.

(** X4. When [$mmSite.deleteSite] resolves without touching the sites
    store, [deleteSite] resolves and the row is gone: [getSiteURL] of the
    id resolves with [undefined], [loadSite] of it rejects, and every other
    row is as before.  When [$mmSite.deleteSite] rejects, [deleteSite]
    rejects with its error and removes nothing. *)
Theorem deleteSite_removes_the_row (w w1 : World) (siteid : string) (r : outcome unit)
    (mmSite_deleteSite : string -> World -> outcome unit * World) :
  mmSite_deleteSite siteid w = (r, w1) ->
  db_sites w1 = db_sites w ->
  match r with
  | Resolved _ =>
      (deleteSite mmSite_deleteSite w siteid).1 = Resolved tt /\
      getSiteURL (deleteSite mmSite_deleteSite w siteid).2 (Some siteid) = Resolved None /\
      (loadSite (deleteSite mmSite_deleteSite w siteid).2 siteid).1 =
        Rejected (ErrVal VUndefined) /\
      forall other, other <> siteid ->
        db_sites (deleteSite mmSite_deleteSite w siteid).2 !! other = db_sites w !! other
  | Rejected e =>
      deleteSite mmSite_deleteSite w siteid = (Rejected e, w1)
  | Pending => deleteSite mmSite_deleteSite w siteid = (Pending, w1)
  end.
Proof.
  intros Hcleanup Hstore. unfold deleteSite. rewrite Hcleanup.
  destruct r as [u|e|]; try reflexivity. simpl.
  unfold getSiteURL, loadSite, db_get_site. simpl. rewrite lookup_delete_eq.
  repeat split. intros other Hother. by rewrite lookup_delete_ne, Hstore.
Qed.

(** X5. [logout] empties the current-site store and [$mmSite] and keeps
    the sites store: a stored site can be loaded again afterwards, which
    makes it the current site. *)
Theorem logout_keeps_the_sites (w : World) (siteid : string) (site : SiteRecord) :
  db_sites w !! siteid = Some site ->
  (logout w).1 = Resolved tt /\
  db_current (logout w).2 !! 1%Z = None /\
  currentSite (logout w).2 = None /\
  db_sites (logout w).2 = db_sites w /\
  (loadSite (logout w).2 siteid).1 = Resolved tt /\
  currentSite (loadSite (logout w).2 siteid).2 =
    Some {| site_id := Some siteid; site_siteurl := rec_siteurl site;
            site_token := rec_token site; site_infos := Some (rec_infos site) |} /\
  db_current (loadSite (logout w).2 siteid).2 !! 1%Z = Some siteid.
Proof.
  intros Hsite. unfold logout, loadSite, db_get_site. simpl. rewrite Hsite. simpl.
  rewrite lookup_delete_eq, lookup_insert_eq. by repeat split.
Qed.

(** X6. [restoreSession] works once per process: whatever the first call
    did, a second call rejects and changes nothing. *)
Theorem restoreSession_only_once (m : Manager) :
  sessionRestored (restoreSession m).2 = true /\
  restoreSession (restoreSession m).2 =
    (Rejected (ErrVal VUndefined), (restoreSession m).2).
Proof.
  assert (sessionRestored (restoreSession m).2 = true) as Hflag.
  { unfold restoreSession. destruct (sessionRestored m) eqn:Hm; [exact Hm |].
    destruct (db_current (world m) !! 1%Z); [|reflexivity].
    by destruct (loadSite (world m) _). }
  split; [exact Hflag |]. unfold restoreSession at 1. by rewrite Hflag.
Qed.

(** X7. In a process that has not restored a session yet, with the
    current-site row pointing at a stored site, [restoreSession] resolves
    and makes that site the current one, with the id, URL, token and site
    information of the stored row. *)
Theorem restoreSession_restores_the_login (w : World) (siteid : string)
    (site : SiteRecord) :
  db_current w !! 1%Z = Some siteid ->
  db_sites w !! siteid = Some site ->
  (restoreSession {| world := w; sessionRestored := false |}).1 = Resolved tt /\
  currentSite (world (restoreSession {| world := w; sessionRestored := false |}).2) =
    Some {| site_id := Some siteid; site_siteurl := rec_siteurl site;
            site_token := rec_token site; site_infos := Some (rec_infos site) |} /\
  db_sites (world (restoreSession {| world := w; sessionRestored := false |}).2) =
    db_sites w.
Proof.
  intros Hcurrent Hsite. unfold restoreSession, loadSite, db_get_site. simpl.
  by rewrite Hcurrent, Hsite.
Qed.

(** X8. After [logout] there is no session to restore: in a new process
    [restoreSession] rejects, no site becomes current, and the sites store
    is the one before the logout. *)
Theorem restoreSession_after_logout_rejects (w : World) :
  (restoreSession {| world := (logout w).2; sessionRestored := false |}).1 =
    Rejected (ErrVal VUndefined) /\
  currentSite
    (world (restoreSession {| world := (logout w).2; sessionRestored := false |}).2) =
    None /\
  db_sites
    (world (restoreSession {| world := (logout w).2; sessionRestored := false |}).2) =
    db_sites w.
Proof.
  unfold restoreSession, logout. simpl. rewrite lookup_delete_eq. by repeat split.
Qed.

End SitesStore.

Lemma sample_world_site_keyed : well_keyed Sample.world_site.
Proof.
  intros id site Hlook. unfold Sample.world_site in Hlook. simpl in Hlook.
  apply lookup_insert_Some in Hlook as [[<- <-]|[_ Hlook]]; [reflexivity |].
  by rewrite lookup_empty in Hlook.
Qed.

Lemma getSites_lists_the_store_witness :
  well_keyed Sample.world_site /\
  exists sites,
    getSites Sample.world_site = Resolved sites /\
    length sites = size (db_sites Sample.world_site) /\
    NoDup (fs_id <$> sites).
Proof.
  split; [exact sample_world_site_keyed |].
  destruct (getSites_lists_the_store Sample.world_site sample_world_site_keyed)
    as (sites & Hsites & Hlen & _ & Hids).
  exists sites. split; [exact Hsites | split; [exact Hlen | exact Hids]].
Defined.

Lemma sites_store_stays_keyed_witness :
  well_keyed Sample.world_site /\
  well_keyed (@newSite Demo.env Sample.world_site "https://moodle.example.org" "t0k3n").2 /\
  well_keyed (deleteSite Demo.cleanup Sample.world_site "f00").2.
Proof.
  split; [exact sample_world_site_keyed |].
  destruct (@sites_store_stays_keyed Demo.env Sample.world_site
              "https://moodle.example.org" "t0k3n" "f00" Demo.cleanup
              sample_world_site_keyed (fun id w0 H => H))
    as (Hnew & _ & _ & Hdelete).
  split; [exact Hnew | exact Hdelete].
Defined.

Lemma deleteSite_removes_the_row_witness :
  (Demo.cleanup "f00" Sample.world_site = (Resolved tt, Sample.world_site)) /\
  (deleteSite Demo.cleanup Sample.world_site "f00").1 = Resolved tt /\
  getSiteURL (deleteSite Demo.cleanup Sample.world_site "f00").2 (Some "f00") =
    Resolved None.
Proof.
  split; [reflexivity |].
  destruct (deleteSite_removes_the_row Sample.world_site Sample.world_site "f00"
              (Resolved tt) Demo.cleanup eq_refl eq_refl) as (Hr & Hurl & _).
  split; [exact Hr | exact Hurl].
Defined.

Lemma logout_keeps_the_sites_witness :
  db_sites Sample.world_site !! "f00" = Some Sample.site /\
  (loadSite (logout Sample.world_site).2 "f00").1 = Resolved tt.
Proof.
  assert (db_sites Sample.world_site !! "f00" = Some Sample.site) as H
    by (vm_compute; reflexivity).
  split; [exact H |].
  exact (proj1 (proj2 (proj2 (proj2 (proj2
           (logout_keeps_the_sites Sample.world_site "f00" Sample.site H)))))).
Defined.

Lemma restoreSession_restores_the_login_witness :
  let w := login "f00" Sample.world_site in
  (db_current w !! 1%Z = Some "f00" /\ db_sites w !! "f00" = Some Sample.site) /\
  (restoreSession {| world := w; sessionRestored := false |}).1 = Resolved tt.
Proof.
  intros w.
  assert (db_current w !! 1%Z = Some "f00") as H1 by (vm_compute; reflexivity).
  assert (db_sites w !! "f00" = Some Sample.site) as H2 by (vm_compute; reflexivity).
  split; [by split |].
  exact (proj1 (restoreSession_restores_the_login w "f00" Sample.site H1 H2)).
Defined.

(** * Further properties of the file cache helper *)

Section MoodleFileMore.

Context {E : Env}.


(** X10. Online, with the file not in the cache and a download that
    succeeds, [getMoodleFilePath] resolves with the internal URL of the
    downloaded file after one download; a second call resolves with the
    same URL from the cache and downloads nothing. *)
Theorem getMoodleFilePath_downloads_once (w : World) (fileurl siteId internalURL : string)
    (courseId : jsarg) (site : SiteRecord) :
  fileurl <> "" -> truthy_arg courseId = true -> siteId <> "" ->
  db_sites w !! siteId = Some site ->
  network w = Online ->
  files w !! path_file siteId courseId fileurl = None ->
  download (fixPluginfileURL fileurl (rec_token site)) (path_file siteId courseId fileurl) =
    Resolved internalURL ->
  let first := getMoodleFilePath w (Some fileurl) courseId (Some siteId) in
  let second := getMoodleFilePath first.2 (Some fileurl) courseId (Some siteId) in
  first.1 = Resolved internalURL /\
  requests first.2 =
    (requests w ++ [Download (fixPluginfileURL fileurl (rec_token site))
                      (path_file siteId courseId fileurl)])%list /\
  second.1 = Resolved internalURL /\
  second.2 = first.2.
Proof.
  intros Hfile Hcourse Hsite Hstored Honline Hcache Hdownload.
  unfold getMoodleFilePath, db_get_site.
  destruct fileurl as [|c0 f0]; [done |]. destruct siteId as [|s0 s1]; [done |].
  cbv zeta. rewrite Hcourse, Hstored, Hcache, Honline, Hdownload. cbn [fst snd].
  split; [reflexivity |]. split; [reflexivity |].
  cbn [db_sites set_files log_request files]. rewrite Hstored, lookup_insert_eq.
  by split.
Qed.

End MoodleFileMore.

Lemma getMoodleFilePath_downloads_once_witness :
  let fileurl := "https://moodle.example.org/pluginfile.php/5/user/icon/f1.png" in
  (db_sites Demo.online !! "f00" = Some Sample.site /\ network Demo.online = Online) /\
  (@getMoodleFilePath Demo.env Demo.online (Some fileurl) (JNumber 5) (Some "f00")).1 =
    Resolved ("cdvfile://localhost/persistent/" ++
              @path_file Demo.env "f00" (JNumber 5) fileurl) /\
  (@getMoodleFilePath Demo.env
     (@getMoodleFilePath Demo.env Demo.online (Some fileurl) (JNumber 5) (Some "f00")).2
     (Some fileurl) (JNumber 5) (Some "f00")).2 =
  (@getMoodleFilePath Demo.env Demo.online (Some fileurl) (JNumber 5) (Some "f00")).2.
Proof.
  intros fileurl.
  assert (db_sites Demo.online !! "f00" = Some Sample.site) as H2
    by (vm_compute; reflexivity).
  assert (files Demo.online !! @path_file Demo.env "f00" (JNumber 5) fileurl = None) as H3
    by (vm_compute; reflexivity).
  assert (fileurl <> "") as H0 by discriminate.
  assert ("f00" <> "") as H1 by discriminate.
  split; [by split |].
  destruct (@getMoodleFilePath_downloads_once Demo.env Demo.online fileurl "f00"
              ("cdvfile://localhost/persistent/" ++
               @path_file Demo.env "f00" (JNumber 5) fileurl)
              (JNumber 5) Sample.site H0 eq_refl H1 H2 eq_refl H3 eq_refl)
    as (Hf & _ & _ & Hs).
  split; [exact Hf | exact Hs].
Defined.

(** * Further properties of the site check and the token request *)

Section CheckSiteMore.

Context {E : Env}.

Lemma replaceScheme_formatURL (protocol u : string) :
  replaceScheme protocol (formatURL u) = protocol ++ without_scheme u.
Proof.
  unfold formatURL, without_scheme.
  destruct (scheme_length u) as [n|] eqn:Hu.
  - unfold replaceScheme. by rewrite Hu.
  - reflexivity.
Qed.

(** X11. Whatever scheme the URL is entered with ([http://], [https://],
    in any letter case, or none), [checkSite] probes the https address
    first and the http address only when that probe fails, once; the URL
    it resolves with is the entered one with the scheme replaced by the
    lower-case scheme that answered. *)
Theorem checkSite_tries_https_first (fuel : nat) (w : World) (u : string) :
  (indexOf (formatURL u) "://localhost" =? -1)%Z
    && negb (isValidURL (formatURL u)) = false ->
  (indexOf ("https://" ++ without_scheme u) "://localhost" =? -1)%Z
    && negb (isValidURL ("https://" ++ without_scheme u)) = false ->
  (2 <= fuel)%nat ->
  let https := "https://" ++ without_scheme u in
  let http := "http://" ++ without_scheme u in
  checkSite fuel w u None =
    if http_head (https ++ "/login/token.php") then
      Some (checkSite_found (log_request (Head (https ++ "/login/token.php")) w) https)
    else if http_head (http ++ "/login/token.php") then
      Some (checkSite_found
              (log_request (Head (http ++ "/login/token.php"))
                 (log_request (Head (https ++ "/login/token.php")) w)) http)
    else
      Some (Rejected (ErrKey "mm.core.cannotconnect"),
            log_request (Head (http ++ "/login/token.php"))
              (log_request (Head (https ++ "/login/token.php")) w)).
Proof.
  intros Hvalid Hvalid' Hfuel https http.
  destruct fuel as [|[|fuel]]; [lia | lia |].
  cbn [checkSite]. rewrite Hvalid, replaceScheme_formatURL. fold https.
  unfold siteExists. cbv beta iota zeta.
  destruct (http_head (https ++ "/login/token.php")) eqn:Hhttps; [reflexivity |].
  rewrite indexOf_zero.
  change (starts_with "https://" https) with true. cbv iota.
  change (formatURL https) with https. fold https in Hvalid'. rewrite Hvalid'.
  change (replaceScheme (if truthy_string "http://" then "http://" else "https://") https)
    with http.
  destruct (http_head (http ++ "/login/token.php")) eqn:Hhttp; [reflexivity |].
  rewrite indexOf_zero. reflexivity.
Qed.

(** X12. The plugin probe changes nothing but the request log and the
    cache of services, and the cache only when the answer carries a code
    and no error flag: then the configured extended service is stored in
    [services] under exactly the probed URL and the promise resolves.  A
    rejected or unsettled probe caches nothing. *)
Theorem checkMobileLocalPlugin_caches_on_success_only (w : World) (siteurl : string) :
  let r := (checkMobileLocalPlugin w siteurl).1 in
  let w' := (checkMobileLocalPlugin w siteurl).2 in
  same_db w w' /\ config w' = config w /\ currentSite w' = currentSite w /\
  files w' = files w /\ network w' = network w /\ globals w' = globals w /\
  (services w' = services w \/
   exists service c,
     config w !! "wsextservice" = Some service /\
     post_check (siteurl ++ "/local/mobile/check.php") service =
       Some (CheckObj (Some c) false) /\
     services w' = JSObject.set siteurl service (services w) /\
     r = Resolved (parseInt10 c)) /\
  (r = Pending \/ (exists e, r = Rejected e) -> services w' = services w).
Proof.
  unfold checkMobileLocalPlugin, config_get.
  destruct (config w !! "wsextservice") as [service|] eqn:Hconfig; cbv zeta;
    [|repeat split; auto].
  destruct (post_check _ service) as [[|text|[c|] [|]]|] eqn:Hpost;
    try (repeat split; auto; fail).
  - destruct (parseInt10 c) as [[|[[|[]|]|[[]|[]|]|]|]|]; repeat split; auto.
  - cbn [fst snd]. repeat split.
    + right. by exists service, c.
    + intros [H|[e H]]; discriminate.
Qed.

Lemma replace_http_no_https (x : string) :
  ~ contains x "https://" -> replace "https://" "http://" ("http://" ++ x) = "http://" ++ x.
Proof.
  intros Hn. apply replace_no_match. intros (pre & post & H).
  do 7 (destruct pre as [|? pre]; [discriminate H | injection H as <- H]).
  apply Hn. by exists pre, post.
Qed.

(** X13. The service a successful plugin probe cached is the one
    [determineService] answers with for the probed URL afterwards: for an
    http URL always, for an https URL unless a service is cached for its
    http twin, which [determineService] looks up first. *)
Theorem determineService_after_probe (w : World) (siteurl x service : string)
    (c : CodeVal) :
  config w !! "wsextservice" = Some service ->
  truthy_string service = true ->
  post_check (siteurl ++ "/local/mobile/check.php") service =
    Some (CheckObj (Some c) false) ->
  (siteurl = "http://" ++ x /\ ~ contains x "https://") \/
  (siteurl = "https://" ++ x /\ cached_service w ("http://" ++ x) = None) ->
  (checkMobileLocalPlugin w siteurl).1 = Resolved (parseInt10 c) /\
  determineService (checkMobileLocalPlugin w siteurl).2 siteurl =
    Resolved (ServiceName service).
Proof.
  intros Hconfig Htruthy Hpost Hurl.
  unfold checkMobileLocalPlugin, config_get. rewrite Hconfig. cbv zeta.
  rewrite Hpost. cbn [fst snd]. split; [reflexivity |].
  unfold determineService, cached_service. cbn [services set_services log_request].
  destruct Hurl as [[-> Hx]|[-> Hhttp]].
  - change (JSObject.set ("http://" ++ x) service (services w))
      with (<[("http://" ++ x) := service]> (services w)).
    rewrite (replace_http_no_https x Hx), lookup_insert_eq. by rewrite Htruthy.
  - change (JSObject.set ("https://" ++ x) service (services w))
      with (<[("https://" ++ x) := service]> (services w)).
    change (replace "https://" "http://" ("https://" ++ x)) with ("http://" ++ x).
    rewrite lookup_insert_ne by discriminate.
    unfold cached_service in Hhttp. rewrite Hhttp.
    change (replace "http://" "https://" ("http://" ++ x)) with ("https://" ++ x).
    rewrite lookup_insert_eq. by rewrite Htruthy.
Qed.

(** X14. Without a global [logindata], a token [getUserToken] resolves
    with is the one the token endpoint of the given URL sent in answer to
    the given credentials and the service [determineService] chose, and
    that request is the only one made. *)
Theorem getUserToken_resolves_with_the_server_token (fuel : nat) (w w' : World)
    (siteurl username password token : string) (retry : bool) :
  "logindata" ∉ globals w ->
  getUserToken fuel w siteurl username password retry = Some (Resolved token, w') ->
  exists service response,
    determineService w siteurl = Resolved service /\
    post_token (siteurl ++ "/login/token.php") username password service = Some response /\
    r_token response = Some token /\
    w' = log_request (PostToken (siteurl ++ "/login/token.php") username password service) w.
Proof.
  intros Hglobal. destruct fuel as [|fuel]; [discriminate |]. cbn [getUserToken].
  destruct (determineService w siteurl) as [service|e|]; try discriminate.
  destruct (post_token _ _ _ _) as [response|] eqn:Hpost; [|discriminate].
  destruct (r_token response) as [t|] eqn:Htoken.
  - intros [= <- <-]. by exists service, response.
  - destruct (r_error response); [|discriminate].
    destruct (negb retry && _); [|discriminate].
    by rewrite bool_decide_eq_false_2.
Qed.

Lemma colon_free_app (a b : string) :
  colon_free (a ++ b) = colon_free a && colon_free b.
Proof.
  induction a as [|c a IH]; [reflexivity |].
  change (String c a ++ b) with (String c (a ++ b)). cbn [colon_free].
  by rewrite IH, andb_assoc.
Qed.

Lemma inherited_member (k : string) :
  JSObject.inherited k = true -> In k JSObject.prototype_members.
Proof.
  unfold JSObject.inherited. intros H. apply existsb_exists in H as (name & Hin & Heq).
  apply String.eqb_eq in Heq. by subst.
Qed.

(** No member of [Object.prototype] has a colon in its name. *)
Lemma inherited_colon_free (k : string) :
  JSObject.inherited k = true -> colon_free k = true.
Proof.
  intros H. apply inherited_member in H. unfold JSObject.prototype_members in H.
  repeat (destruct H as [<-|H]; [reflexivity |]). destruct H.
Qed.

(** A replacement leaves the text as it is or puts the new text in. *)
Lemma replace_same_or_inserts (pat rep s : string) :
  replace pat rep s = s \/ exists pre post, replace pat rep s = pre ++ rep ++ post.
Proof.
  induction s as [|c s IH]; cbn [replace].
  - destruct (starts_with pat ""); [right; by exists "", (drop (String.length pat) "") |].
    by left.
  - destruct (starts_with pat (String c s)).
    + right. by exists "", (drop (String.length pat) (String c s)).
    + destruct IH as [->|(pre & post & ->)]; [by left |].
      right. by exists (String c pre), post.
Qed.

Lemma replace_not_inherited (pat rep s : string) :
  colon_free rep = false -> JSObject.inherited s = false ->
  JSObject.inherited (replace pat rep s) = false.
Proof.
  intros Hrep Hs. destruct (replace_same_or_inserts pat rep s) as [->|(pre & post & ->)];
    [exact Hs |].
  destruct (JSObject.inherited (pre ++ rep ++ post)) eqn:H; [|reflexivity].
  apply inherited_colon_free in H. rewrite !colon_free_app, Hrep in H.
  by destruct (colon_free pre).
Qed.

(** X15. When no service is cached and the default service is not
    configured, [getUserToken] rejects without sending a request, unless
    the URL is the name of a member that the object [services] inherits
    ([toString], [constructor], ...): for such a URL [determineService]
    resolves with that member although nothing is cached. *)
Theorem getUserToken_without_service_sends_nothing (fuel : nat) (w : World)
    (siteurl username password : string) (retry : bool) :
  services w = ∅ -> config w !! "wsservice" = None ->
  (JSObject.inherited siteurl = false ->
   getUserToken (S fuel) w siteurl username password retry =
     Some (Rejected (ErrVal VUndefined), w)) /\
  (JSObject.inherited siteurl = true ->
   determineService w siteurl = Resolved (InheritedMember siteurl)).
Proof.
  intros Hcache Hconfig. split.
  - intros Hurl. cbn [getUserToken].
    unfold determineService, cached_service, config_get.
    rewrite Hcache, !lookup_empty, Hconfig.
    assert (JSObject.inherited (replace "https://" "http://" siteurl) = false) as H1
      by (apply replace_not_inherited; [reflexivity | exact Hurl]).
    assert (JSObject.inherited
              (replace "http://" "https://" (replace "https://" "http://" siteurl)) = false)
      as H2 by (apply replace_not_inherited; [reflexivity | exact H1]).
    by rewrite H1, H2.
  - intros Hurl. apply inherited_member in Hurl.
    unfold determineService, cached_service. rewrite Hcache, !lookup_empty.
    unfold JSObject.prototype_members in Hurl.
    repeat (destruct Hurl as [<-|Hurl]; [reflexivity |]). destruct Hurl.
Qed.

End CheckSiteMore.

Lemma checkSite_tries_https_first_witness :
  ((indexOf (formatURL "HTTP://moodle.example.org") "://localhost" =? -1)%Z
     && negb (@isValidURL Demo.env (formatURL "HTTP://moodle.example.org")) = false) /\
  without_scheme "HTTP://moodle.example.org" = "moodle.example.org" /\
  match @checkSite Demo.env 2 Demo.online "HTTP://moodle.example.org" None with
  | Some (Resolved res, _) => Some (res_siteurl res)
  | _ => None
  end = Some "https://moodle.example.org".
Proof.
  split; [reflexivity |]. split; [reflexivity |].
  rewrite (@checkSite_tries_https_first Demo.env 2 Demo.online "HTTP://moodle.example.org"
             eq_refl eq_refl (le_n 2)).
  vm_compute. reflexivity.
Defined.

Lemma determineService_after_probe_witness :
  (config Demo.online !! "wsextservice" = Some "local_mobile" /\
   cached_service Demo.online ("http://" ++ "moodle.example.org") = None) /\
  @determineService
    (@checkMobileLocalPlugin Demo.env Demo.online "https://moodle.example.org").2
    "https://moodle.example.org" = Resolved (ServiceName "local_mobile").
Proof.
  assert (config Demo.online !! "wsextservice" = Some "local_mobile") as H1
    by (vm_compute; reflexivity).
  assert (cached_service Demo.online ("http://" ++ "moodle.example.org") = None) as H2
    by (vm_compute; reflexivity).
  split; [by split |].
  exact (proj2 (@determineService_after_probe Demo.env Demo.online
                  "https://moodle.example.org" "moodle.example.org" "local_mobile"
                  (CodeStr "1") H1 eq_refl eq_refl (or_intror (conj eq_refl H2)))).
Defined.

Lemma getUserToken_resolves_with_the_server_token_witness :
  exists w',
    (("logindata" ∉ globals Demo.online) /\
     @getUserToken Demo.env 1 Demo.online "https://moodle.example.org" "student" "secret"
       false = Some (Resolved "t0k3n", w')) /\
    exists service response,
      @determineService Demo.online "https://moodle.example.org" = Resolved service /\
      @post_token Demo.env ("https://moodle.example.org" ++ "/login/token.php") "student"
        "secret" service = Some response /\
      r_token response = Some "t0k3n".
Proof.
  eexists.
  assert ("logindata" ∉ globals Demo.online) as H1 by (apply not_elem_of_empty).
  split; [split; [exact H1 | vm_compute; reflexivity] |].
  destruct (@getUserToken_resolves_with_the_server_token Demo.env 1 Demo.online _
              "https://moodle.example.org" "student" "secret" "t0k3n" false H1 eq_refl)
    as (service & response & Hs & Hp & Ht & _).
  by exists service, response.
Defined.

Lemma getUserToken_without_service_sends_nothing_witness :
  (services Demo.unconfigured = ∅ /\ config Demo.unconfigured !! "wsservice" = None /\
   JSObject.inherited "https://moodle.example.org" = false) /\
  @getUserToken Demo.env 1 Demo.unconfigured "https://moodle.example.org" "student"
    "secret" false = Some (Rejected (ErrVal VUndefined), Demo.unconfigured).
Proof.
  split; [repeat split; reflexivity |].
  exact (proj1 (@getUserToken_without_service_sends_nothing Demo.env 0 Demo.unconfigured
                  "https://moodle.example.org" "student" "secret" false eq_refl eq_refl)
               eq_refl).
Defined.

(** * Further properties of the login module *)

Section LoginMore.

Context {E : Env} {B : Browser}.

(** [split] always yields a first field. *)
Lemma split_go_nonempty (sep s : string) (skip : nat) (cur : string) :
  exists first rest, split_go sep s skip cur = first :: rest.
Proof.
  revert skip cur. induction s as [|c s IH]; intros skip cur.
  - by eexists _, _.
  - cbn [split_go]. destruct skip; [|apply IH].
    destruct (starts_with sep (String c s)); [eexists _, _; reflexivity | apply IH].
Qed.

(** X16. The validator judges the text before the first ":::" only: with
    both fields stored it accepts a payload, of whatever shape, exactly
    when that text is one of the two signatures; the token it returns is
    the text between the first and the second ":::", and [undefined] when
    the payload has no ":::". *)
Theorem validateBrowserSSOLogin_reads_two_fields (w : World)
    (payload launchSiteURL passport : string) :
  config w !! "mmLoginLaunchSiteURL" = Some launchSiteURL ->
  config w !! "mmLoginLaunchPassport" = Some passport ->
  exists signature rest,
    split ":::" payload = signature :: rest /\
    (validateBrowserSSOLogin w payload).1 =
      (if decide (signature = md5 (launchSiteURL ++ passport)) then
         Resolved {| sso_siteurl := launchSiteURL; sso_token := rest !! 0%nat |}
       else if decide (signature = md5 (swap_scheme launchSiteURL ++ passport)) then
         Resolved {| sso_siteurl := swap_scheme launchSiteURL; sso_token := rest !! 0%nat |}
       else Rejected (ErrKey "mm.core.unexpectederror")).
Proof.
  intros Hurl Hpass.
  assert (exists signature rest, split ":::" payload = signature :: rest)
    as (signature & rest & Hsplit).
  { apply split_go_nonempty. }
  exists signature, rest. split; [exact Hsplit |].
  unfold validateBrowserSSOLogin, config_get. rewrite Hurl, Hpass, Hsplit. simpl.
  destruct (decide (signature = md5 (launchSiteURL ++ passport))) as [->|Hne].
  - rewrite bool_decide_eq_false_2 by (intros H; by apply H).
    by rewrite bool_decide_eq_true_2.
  - rewrite bool_decide_eq_true_2 by congruence.
    destruct (decide (signature = md5 (swap_scheme launchSiteURL ++ passport)))
      as [->|Hne'].
    + by rewrite bool_decide_eq_true_2.
    + by rewrite bool_decide_eq_false_2 by congruence.
Qed.

(** X17. A callback cannot be replayed: after a validation that found both
    fields stored, accepted or not, every further validation is rejected
    and changes nothing. *)
Theorem validateBrowserSSOLogin_no_replay (w : World)
    (payload payload' launchSiteURL passport : string) :
  config w !! "mmLoginLaunchSiteURL" = Some launchSiteURL ->
  config w !! "mmLoginLaunchPassport" = Some passport ->
  validateBrowserSSOLogin (validateBrowserSSOLogin w payload).2 payload' =
    (Rejected (ErrVal VUndefined), (validateBrowserSSOLogin w payload).2).
Proof.
  intros Hurl Hpass.
  assert (config (validateBrowserSSOLogin w payload).2 !! "mmLoginLaunchSiteURL" = None)
    as Hgone.
  { unfold validateBrowserSSOLogin, config_get. rewrite Hurl, Hpass.
    destruct (bool_decide _); simpl; destruct (bool_decide _); simpl;
      unfold config_delete; simpl;
      by (rewrite lookup_delete_ne by done; rewrite lookup_delete_eq). }
  unfold validateBrowserSSOLogin at 1, config_get. by rewrite Hgone.
Qed.

(** X18. The validator rejects and leaves the state as it is exactly when
    one of the two fields is not stored: then the field that is stored
    stays stored.  In every other case the stored launch is used up: the
    state it leaves is the one before with both fields deleted, whatever
    the payload. *)
Theorem validateBrowserSSOLogin_missing_state (w : World) (payload : string) :
  (validateBrowserSSOLogin w payload = (Rejected (ErrVal VUndefined), w) <->
   config w !! "mmLoginLaunchSiteURL" = None \/
   config w !! "mmLoginLaunchPassport" = None) /\
  (forall launchSiteURL passport,
     config w !! "mmLoginLaunchSiteURL" = Some launchSiteURL ->
     config w !! "mmLoginLaunchPassport" = Some passport ->
     (validateBrowserSSOLogin w payload).2 =
       config_delete "mmLoginLaunchPassport" (config_delete "mmLoginLaunchSiteURL" w)).
Proof.
  split.
  2:{ intros launchSiteURL passport Hurl Hpass.
      unfold validateBrowserSSOLogin, config_get. rewrite Hurl, Hpass.
      by destruct (bool_decide (Some (md5 (launchSiteURL ++ passport)) <> _)),
           (bool_decide (Some _ = _)). }
  unfold validateBrowserSSOLogin, config_get. split.
  - destruct (config w !! "mmLoginLaunchSiteURL") as [launchSiteURL|] eqn:Hurl; [|by left].
    destruct (config w !! "mmLoginLaunchPassport") as [passport|] eqn:Hpass; [|by right].
    intros H. exfalso.
    assert (config (config_delete "mmLoginLaunchPassport"
                      (config_delete "mmLoginLaunchSiteURL" w)) !! "mmLoginLaunchSiteURL"
            = Some launchSiteURL) as Hstill.
    { destruct (bool_decide (Some (md5 (launchSiteURL ++ passport)) <> _)),
        (bool_decide (Some _ = _)) in H; try discriminate;
        injection H as H; by rewrite H. }
    unfold config_delete in Hstill. simpl in Hstill.
    rewrite lookup_delete_ne in Hstill by done. by rewrite lookup_delete_eq in Hstill.
  - intros [->| ->]; [reflexivity |]. by destruct (config w !! "mmLoginLaunchSiteURL").
Qed.


(** X20. A launch URL whose decoded payload is "signature:::token" with
    the signature of the stored URL and passport registers the site: when
    the site information is fetched and passes the version gate, the site
    is stored under [md5(url + username)] with the stored URL and the
    received token, it is the current site, and the two stored fields are
    consumed. *)
Theorem mmLoginSSO_registers_the_site (w : World)
    (url decoded launchSiteURL passport token : string) (rest : list string)
    (infos : SiteInfo) :
  indexOf url "moodlemobile://token=" <> (-1)%Z ->
  atob (replace "moodlemobile://token=" "" url) = Some decoded ->
  config w !! "mmLoginLaunchSiteURL" = Some launchSiteURL ->
  config w !! "mmLoginLaunchPassport" = Some passport ->
  split ":::" decoded = md5 (launchSiteURL ++ passport) :: token :: rest ->
  fetchSiteInfo launchSiteURL token = Resolved infos ->
  isValidMoodleVersion (functions infos) = true ->
  let siteid := md5 (launchSiteURL ++ username infos) in
  (mmLoginSSO w url).1 = Handled (Resolved tt) /\
  db_sites (mmLoginSSO w url).2 !! siteid =
    Some {| rec_id := siteid; rec_siteurl := launchSiteURL; rec_token := token;
            rec_infos := infos |} /\
  db_current (mmLoginSSO w url).2 !! 1%Z = Some siteid /\
  site_id <$> currentSite (mmLoginSSO w url).2 = Some (Some siteid) /\
  config (mmLoginSSO w url).2 !! "mmLoginLaunchSiteURL" = None /\
  config (mmLoginSSO w url).2 !! "mmLoginLaunchPassport" = None.
Proof.
  intros Hscheme Hatob Hurl Hpass Hsplit Hfetch Hvalid siteid.
  unfold mmLoginSSO. apply Z.eqb_neq in Hscheme. rewrite Hscheme, Hatob.
  unfold validateBrowserSSOLogin, config_get. rewrite Hurl, Hpass, Hsplit.
  cbn [lookup list_lookup].
  rewrite bool_decide_eq_false_2 by (intros H; by apply H). cbv zeta.
  rewrite bool_decide_eq_true_2 by done. cbn [sso_token sso_siteurl].
  unfold newSite. rewrite Hfetch, Hvalid. cbn [fst snd].
  unfold config_delete. simpl. fold siteid.
  rewrite !lookup_insert_eq.
  rewrite lookup_delete_ne by done. rewrite !lookup_delete_eq. by repeat split.
Qed.

(** X21. The observer leaves a URL to the other handlers exactly when the
    URL does not contain the SSO scheme or its payload cannot be decoded,
    and then it changes nothing: a pending launch stays pending. *)
Theorem mmLoginSSO_ignores_other_urls (w : World) (url : string) :
  ((mmLoginSSO w url).1 = NotHandled <->
   indexOf url "moodlemobile://token=" = (-1)%Z \/
   atob (replace "moodlemobile://token=" "" url) = None) /\
  ((mmLoginSSO w url).1 = NotHandled -> (mmLoginSSO w url).2 = w).
Proof.
  unfold mmLoginSSO. destruct (indexOf url _ =? -1)%Z eqn:Hscheme.
  - apply Z.eqb_eq in Hscheme. split; [split; [by left | reflexivity] | reflexivity].
  - apply Z.eqb_neq in Hscheme.
    destruct (atob (replace "moodlemobile://token=" "" url)) as [decoded|] eqn:Hatob.
    + destruct (validateBrowserSSOLogin w decoded) as [[sitedata|e|] w1].
      * destruct (sso_token sitedata) as [token|].
        -- destruct (newSite w1 (sso_siteurl sitedata) token) as [r w2].
           split; [split; [discriminate | by intros [?|?]] | discriminate].
        -- split; [split; [discriminate | by intros [?|?]] | discriminate].
      * split; [split; [discriminate | by intros [?|?]] | discriminate].
      * split; [split; [discriminate | by intros [?|?]] | discriminate].
    + split; [split; [by right | reflexivity] | reflexivity].
Qed.

End LoginMore.

(** X22. The redirection of state changes cannot loop: a transition is
    redirected to the login page only when the user is logged out and
    to the courses page only when logged in, and the state it is
    redirected to is one the listener lets through; transitions that are
    let through are those to login states when logged out and to other
    states when logged in. *)
Theorem stateChangeStart_does_not_loop (isLoggedIn : bool) (toState_name : string) :
  (forall target,
     stateChangeStart isLoggedIn toState_name = Some target ->
     stateChangeStart isLoggedIn target = None /\
     target = (if isLoggedIn then "site.mm_courses" else "mm_login.init")) /\
  (stateChangeStart isLoggedIn toState_name = None <->
   String.eqb (take 8 toState_name) "mm_login" = negb isLoggedIn).
Proof.
  unfold stateChangeStart.
  destruct (String.eqb (take 8 toState_name) "mm_login"), isLoggedIn; simpl; split;
    try (intros target [= <-]; split; reflexivity);
    try (intros target H; discriminate);
    split; intros H; done.
Qed.

Lemma validateBrowserSSOLogin_reads_two_fields_witness :
  (config Sample.world !! "mmLoginLaunchSiteURL" = Some "https://moodle.example.org" /\
   config Sample.world !! "mmLoginLaunchPassport" = Some "417.3") /\
  exists signature rest,
    split ":::" (Sample.hash "https://moodle.example.org417.3") = signature :: rest /\
    (@validateBrowserSSOLogin Sample.env Sample.world
       (Sample.hash "https://moodle.example.org417.3")).1 =
      Resolved {| sso_siteurl := "https://moodle.example.org"; sso_token := None |}.
Proof.
  assert (config Sample.world !! "mmLoginLaunchSiteURL" = Some "https://moodle.example.org")
    as H1 by (vm_compute; reflexivity).
  assert (config Sample.world !! "mmLoginLaunchPassport" = Some "417.3")
    as H2 by (vm_compute; reflexivity).
  split; [by split |].
  destruct (@validateBrowserSSOLogin_reads_two_fields Sample.env Sample.world
              (Sample.hash "https://moodle.example.org417.3") _ _ H1 H2)
    as (signature & rest & Hsplit & Hres).
  exists signature, rest. split; [exact Hsplit |].
  rewrite Hres. vm_compute in Hsplit. injection Hsplit as <- <-. reflexivity.
Defined.

Lemma validateBrowserSSOLogin_no_replay_witness :
  let payload := Sample.hash "https://moodle.example.org417.3" ++ ":::" ++ "t0k3n" in
  (config Sample.world !! "mmLoginLaunchSiteURL" = Some "https://moodle.example.org" /\
   config Sample.world !! "mmLoginLaunchPassport" = Some "417.3") /\
  (@validateBrowserSSOLogin Sample.env
     (@validateBrowserSSOLogin Sample.env Sample.world payload).2 payload).1 =
    Rejected (ErrVal VUndefined).
Proof.
  intros payload.
  assert (config Sample.world !! "mmLoginLaunchSiteURL" = Some "https://moodle.example.org")
    as H1 by (vm_compute; reflexivity).
  assert (config Sample.world !! "mmLoginLaunchPassport" = Some "417.3")
    as H2 by (vm_compute; reflexivity).
  split; [by split |].
  by rewrite (@validateBrowserSSOLogin_no_replay Sample.env Sample.world payload payload
                _ _ H1 H2).
Defined.

Lemma validateBrowserSSOLogin_missing_state_witness :
  config Demo.unconfigured !! "mmLoginLaunchSiteURL" = None /\
  @validateBrowserSSOLogin Sample.env Demo.unconfigured "0123456789abcdef:::t0k3n" =
    (Rejected (ErrVal VUndefined), Demo.unconfigured).
Proof.
  split; [reflexivity |].
  exact (proj2 (proj1 (@validateBrowserSSOLogin_missing_state Sample.env Demo.unconfigured
                         "0123456789abcdef:::t0k3n")) (or_introl eq_refl)).
Defined.


Lemma mmLoginSSO_registers_the_site_witness :
  (indexOf "moodlemobile://token=Z29vZA==" "moodlemobile://token=" <> (-1)%Z /\
   @atob Demo.browser (replace "moodlemobile://token=" "" "moodlemobile://token=Z29vZA==") =
     Some (Sample.hash "https://moodle.example.org417.3" ++ ":::" ++ "t0k3n")) /\
  (@mmLoginSSO Demo.env Demo.browser Sample.world "moodlemobile://token=Z29vZA==").1 =
    Handled (Resolved tt) /\
  db_current (@mmLoginSSO Demo.env Demo.browser Sample.world
                "moodlemobile://token=Z29vZA==").2 !! 1%Z =
    Some (Sample.hash "https://moodle.example.orgstudent").
Proof.
  assert (indexOf "moodlemobile://token=Z29vZA==" "moodlemobile://token=" <> (-1)%Z) as H0
    by (vm_compute; discriminate).
  assert (config Sample.world !! "mmLoginLaunchSiteURL" = Some "https://moodle.example.org")
    as H1 by (vm_compute; reflexivity).
  assert (config Sample.world !! "mmLoginLaunchPassport" = Some "417.3")
    as H2 by (vm_compute; reflexivity).
  split; [split; [exact H0 | reflexivity] |].
  destruct (@mmLoginSSO_registers_the_site Demo.env Demo.browser Sample.world
              "moodlemobile://token=Z29vZA=="
              (Sample.hash "https://moodle.example.org417.3" ++ ":::" ++ "t0k3n")
              "https://moodle.example.org" "417.3" "t0k3n" [] Sample.infos
              H0 eq_refl H1 H2 eq_refl eq_refl eq_refl)
    as (Hr & _ & Hcur & _).
  split; [exact Hr | exact Hcur].
Defined.

Lemma mmLoginSSO_ignores_other_urls_witness :
  indexOf "https://moodle.example.org/my" "moodlemobile://token=" = (-1)%Z /\
  (@mmLoginSSO Demo.env Demo.browser Sample.world "https://moodle.example.org/my").2 =
    Sample.world.
Proof.
  split; [reflexivity |].
  destruct (@mmLoginSSO_ignores_other_urls Demo.env Demo.browser Sample.world
              "https://moodle.example.org/my") as [Hiff Hsame].
  exact (Hsame (proj2 Hiff (or_introl eq_refl))).
Defined.

Lemma stateChangeStart_does_not_loop_witness :
  stateChangeStart false "site.mm_courses" = Some "mm_login.init" /\
  stateChangeStart false "mm_login.init" = None.
Proof.
  split; [reflexivity |].
  exact (proj1 (proj1 (stateChangeStart_does_not_loop false "site.mm_courses")
                  "mm_login.init" eq_refl)).
Defined.

(** * Further properties of the web-service client *)

Section CallMore.

Context {T : Transport}.


Lemma decode_defined (j : json) (h h' : heap) (v : val) :
  decode h j = (h', v) -> defined v = true.
Proof.
  destruct j; cbn [decode]; try by intros [= <- <-].
  - destruct (decode_items _ _ _ _ _). by intros [= <- <-].
  - destruct (decode_fields _ _ _ _). by intros [= <- <-].
Qed.

Lemma decode_fields_defined (k : string) (fields : list (string * json)) :
  forall h acc h' ps,
    decode_fields decode fields h acc = (h', ps) ->
    k ∈ fields.*1 \/ defined (assoc_get k acc) = true ->
    defined (assoc_get k ps) = true.
Proof.
  induction fields as [|[k0 j] fields IH]; intros h acc h' ps; simpl.
  - intros [= <- <-] [Hin|Hacc]; [inversion Hin | exact Hacc].
  - destruct (decode h j) as [h1 v] eqn:Hd. intros Hgo Hk. apply (IH _ _ _ _ Hgo).
    destruct (decide (k = k0)) as [->|Hne].
    + right. rewrite assoc_get_set. exact (decode_defined _ _ _ _ Hd).
    + rewrite assoc_get_set_ne by done.
      destruct Hk as [Hin|Hacc]; [|by right].
      apply elem_of_cons in Hin as [Hin|Hin]; [done | by left].
Qed.

Lemma call_sends_request (fuel : nat) (h : heap) (net : Network) (method : string)
    (data : val) (u t : string) (re : bool) :
  net <> Offline ->
  call fuel h net method data
    (Some {| siteurl := Some u; wstoken := Some t; responseExpected := re |}) =
  match request fuel h method data u t with
  | None => None
  | Some (url, hreq, ajaxData) =>
      match http_post url hreq (VRef ajaxData) with
      | Some body =>
          let '(h, response) := receive hreq body in call_success fuel h re response
      | None => Some (Rejected (ErrKey "mm.core.cannotconnect"), hreq)
      end
  end.
Proof.
  intros Hnet. unfold call, request.
  destruct (convertValuesToString fuel h data) as [[h1 l]|]; [|reflexivity].
  by destruct net.
Qed.

Lemma decode_primitive (j : json) (h h' : heap) (v : val) :
  json_depth j = 0%nat -> decode h j = (h', v) -> isObject v = false.
Proof. destruct j; try discriminate; by intros _ [= <- <-]. Qed.

Lemma decode_fields_primitive (k : string) (fields : list (string * json)) :
  (forall j, (k, j) ∈ fields -> json_depth j = 0%nat) ->
  forall h acc h' ps,
    decode_fields decode fields h acc = (h', ps) ->
    isObject (assoc_get k acc) = false -> isObject (assoc_get k ps) = false.
Proof.
  induction fields as [|[k0 j] fields IH]; intros Hplain h acc h' ps; simpl.
  - by intros [= <- <-].
  - destruct (decode h j) as [h1 v] eqn:Hd. intros Hgo Hacc.
    apply (IH (fun j' Hin => Hplain j' (list_elem_of_further _ _ _ Hin)) _ _ _ _ Hgo).
    destruct (decide (k0 = k)) as [->|Hne].
    + rewrite assoc_get_set. apply (decode_primitive j h h1 v); [|done].
      apply Hplain. by left.
    + by rewrite assoc_get_set_ne.
Qed.

Lemma eq_string_primitive (fuel : nat) (h : heap) (v : val) (s : string) :
  isObject v = false -> exists b, eq_string fuel h v s = Some (Some b).
Proof. destruct v; try discriminate; intros _; by eexists. Qed.

Lemma string_of_primitive (fuel : nat) (h : heap) (v : val) :
  isObject v = false -> string_of fuel h v = Some (Some (to_string v)).
Proof. by destruct v. Qed.

(** X24. When the server answers the request of a call with an object
    that has an [exception] or a [debuginfo] field, the answer is never
    passed on as a result; and when its [errorcode] and [message] are plain
    values (texts, numbers, booleans or [null]), as the server sends them,
    the call is rejected. *)
Theorem call_rejects_server_errors (fuel : nat) (h hreq : heap) (net : Network)
    (method : string) (data : val) (u t url : string) (re : bool) (ajaxData : nat)
    (fields : list (string * json)) :
  net <> Offline ->
  request fuel h method data u t = Some (url, hreq, ajaxData) ->
  http_post url hreq (VRef ajaxData) = Some (Some (JObj fields)) ->
  "exception" ∈ fields.*1 \/ "debuginfo" ∈ fields.*1 ->
  let settings :=
    Some {| siteurl := Some u; wstoken := Some t; responseExpected := re |} in
  (forall r h', call fuel h net method data settings = Some (r, h') ->
     forall payload, r <> Resolved payload) /\
  ((forall k j, (k, j) ∈ fields -> k = "errorcode" \/ k = "message" ->
      json_depth j = 0%nat) ->
   exists e h', call fuel h net method data settings = Some (Rejected e, h')).
Proof.
  intros Hnet Hreq Hpost Hfield settings. unfold settings.
  rewrite (call_sends_request _ _ _ _ _ _ _ _ Hnet), Hreq, Hpost.
  unfold receive, alloc. cbn [decode].
  destruct (decode_fields decode fields hreq []) as [h2 ps] eqn:Hgo.
  unfold call_success, alloc. cbv beta iota zeta. cbn [truthy negb andb].
  set (hd := ((h2 ++ [{| is_array := false; props := ps |}]) ++
              [{| is_array := false; props := [("data", VRef (length h2))] |}])%list).
  assert (get_prop hd (VRef (length (h2 ++ [{| is_array := false; props := ps |}])%list))
            "data" = VRef (length h2)) as ->.
  { unfold get_prop, hd. by rewrite list_lookup_middle. }
  assert (forall k, get_prop hd (VRef (length h2)) k = assoc_get k ps) as Hget.
  { intros k. unfold get_prop, hd.
    rewrite <- app_assoc. cbn [app]. by rewrite list_lookup_middle. }
  cbn [truthy negb]. rewrite !Hget.
  assert (defined (assoc_get "exception" ps) || defined (assoc_get "debuginfo" ps) = true)
    as Herror.
  { apply orb_true_iff. destruct Hfield as [Hin|Hin]; [left | right];
      exact (decode_fields_defined _ _ _ _ _ _ Hgo (or_introl Hin)). }
  split.
  - intros r h'.
    destruct (defined (assoc_get "exception" ps));
      [|destruct (defined (assoc_get "debuginfo" ps)); [|discriminate Herror]];
      callback_cases; intros [= <- _] payload; discriminate.
  - intros Hplain.
    assert (forall k, k = "errorcode" \/ k = "message" ->
                      isObject (assoc_get k ps) = false) as Hvalues.
    { intros k Hk. apply (decode_fields_primitive k fields) with (h := hreq) (acc := [])
                           (h' := h2); [|done | done].
      intros j Hin. by apply (Hplain k j). }
    destruct (defined (assoc_get "exception" ps)).
    + destruct (eq_string_primitive fuel hd (assoc_get "errorcode" ps) "invalidtoken")
        as [[|] ->]; [by apply Hvalues; left | by eexists _, _ |].
      destruct (eq_string_primitive fuel hd (assoc_get "errorcode" ps) "accessexception")
        as [[|] ->]; [by apply Hvalues; left | by eexists _, _ ..].
    + destruct (defined (assoc_get "debuginfo" ps)); [|discriminate Herror].
      rewrite string_of_primitive by (by apply Hvalues; right). by eexists _, _.
Qed.

Lemma for_in_result (item : heap -> val -> option (heap * val)) (Q : val -> val -> Prop)
    (data : val) (result : nat) (h0 : heap) :
  allocating item ->
  (forall h v h' r, item h v = Some (h', r) -> Q v r) ->
  (forall h k, h0 `prefix_of` h -> get_prop h data k = get_prop h0 data k) ->
  (length h0 <= result)%nat ->
  forall ks h h',
    h0 `prefix_of` h -> (result < length h)%nat ->
    for_in item data result ks h = Some h' ->
    (forall k, k ∈ ks -> k <> "__proto__" ->
       Q (get_prop h0 data k) (get_prop h' (VRef result) k)) /\
    (forall k, k ∉ ks \/ k = "__proto__" ->
       get_prop h' (VRef result) k = get_prop h (VRef result) k) /\
    (forall k, k ∈ keys h' (VRef result) <->
               k ∈ keys h (VRef result) \/ (k ∈ ks /\ k <> "__proto__")) /\
    is_array <$> h' !! result = is_array <$> h !! result.
Proof.
  intros Halloc Hitem Hdata Hresult.
  induction ks as [|el ks IH]; intros h h' Hpre Hlen; cbn [for_in].
  - intros [= <-]. split; [intros k Hk; inversion Hk |]. split; [done |].
    split; [|done].
    intros k. split; [by left | intros [H|[H _]]; [done | inversion H]].
  - destruct (item h (get_prop h data el)) as [[h1 r]|] eqn:Hi; [|discriminate].
    intros Hfor. pose proof (Halloc _ _ _ _ Hi) as Hext.
    pose proof (Hitem _ _ _ _ Hi) as Hq. rewrite (Hdata h el Hpre) in Hq.
    assert (result < length h1)%nat as Hlen1
      by (apply prefix_length in Hext; lia).
    destruct (lookup_lt_is_Some_2 h result Hlen) as [o Ho].
    pose proof (prefix_lookup_Some _ _ _ _ Ho Hext) as Ho1.
    assert (forall k, get_prop h1 (VRef result) k = get_prop h (VRef result) k) as Hsame.
    { intros k. unfold get_prop. by rewrite Ho1, Ho. }
    assert (keys h1 (VRef result) = keys h (VRef result)) as Hsamekeys.
    { unfold keys. by rewrite Ho1, Ho. }
    destruct (decide (el = "__proto__")) as [Hproto|Hproto].
    + assert (set_prop h1 result el r = h1) as Hnone by (by rewrite Hproto).
      rewrite Hnone in Hfor.
      apply IH in Hfor as (Hin & Hout & Hkeys & Harr); [| by etrans | done].
      split; [| split; [| split]].
      * intros k Hk Hp. apply Hin; [|done].
        apply elem_of_cons in Hk as [Hk|Hk]; [congruence | done].
      * intros k Hk. rewrite <- Hsame. apply Hout. destruct Hk as [Hk|Hk]; [|by right].
        apply not_elem_of_cons in Hk as [_ Hk]. by left.
      * intros k. rewrite Hkeys, Hsamekeys, elem_of_cons. split.
        -- intros [H|[H1 H2]]; [by left | right; split; [by right | done]].
        -- intros [H|[[H1|H1] H2]]; [by left | congruence | right; by split].
      * by rewrite Harr, Ho1, Ho.
    + apply IH in Hfor as (Hin & Hout & Hkeys & Harr).
      * split; [| split; [| split]].
        -- intros k Hk Hp. destruct (decide (k ∈ ks)) as [Hks|Hks]; [by apply Hin |].
           apply elem_of_cons in Hk as [Heq|Hk]; [subst k | done].
           rewrite (Hout el (or_introl Hks)), get_prop_set_prop by done. exact Hq.
        -- intros k Hk. rewrite <- Hsame.
           assert (k <> el) as Hne.
           { destruct Hk as [Hk|Hk]; [|congruence].
             by apply not_elem_of_cons in Hk as [Hne _]. }
           rewrite <- (get_prop_set_prop_ne h1 result el k r) by done.
           apply Hout. destruct Hk as [Hk|Hk]; [|by right].
           apply not_elem_of_cons in Hk as [_ Hk]. by left.
        -- intros k. rewrite Hkeys, <- Hsamekeys. unfold keys.
           rewrite set_prop_lookup, Ho1 by done. cbn [fmap option_fmap option_map props].
           rewrite assoc_set_keys, elem_of_cons. split.
           ++ intros [[H|H]|[H1 H2]]; [right; split; [by left | congruence] | by left |
                                      right; split; [by right | done]].
           ++ intros [H|[[H1|H1] H2]]; [left; by right | left; by left | right; by split].
        -- rewrite Harr, set_prop_lookup, Ho1, Ho by done. reflexivity.
      * apply set_prop_frame; [by etrans | done].
      * by rewrite set_prop_length.
Qed.

(** X25. [convertValuesToString] of an object or array yields a fresh one
    (it is allocated by the call, and the objects that existed are left as
    they were) of the same kind (an array for an array, an object for an
    object) with the same keys: a member that is an object or array is
    again one, every other member is its string (the number 5 becomes "5",
    [true] becomes "true", [null] becomes "null"), and there is no other
    member.  The key [__proto__] is the exception: the loop assigns to it,
    which stores no member.  For an argument made of allocated objects the
    result is the argument converted at every depth. *)
Theorem convertValuesToString_stringifies_members (fuel : nat) (h h' : heap) (l result : nat)
    (o : obj) :
  h !! l = Some o ->
  convertValuesToString fuel h (VRef l) = Some (h', result) ->
  (result = length h /\ h `prefix_of` h') /\
  is_array <$> h' !! result = Some (is_array o) /\
  (forall k, k ∈ (props o).*1 -> k <> "__proto__" ->
     stringified (get_prop h (VRef l) k) (get_prop h' (VRef result) k)) /\
  (forall k, k ∈ keys h' (VRef result) <-> k ∈ (props o).*1 /\ k <> "__proto__") /\
  (forall d, bounded h d (VRef l) -> converted h h' (VRef l) (VRef result)).
Proof.
  intros Ho Hconv.
  split; [by apply convertValuesToString_frame in Hconv as (? & ? & _) |].
  cut (is_array <$> h' !! result = Some (is_array o) /\
       (forall k, k ∈ (props o).*1 -> k <> "__proto__" ->
          stringified (get_prop h (VRef l) k) (get_prop h' (VRef result) k)) /\
       (forall k, k ∈ keys h' (VRef result) <-> k ∈ (props o).*1 /\ k <> "__proto__")).
  { intros (H1 & H2 & H3). split; [done |]. split; [done |]. split; [done |].
    intros d Hb. by eapply convertValuesToString_image. }
  revert Hconv. destruct fuel as [|fuel]; [discriminate |].
  cbn [convertValuesToString]. unfold alloc.
  match goal with
  | |- context [for_in ?item _ (length h) ?ks ?h1] =>
      destruct (for_in item (VRef l) (length h) ks h1) as [h2|] eqn:Hfor; [|discriminate];
      assert (allocating item) as Halloc;
      [| assert (forall h3 v h4 r, item h3 v = Some (h4, r) -> stringified v r) as Hitem]
  end.
  { intros h3 v h4 r. destruct (isObject v); [|by intros [= <- _]].
    destruct (convertValuesToString fuel h3 v) as [[h5 r5]|] eqn:Hrec; [|discriminate].
    intros [= <- _]. by apply convertValuesToString_frame in Hrec as [? _]. }
  { intros h3 v h4 r. unfold stringified. destruct (isObject v).
    - destruct (convertValuesToString fuel h3 v) as [[h5 r5]|]; [|discriminate].
      by intros [= _ <-].
    - by intros [= _ <-]. }
  intros [= <- <-].
  assert (keys (h ++ [{| is_array := negb (negb (isArray h (VRef l)) && isObject (VRef l));
                         props := [] |}])%list (VRef l) = (props o).*1) as Hkeys.
  { unfold keys. by rewrite lookup_app_l, Ho by (by eapply lookup_lt_Some). }
  rewrite Hkeys in Hfor.
  eapply (for_in_result _ stringified (VRef l) (length h) h) in Hfor
    as (Hin & Hout & Hown & Harr);
    [| exact Halloc | exact Hitem | | done | by apply prefix_app_r |].
  - split; [| split].
    + rewrite Harr, list_lookup_middle by reflexivity. simpl.
      unfold isArray. rewrite Ho. by destruct (is_array o).
    + exact Hin.
    + intros k. rewrite Hown. unfold keys at 1. rewrite list_lookup_middle by reflexivity.
      cbn [props fmap list_fmap]. split; [intros [H|H]; [inversion H | done] | by right].
  - intros h3 k Hpre. unfold get_prop.
    by rewrite (prefix_lookup_Some _ _ _ _ Ho Hpre), Ho.
  - rewrite length_app. simpl. lia.
Qed.

End CallMore.



Lemma call_rejects_server_errors_witness :
  exists hreq,
    (Online <> Offline /\
     request 4 Sample.caller_heap "core_enrol_get_enrolled_users" (VRef 0)
       "https://moodle.example.org" "t0k3n" =
       Some ("https://moodle.example.org/webservice/rest/server.php?moodlewsrestformat=json",
             hreq, 3%nat) /\
     "exception" ∈ ["exception"; "errorcode"; "message"]) /\
    exists e h',
      @call Demo.failing_transport 4 Sample.caller_heap Online
        "core_enrol_get_enrolled_users" (VRef 0) (Some Sample.presets) =
        Some (Rejected e, h').
Proof.
  eexists.
  assert (Online <> Offline) as Hnet by discriminate.
  assert ("exception" ∈ ["exception"; "errorcode"; "message"]) as Hin by (by left).
  split; [split; [exact Hnet | split; [vm_compute; reflexivity | exact Hin]] |].
  refine (proj2 (@call_rejects_server_errors Demo.failing_transport 4 Sample.caller_heap _
                   Online "core_enrol_get_enrolled_users" (VRef 0)
                   "https://moodle.example.org" "t0k3n" _ false 3 _ Hnet _ _ _) _).
  - vm_compute. reflexivity.
  - reflexivity.
  - left. exact Hin.
  - intros k j Hj _. repeat (apply elem_of_cons in Hj as [[= -> ->]|Hj]; [reflexivity |]).
    inversion Hj.
Defined.

Lemma convertValuesToString_stringifies_members_witness :
  exists h',
    (Sample.caller_heap !! 0%nat =
       Some {| is_array := false; props := [("courseid", VNum 5); ("options", VRef 1)] |} /\
     convertValuesToString 4 Sample.caller_heap (VRef 0) = Some (h', 3%nat)) /\
    get_prop h' (VRef 3) "courseid" = VStr "5" /\
    is_array <$> h' !! 3%nat = Some false.
Proof.
  eexists. split; [split; [reflexivity | vm_compute; reflexivity] |].
  match goal with
  | |- get_prop ?h' _ _ = _ /\ _ =>
      destruct (convertValuesToString_stringifies_members 4 Sample.caller_heap h' 0 3 _
                  eq_refl eq_refl) as (_ & Harr & Hin & _)
  end.
  split; [|exact Harr].
  refine (Hin "courseid" _ _); [simpl; by left | discriminate].
Defined.

(** * Properties of the file system service *)

Lemma indexOf_from_shift (sub s : string) (i : nat) :
  indexOf_from sub s (S i) = S <$> indexOf_from sub s i.
Proof.
  revert i. induction s as [|c s IH]; intros i; simpl.
  - destruct (starts_with sub ""); reflexivity.
  - destruct (starts_with sub (String c s)); [reflexivity | apply IH].
Qed.

Lemma starts_with_slash (c : ascii) (s : string) :
  starts_with "/" (String c s) = true -> c = "/"%char.
Proof.
  simpl. rewrite andb_true_r. intros H. symmetry. by apply Ascii.eqb_eq.
Qed.

(** The text splits at its first slash. *)
Lemma first_slash (s : string) (j : nat) :
  indexOf_from "/" s 0 = Some j ->
  s = take j s ++ String "/" (drop (S j) s) /\
  indexOf_from "/" (take j s) 0 = None /\
  (String.length (drop (S j) s) < String.length s)%nat.
Proof.
  revert j. induction s as [|c s IH]; intros j.
  - discriminate.
  - cbn [indexOf_from]. destruct (starts_with "/" (String c s)) eqn:Hc.
    + intros [= <-]. apply starts_with_slash in Hc as ->. cbn. split; [reflexivity |].
      split; [reflexivity | lia].
    + rewrite indexOf_from_shift. destruct (indexOf_from "/" s 0) as [k|] eqn:Hk; [|discriminate].
      intros [= <-]. destruct (IH k eq_refl) as (Hs & Hfree & Hlen).
      split; [change (String c s = String c (take k s ++ String "/" (drop (S k) s)));
              f_equal; exact Hs |].
      change (drop (S (S k)) (String c s)) with (drop (S k) s).
      change (take (S k) (String c s)) with (String c (take k s)).
      change (String.length (String c s)) with (S (String.length s)).
      split; [|lia]. cbn [indexOf_from].
      replace (starts_with "/" (String c (take k s))) with false
        by (simpl in Hc |- *; exact (eq_sym Hc)).
      by rewrite indexOf_from_shift, Hfree.
Qed.

(** [split("/")] cuts at the first slash and goes on with the rest. *)
Lemma split_go_slash (s cur : string) :
  split_go "/" s 0 cur =
  match indexOf_from "/" s 0 with
  | None => [cur ++ s]
  | Some j => (cur ++ take j s) :: split_go "/" (drop (S j) s) 0 ""
  end.
Proof.
  revert cur. induction s as [|c s IH]; intros cur.
  - cbn. by rewrite append_empty_r.
  - cbn [split_go indexOf_from]. destruct (starts_with "/" (String c s)) eqn:Hc.
    + cbn. by rewrite append_empty_r.
    + rewrite IH, indexOf_from_shift. destruct (indexOf_from "/" s 0) as [k|]; cbn.
      * by rewrite append_assoc.
      * by rewrite append_assoc.
Qed.

Lemma slice_last_slash (s : string) : slice_last (s ++ "/") = "/".
Proof.
  induction s as [|c s IH]; [reflexivity |].
  cbn [String.append slice_last]. destruct (s ++ "/") eqn:Hs; [|exact IH].
  destruct s; discriminate.
Qed.

Lemma lastIndexOf_from_None (s : string) (i i' : nat) :
  lastIndexOf_from "/" s i = None -> indexOf_from "/" s i' = None.
Proof.
  revert i i'. induction s as [|c s IH]; intros i i'; [reflexivity |].
  cbn [lastIndexOf_from indexOf_from].
  destruct (lastIndexOf_from "/" s (S i)) eqn:Hl; [discriminate |].
  destruct (starts_with "/" (String c s)); [discriminate |].
  intros _. exact (IH _ _ Hl).
Qed.

(** The text splits at its last slash. *)
Lemma last_slash (s : string) (i j : nat) :
  lastIndexOf_from "/" s i = Some j ->
  exists k, j = (i + k)%nat /\ s = take k s ++ String "/" (drop (S k) s) /\
    indexOf_from "/" (drop (S k) s) 0 = None.
Proof.
  revert i j. induction s as [|c s IH]; intros i j; [discriminate |].
  cbn [lastIndexOf_from]. destruct (lastIndexOf_from "/" s (S i)) as [j'|] eqn:Hl.
  - intros [= <-]. destruct (IH _ _ Hl) as (k & -> & Hs & Hfree).
    exists (S k). split; [lia |].
    split; [change (String c s = String c (take k s ++ String "/" (drop (S k) s)));
            f_equal; exact Hs | exact Hfree].
  - destruct (starts_with "/" (String c s)) eqn:Hc; [|discriminate].
    intros [= <-]. apply starts_with_slash in Hc as ->. exists 0%nat.
    split; [lia |]. split; [reflexivity |]. exact (lastIndexOf_from_None _ _ _ Hl).
Qed.

Lemma indexOf_from_None_free (s : string) : indexOf_from "/" s 0 = None -> ~ contains s "/".
Proof.
  intros H Hc. apply (indexOf_from_Some "/" s 0) in Hc as [x Hx]. congruence.
Qed.

(** X26. [create]: a path of several levels is created one level at a
    time.  With more fuel than the path has characters the call returns;
    the names it passes to [$cordovaFile], in order, are the leading
    segments of the path cut at its slashes, none of them holds a slash,
    the state of the service is the one [init] leaves, and a call that
    resolves has created every segment. *)
Theorem create_one_level_at_a_time `{Device} (fuel : nat) (fs : FS) (isDirectory : bool)
    (path : string) (failIfExists : bool) (base : option string) :
  (String.length path < fuel)%nat ->
  exists r fs' ops,
    create fuel fs isDirectory path failIfExists base = Some (r, fs', ops) /\
    (op_name <$> ops) `prefix_of` split "/" path /\
    Forall (fun op => ~ contains (op_name op) "/") ops /\
    fs' = (init fs).2 /\
    (forall entry, r = Resolved entry -> op_name <$> ops = split "/" path).
Proof.
  revert fs path base. induction fuel as [|fuel IH]; intros fs path base Hfuel; [lia |].
  cbn [create]. destruct (init fs) as [r0 fs0] eqn:Hinit. cbn [snd].
  assert (Hagain : r0 = Resolved tt -> init fs0 = (Resolved tt, fs0)).
  { intros ->. unfold init in Hinit |- *. destruct (initialized fs) eqn:Hi.
    - injection Hinit as <-. by rewrite Hi.
    - destruct platform; try discriminate; injection Hinit as <-; reflexivity. }
  destruct r0 as [[]|e|].
  2:{ eexists _, _, _. split; [reflexivity |]. split; [apply prefix_nil |].
      split; [constructor |]. split; [reflexivity | discriminate]. }
  2:{ eexists _, _, _. split; [reflexivity |]. split; [apply prefix_nil |].
      split; [constructor |]. split; [reflexivity | discriminate]. }
  specialize (Hagain eq_refl). unfold split. rewrite split_go_slash. unfold indexOf.
  destruct (indexOf_from "/" path 0) as [j|] eqn:Hj.
  - replace (Z.of_nat j =? -1)%Z with false by (symmetry; apply Z.eqb_neq; lia).
    destruct (first_slash _ _ Hj) as (Hpath & Hfree & Hlen).
    replace (substr_to path (Z.of_nat j)) with (take j path)
      by (unfold substr_to; by rewrite Nat2Z.id).
    replace (substr_from path (Z.of_nat j + 1)) with (drop (S j) path).
    2:{ unfold substr_from. replace (Z.of_nat j + 1 <? 0)%Z with false
          by (symmetry; apply Z.ltb_ge; lia).
        f_equal. lia. }
    set (base' := match base with
                  | Some b => if truthy_string b then b else basePath fs0
                  | None => basePath fs0
                  end).
    assert (Hname : ~ contains (take j path) "/") by exact (indexOf_from_None_free _ Hfree).
    destruct (cordova_createDir base' (take j path) true) as [newDirEntry|error|].
    + destruct (IH fs0 (drop (S j) path) (Some newDirEntry)) as (r & fs' & ops & -> & Hpre & Hall & Hfs & Hres);
        [lia |].
      rewrite Hagain in Hfs. cbn [snd] in Hfs. subst fs'.
      eexists _, _, _. split; [reflexivity |]. cbn [fmap list_fmap op_name].
      split; [by apply prefix_cons |]. split; [by constructor |]. split; [reflexivity |].
      intros entry Hr. cbn [String.append]. f_equal. exact (Hres entry Hr).
    + eexists _, _, _. split; [reflexivity |]. cbn [fmap list_fmap op_name].
      split; [apply prefix_cons, prefix_nil |]. split; [by repeat constructor |].
      split; [reflexivity | discriminate].
    + eexists _, _, _. split; [reflexivity |]. cbn [fmap list_fmap op_name].
      split; [apply prefix_cons, prefix_nil |]. split; [by repeat constructor |].
      split; [reflexivity | discriminate].
  - cbn [Z.eqb]. assert (Hname : ~ contains path "/") by exact (indexOf_from_None_free _ Hj).
    destruct isDirectory.
    + eexists _, _, _. split; [reflexivity |]. cbn [fmap list_fmap op_name String.append].
      split; [reflexivity |]. split; [by repeat constructor |]. split; reflexivity.
    + eexists _, _, _. split; [reflexivity |]. cbn [fmap list_fmap op_name String.append].
      split; [reflexivity |]. split; [by repeat constructor |]. split; reflexivity.
Qed.

Lemma init_again `{Device} (fs fs0 : FS) :
  init fs = (Resolved tt, fs0) -> init fs0 = (Resolved tt, fs0).
Proof.
  unfold init. destruct (initialized fs) eqn:Hi.
  - intros [= <-]. by rewrite Hi.
  - destruct platform; try discriminate; intros [= <-]; reflexivity.
Qed.

Lemma create_state `{Device} (fuel : nat) (fs fs' : FS) (isDirectory : bool) (path : string)
    (failIfExists : bool) (base : option string) (r : outcome string) (ops : list FsOp) :
  create fuel fs isDirectory path failIfExists base = Some (r, fs', ops) -> fs' = (init fs).2.
Proof.
  revert fs path base r ops. induction fuel as [|fuel IH]; intros fs path base r ops; [discriminate |].
  cbn [create]. destruct (init fs) as [r0 fs0] eqn:Hinit. cbn [snd].
  destruct r0 as [[]|e|]; [|by intros [= _ <- _] | by intros [= _ <- _]].
  destruct (indexOf path "/" =? -1)%Z.
  - destruct isDirectory; by intros [= _ <- _].
  - destruct (cordova_createDir _ _ true) as [newDirEntry|error|];
      [|by intros [= _ <- _] | by intros [= _ <- _]].
    destruct (create fuel fs0 isDirectory _ failIfExists (Some newDirEntry))
      as [[[r1 fs1] ops1]|] eqn:Hrec; [|discriminate].
    intros [= _ <- _]. apply IH in Hrec. by rewrite (init_again _ _ Hinit) in Hrec.
Qed.

(** X27. [create]: every level is created inside the one before.  The
    first call of [$cordovaFile] works in the base given, or in the base
    path of the service when none is given; every later call works in the
    entry that the call before it, a [createDir] with the replace flag
    set, resolved with. *)
Theorem create_nests_the_levels `{Device} (fuel : nat) (fs fs' : FS) (isDirectory : bool)
    (path : string) (failIfExists : bool) (base : option string) (r : outcome string)
    (ops : list FsOp) :
  create fuel fs isDirectory path failIfExists base = Some (r, fs', ops) ->
  (forall op, ops !! 0%nat = Some op ->
     op_base op = match base with
                  | Some b => if truthy_string b then b else basePath fs'
                  | None => basePath fs'
                  end) /\
  (forall (i : nat) op1 op2, ops !! i = Some op1 -> ops !! S i = Some op2 ->
     exists newDirEntry,
       op1 = CreateDir (op_base op1) (op_name op1) true /\
       cordova_createDir (op_base op1) (op_name op1) true = Resolved newDirEntry /\
       op_base op2 = if truthy_string newDirEntry then newDirEntry else basePath fs').
Proof.
  revert fs path base r ops. induction fuel as [|fuel IH]; intros fs path base r ops; [discriminate |].
  cbn [create]. destruct (init fs) as [r0 fs0] eqn:Hinit.
  destruct r0 as [[]|e|];
    [|intros [= _ <- <-]; split; intros; discriminate
     |intros [= _ <- <-]; split; intros; discriminate].
  destruct (indexOf path "/" =? -1)%Z.
  - destruct isDirectory; intros [= _ <- <-];
      (split; [by intros op [= <-] | intros [|i] op1 op2 H1 H2; discriminate]).
  - destruct (cordova_createDir _ _ true) as [newDirEntry|error|] eqn:Hdir;
      [|intros [= _ <- <-]; split; [by intros op [= <-] | intros [|i] op1 op2 H1 H2; discriminate]
       |intros [= _ <- <-]; split; [by intros op [= <-] | intros [|i] op1 op2 H1 H2; discriminate]].
    destruct (create fuel fs0 isDirectory _ failIfExists (Some newDirEntry))
      as [[[r1 fs1] ops1]|] eqn:Hrec; [|discriminate].
    intros [= _ <- <-]. pose proof (create_state _ _ _ _ _ _ _ _ _ Hrec) as Hfs.
    rewrite (init_again _ _ Hinit) in Hfs. cbn [snd] in Hfs. subst fs1.
    destruct (IH _ _ _ _ _ Hrec) as [Hfirst Hnext]. split; [by intros op [= <-] |].
    intros [|i] op1 op2 H1 H2.
    + injection H1 as <-. exists newDirEntry. cbn [op_base op_name].
      split; [reflexivity |]. split; [exact Hdir |]. exact (Hfirst op2 H2).
    + exact (Hnext i op1 op2 H1 H2).
Qed.

(** X28. [getBasePath]: the path the promise resolves with ends with a
    slash; it is the base path of the initialised service, with a slash
    added only when it lacks one. *)
Theorem getBasePath_ends_with_a_slash `{Device} (fs fs' : FS) (path : string) :
  getBasePath fs = (Resolved path, fs') ->
  slice_last path = "/" /\
  initialized fs' = true /\
  (path = basePath fs' \/ (slice_last (basePath fs') <> "/" /\ path = basePath fs' ++ "/")).
Proof.
  unfold getBasePath. destruct (init fs) as [r fs0] eqn:Hinit.
  destruct r as [[]|e|]; [|discriminate | discriminate]. intros [= <- <-].
  assert (Hi : initialized fs0 = true).
  { unfold init in Hinit. destruct (initialized fs) eqn:Hi.
    - by injection Hinit as <-.
    - destruct platform; try discriminate; by injection Hinit as <-. }
  destruct (String.eqb (slice_last (basePath fs0)) "/") eqn:Hlast.
  - apply String.eqb_eq in Hlast. split; [exact Hlast |]. split; [exact Hi | by left].
  - apply String.eqb_neq in Hlast. split; [apply slice_last_slash |].
    split; [exact Hi | by right].
Qed.

(** X29. [removeExternalFile]: a full path that holds a slash is cut at
    its last slash: the directory and the file name passed to
    [$cordovaFile.removeFile], joined by a slash, give the full path back,
    and the file name holds no slash. *)
Theorem removeExternalFile_cuts_at_the_last_slash (fullPath : string) :
  contains fullPath "/" ->
  exists directory filename,
    removeExternalFile fullPath = RemoveFile directory filename /\
    fullPath = directory ++ "/" ++ filename /\
    ~ contains filename "/".
Proof.
  intros Hc. unfold removeExternalFile, lastIndexOf.
  destruct (lastIndexOf_from "/" fullPath 0) as [j|] eqn:Hl.
  - destruct (last_slash _ _ _ Hl) as (k & -> & Hs & Hfree). cbn [Nat.add].
    eexists _, _. split; [reflexivity |].
    replace (substring fullPath 0 (Z.of_nat k)) with (take k fullPath).
    2:{ unfold substring. rewrite Z.max_id, Z.max_r by lia. rewrite Nat2Z.id.
        change (Z.to_nat 0) with 0%nat. rewrite Nat.max_0_l, Nat.min_0_l, Nat.sub_0_r.
        reflexivity. }
    replace (substr_from fullPath (Z.of_nat k + 1)) with (drop (S k) fullPath).
    2:{ unfold substr_from. replace (Z.of_nat k + 1 <? 0)%Z with false
          by (symmetry; apply Z.ltb_ge; lia).
        f_equal. lia. }
    split; [exact Hs | exact (indexOf_from_None_free _ Hfree)].
  - exfalso. exact (indexOf_from_None_free _ (lastIndexOf_from_None _ _ 0 Hl) Hc).
Qed.

Lemma q_all_resolved {A : Type} (promises : list (outcome A)) (values : list A) :
  q_all promises = Resolved values <-> promises = Resolved <$> values.
Proof.
  revert values. induction promises as [|p promises IH]; intros values; cbn [q_all].
  - split; [by intros [= <-] | by destruct values].
  - destruct p as [a|e|], (q_all promises) as [l|e'|] eqn:Hq;
      try (split; [discriminate | destruct values as [|v values]; [discriminate |];
                   intros [= Hp Hps]; try discriminate;
                   apply IH in Hps; discriminate]).
    split.
    + intros [= <-]. cbn. f_equal. by apply IH.
    + destruct values as [|v values]; [discriminate |]. intros [= -> Hps].
      apply IH in Hps. by injection Hps as ->.
Qed.

Lemma nearest_safe (z : Z) :
  (0 <= z <= max_safe_integer)%Z -> JSNumber.nearest z = Some z.
Proof.
  intros Hz. unfold JSNumber.nearest, max_safe_integer in *.
  rewrite Z.abs_eq by lia.
  assert (Z.log2 z + 1 - 53 <= 0)%Z as Hbits.
  { destruct (decide (z = 0%Z)) as [->|Hne]; [done |].
    assert (Z.log2 z < 53)%Z; [|lia].
    apply Z.log2_lt_pow2; [lia |]. change (2 ^ 53)%Z with 9007199254740992%Z. lia. }
  apply Z.leb_le in Hbits. by rewrite Hbits.
Qed.

Lemma parseInt_safe (z : Z) :
  (0 <= z <= max_safe_integer)%Z -> JSNumber.parseInt z = Some z.
Proof.
  intros Hz. unfold JSNumber.parseInt, max_safe_integer in *.
  assert ((Z.abs z <? 10 ^ 21)%Z = true) as ->; [|reflexivity].
  apply Z.ltb_lt. change (10 ^ 21)%Z with 1000000000000000000000%Z. lia.
Qed.

Lemma files_total_nonnegative (entry : Entry) :
  nonnegative entry = true -> (0 <= files_total entry)%Z.
Proof.
  induction entry as [size| |entries IH|] using Entry_members_ind;
    cbn [nonnegative files_total]; try lia.
  - destruct size as [[size|]|]; [|lia ..]. intros H. by apply Z.leb_le.
  - induction IH as [|e entries He _ IHl]; cbn; [lia |].
    rewrite andb_true_iff. intros [Hn Hns]. specialize (He Hn). specialize (IHl Hns).
    cbn [fmap] in IHl. lia.
Qed.

(** The loop adds up sizes that stay in the range of the exact integers. *)
Lemma sum_sizes_safe (numbers : list Z) (acc : Z) :
  Forall (fun z => 0 <= z)%Z numbers -> (0 <= acc)%Z ->
  (acc + fold_right Z.add 0 numbers <= max_safe_integer)%Z ->
  sum_sizes (Some <$> numbers) (Some acc) =
    Resolved (Some (acc + fold_right Z.add 0 numbers)%Z).
Proof.
  intros Hpos. revert acc. induction Hpos as [|z numbers Hz Hpos IH]; intros acc Hacc Hsum.
  - cbn. do 2 f_equal. lia.
  - cbn [fmap list_fmap sum_sizes fold_right mbind option_bind] in *.
    assert (0 <= fold_right Z.add 0 numbers)%Z as Hrest.
    { clear -Hpos. induction Hpos; cbn; lia. }
    rewrite parseInt_safe by lia. unfold JSNumber.add. rewrite nearest_safe by lia.
    fold (@fmap list _ Z (option Z) Some numbers). rewrite IH by lia. do 2 f_equal. lia.
Qed.

Lemma sum_sizes_resolved (sizes : list (option Z)) (acc result : option Z) :
  sum_sizes sizes acc = Resolved result -> Forall is_Some sizes.
Proof.
  revert acc. induction sizes as [|size sizes IH]; intros acc; [constructor |].
  cbn [sum_sizes]. destruct size as [z|]; [|discriminate]. cbn [mbind option_bind].
  destruct (JSNumber.parseInt z); [|discriminate].
  intros H. constructor; [by eexists | exact (IH _ H)].
Qed.

(** X30. [getSize] resolves with a number only when every file below the
    entry reports a size that is a number and every directory below it can
    be listed.  When that is so, no size is negative and the sizes add up
    to at most [Number.MAX_SAFE_INTEGER], the number is the sum of the
    sizes of all these files. *)
Theorem getSize_adds_up_the_files (entry : Entry) :
  (forall z, getSize entry = Resolved (Some z) -> readable entry = true) /\
  (readable entry = true -> nonnegative entry = true ->
   (files_total entry <= max_safe_integer)%Z ->
   getSize entry = Resolved (Some (files_total entry))).
Proof.
  induction entry as [size| |entries IH|] using Entry_members_ind.
  - destruct size as [[size|]|]; cbn; split; try discriminate; done.
  - cbn. split; [discriminate | done].
  - cbn [getSize readable nonnegative files_total]. split.
    + intros z. destruct (q_all (getSize <$> entries)) as [sizes|e|] eqn:Hq;
        [|discriminate ..].
      apply q_all_resolved in Hq. intros Hsum. apply sum_sizes_resolved in Hsum.
      clear z. revert sizes Hq Hsum.
      induction IH as [|e entries [He _] _ IHl]; intros sizes Hq Hsome; [reflexivity |].
      destruct sizes as [|size sizes]; [discriminate |]. injection Hq as Hsize Hq.
      apply Forall_cons in Hsome as [[z ->] Hsome]. cbn [forallb].
      by rewrite (He z Hsize), (IHl sizes Hq Hsome).
    + intros Hread Hpos Hsum.
      assert (q_all (getSize <$> entries) = Resolved (Some <$> (files_total <$> entries)) /\
              Forall (fun z => 0 <= z)%Z (files_total <$> entries)) as [-> Htotals].
      { clear -IH Hread Hpos Hsum. revert Hread Hpos Hsum.
        induction IH as [|e entries [_ He] _ IHl]; cbn [forallb fmap list_fmap fold_right];
          [by split |].
        rewrite !andb_true_iff. intros [Hr Hrs] [Hn Hns] Hsum.
        pose proof (files_total_nonnegative e Hn) as He0.
        assert (0 <= fold_right Z.add 0 (files_total <$> entries))%Z as Hrest.
        { clear -Hns. induction entries as [|e' entries IHe]; cbn; [lia |].
          cbn [forallb] in Hns. apply andb_true_iff in Hns as [Hn Hns].
          pose proof (files_total_nonnegative e' Hn). specialize (IHe Hns).
          cbn [fmap] in IHe. lia. }
        cbn [fmap] in Hrest.
        destruct (IHl Hrs Hns ltac:(lia)) as [Hq Hall].
        split; [|constructor; [exact He0 | exact Hall]].
        cbn [q_all]. rewrite (He Hr Hn ltac:(lia)).
        fold (@fmap list _ Entry (outcome (option Z)) getSize entries).
        by rewrite Hq. }
      rewrite sum_sizes_safe by (done || lia). do 2 f_equal.
  - cbn. split; [discriminate | done].
Qed.

Lemma create_one_level_at_a_time_witness :
  (String.length "filepool/site1/file.txt" < 30)%nat /\
  exists r fs' ops,
    @create Demo.device 30 Demo.fresh_fs false "filepool/site1/file.txt" false None
      = Some (r, fs', ops) /\
    (op_name <$> ops) `prefix_of` split "/" "filepool/site1/file.txt" /\
    Forall (fun op => ~ contains (op_name op) "/") ops /\
    fs' = (@init Demo.device Demo.fresh_fs).2 /\
    (forall entry, r = Resolved entry -> op_name <$> ops = split "/" "filepool/site1/file.txt").
Proof.
  split; [cbn; lia |].
  apply (@create_one_level_at_a_time Demo.device 30 Demo.fresh_fs false
           "filepool/site1/file.txt" false None).
  cbn; lia.
Defined.

Lemma create_nests_the_levels_witness :
  let root := "file:///storage/emulated/0/Android/data/com.moodle.moodlemobile" in
  let fs' := {| initialized := true; basePath := root |} in
  let ops := [CreateDir root "filepool" true;
              CreateDir (root ++ "/filepool/") "site1" true;
              CreateFile (root ++ "/filepool/site1/") "file.txt" true] in
  @create Demo.device 30 Demo.fresh_fs false "filepool/site1/file.txt" false None
    = Some (Resolved (root ++ "/filepool/site1/file.txt"), fs', ops) /\
  ((forall op, ops !! 0%nat = Some op -> op_base op = basePath fs') /\
   (forall (i : nat) op1 op2, ops !! i = Some op1 -> ops !! S i = Some op2 ->
      exists newDirEntry,
        op1 = CreateDir (op_base op1) (op_name op1) true /\
        @cordova_createDir Demo.device (op_base op1) (op_name op1) true = Resolved newDirEntry /\
        op_base op2 = if truthy_string newDirEntry then newDirEntry else basePath fs')).
Proof.
  intros root fs' ops. split; [vm_compute; reflexivity |].
  apply (@create_nests_the_levels Demo.device 30 Demo.fresh_fs fs' false
           "filepool/site1/file.txt" false None
           (Resolved (root ++ "/filepool/site1/file.txt")) ops).
  vm_compute; reflexivity.
Defined.

Lemma getBasePath_ends_with_a_slash_witness :
  let root := "file:///storage/emulated/0/Android/data/com.moodle.moodlemobile" in
  let fs' := {| initialized := true; basePath := root |} in
  @getBasePath Demo.device Demo.fresh_fs = (Resolved (root ++ "/"), fs') /\
  (slice_last (root ++ "/") = "/" /\
   initialized fs' = true /\
   (root ++ "/" = basePath fs' \/
    (slice_last (basePath fs') <> "/" /\ root ++ "/" = basePath fs' ++ "/"))).
Proof.
  intros root fs'. split; [vm_compute; reflexivity |].
  apply (@getBasePath_ends_with_a_slash Demo.device Demo.fresh_fs fs' (root ++ "/")).
  vm_compute; reflexivity.
Defined.

Lemma removeExternalFile_cuts_at_the_last_slash_witness :
  contains "/sdcard/Download/notes.pdf" "/" /\
  exists directory filename,
    removeExternalFile "/sdcard/Download/notes.pdf" = RemoveFile directory filename /\
    "/sdcard/Download/notes.pdf" = directory ++ "/" ++ filename /\
    ~ contains filename "/".
Proof.
  assert (H : contains "/sdcard/Download/notes.pdf" "/").
  { exists "", "sdcard/Download/notes.pdf". reflexivity. }
  split; [exact H |].
  exact (removeExternalFile_cuts_at_the_last_slash "/sdcard/Download/notes.pdf" H).
Defined.

Lemma getSize_adds_up_the_files_witness :
  (readable Demo.tree = true /\ nonnegative Demo.tree = true /\
   (files_total Demo.tree <= max_safe_integer)%Z) /\
  getSize Demo.tree = Resolved (Some 157%Z).
Proof.
  assert (files_total Demo.tree <= max_safe_integer)%Z as Hsum by (vm_compute; discriminate).
  split; [by repeat split |].
  exact (proj2 (getSize_adds_up_the_files Demo.tree) eq_refl eq_refl Hsum).
Defined.
